(** * RBAC reconciler of the OpenShift pipelines operator

    A shallow embedding of
    [pkg/reconciler/openshift/tektonconfig/rbac.go]: the pure helpers on
    subject lists and owner references, the defaulting of the feature
    toggles, and the reconciliation pass itself, run against an in-memory
    model of the API server. *)

From stdpp Require Import gmap strings list fin_maps.
From Equations Require Import Equations.
From Stdlib Require Import Ascii.

Open Scope string_scope.
Open Scope list_scope.

(** ** Constants of the source file *)

Definition pipelinesSCCRole : string := "pipelines-scc-role".
Definition pipelinesSCCClusterRole : string := "pipelines-scc-clusterrole".
Definition pipelinesSCCRoleBinding : string := "pipelines-scc-rolebinding".
Definition pipelineSA : string := "pipeline".
Definition PipelineRoleBinding : string := "openshift-pipelines-edit".
Definition rbacInstallerSetNameOld : string := "rbac-resources".
Definition serviceCABundleConfigMap : string := "config-service-cabundle".
Definition trustedCABundleConfigMap : string := "config-trusted-cabundle".
Definition clusterInterceptors : string := "openshift-pipelines-clusterinterceptors".
Definition namespaceVersionLabel : string :=
  "openshift-pipelines.tekton.dev/namespace-reconcile-version".
Definition namespaceTrustedConfigLabel : string :=
  "openshift-pipelines.tekton.dev/namespace-trusted-configmaps-version".
Definition rbacInstallerSetNamePrefix : string := "rhosp-rbac-".
Definition rbacParamName : string := "createRbacResource".
Definition trustedCABundleParamName : string := "createCABundleConfigMaps".
Definition legacyPipelineRbacParamName : string := "legacyPipelineRbac".
Definition serviceAccountCreationLabel : string :=
  "openshift-pipelines.tekton.dev/sa-created".

(** [rbacv1.GroupName] and [rbacv1.ServiceAccountKind] of k8s.io/api. *)
Definition GroupName : string := "rbac.authorization.k8s.io".
Definition ServiceAccountKind : string := "ServiceAccount".

(** ** Kubernetes objects, as far as the reconciler reads or writes them *)

Record Subject := mkSubject {
  subjKind : string;
  subjAPIGroup : string;
  subjName : string;
  subjNamespace : string }.

Record OwnerReference := mkOwnerReference {
  orAPIVersion : string;
  orKind : string;
  orName : string;
  orUID : string }.

Record RoleRef := mkRoleRef {
  rrAPIGroup : string;
  rrKind : string;
  rrName : string }.

Record PolicyRule := mkPolicyRule {
  prAPIGroups : list string;
  prResourceNames : list string;
  prResources : list string;
  prVerbs : list string }.

Record Param := mkParam {
  paramName : string;
  paramValue : string }.

#[global] Instance Subject_eq_dec : EqDecision Subject.
Proof. solve_decision. Defined.
#[global] Instance OwnerReference_eq_dec : EqDecision OwnerReference.
Proof. solve_decision. Defined.
#[global] Instance RoleRef_eq_dec : EqDecision RoleRef.
Proof. solve_decision. Defined.
#[global] Instance PolicyRule_eq_dec : EqDecision PolicyRule.
Proof. solve_decision. Defined.
#[global] Instance Param_eq_dec : EqDecision Param.
Proof. solve_decision. Defined.

(** ** Subject lists *)

(** [v.Name == x.Name && v.Kind == x.Kind && v.Namespace == x.Namespace] *)
Definition sameSubject (v x : Subject) : bool :=
  bool_decide (subjName v = subjName x)
  && bool_decide (subjKind v = subjKind x)
  && bool_decide (subjNamespace v = subjNamespace x).

Fixpoint hasSubject (subjects : list Subject) (x : Subject) : bool :=
  match subjects with
  | [] => false
  | v :: rest => if sameSubject v x then true else hasSubject rest x
  end.

(** [fmt.Sprintf("%s/%s/%s", subject.Kind, subject.Name, subject.Namespace)] *)
Definition subjectKey (s : Subject) : string :=
  subjKind s +:+ "/" +:+ subjName s +:+ "/" +:+ subjNamespace s.

(** The [map[string]struct{}] that both [CompareSubjects] and
    [mergeSubjects] fill with the keys of a list. *)
Definition keySet (l : list Subject) : gset string :=
  foldl (fun set subject => {[ subjectKey subject ]} ∪ set) ∅ l.

Definition CompareSubjects (list1 list2 : list Subject) : bool :=
  if negb (length list1 =? length list2)%nat then false
  else
    let set1 := keySet list1 in
    let set2 := keySet list2 in
    if negb (size set1 =? size set2)%nat then false
    else forallb (fun key => bool_decide (key ∈ set2)) (elements set1).

Definition mergeSubjects (subjects x : list Subject) : list Subject :=
  let existingSubjects := keySet subjects in
  let finalSubjects := [] ++ subjects in
  foldl (fun finalSubjects subject =>
           if bool_decide (subjectKey subject ∈ existingSubjects)
           then finalSubjects
           else finalSubjects ++ [subject])
        finalSubjects x.

(** [append(s[:index], s[index+1:]...)] *)
Definition removeIndex (s : list Subject) (index : nat) : list Subject :=
  take index s ++ drop (S index) s.

(** ** Owner references *)

Definition sameOwner (v new : OwnerReference) : bool :=
  bool_decide (orAPIVersion v = orAPIVersion new)
  && bool_decide (orKind v = orKind new)
  && bool_decide (orName v = orName new).

Fixpoint hasOwnerRefernce (old : list OwnerReference) (new : OwnerReference) : bool :=
  match old with
  | [] => false
  | v :: rest => if sameOwner v new then true else hasOwnerRefernce rest new
  end.

Section OwnerRefs.
(** The receiver's [r.ownerRef]. *)
Variable ownerRef : OwnerReference.

Definition removeAndUpdate (slice : list OwnerReference) (s : nat)
  : list OwnerReference :=
  let ownerRef' := take s slice ++ drop (S s) slice in
  ownerRef' ++ [ownerRef].

(** The [for i, ref := range ownerRef] loop: [i] is the index of [refs]'s
    head in [all], the slice the function was called with. *)
Fixpoint updateOwnerRefs_loop (all : list OwnerReference) (i : nat)
         (refs : list OwnerReference) : list OwnerReference :=
  match refs with
  | [] => all
  | ref :: rest =>
      if negb (bool_decide (orAPIVersion ref = orAPIVersion ownerRef))
         || negb (bool_decide (orKind ref = orKind ownerRef))
         || negb (bool_decide (orName ref = orName ownerRef))
      then removeAndUpdate all i
      else updateOwnerRefs_loop all (S i) rest
  end.

Definition updateOwnerRefs (refs : list OwnerReference) : list OwnerReference :=
  if (length refs =? 0)%nat then [ownerRef]
  else updateOwnerRefs_loop refs 0 refs.
End OwnerRefs.

(** ** Pruning the cluster binding's subjects *)

(** The [nsMap] of [removeAndUpdateNSFromCI]: every listed namespace name,
    mapped to itself. *)
Definition buildNsMap (names : list string) : gmap string string :=
  foldl (fun nsMap name => <[name := name]> nsMap) ∅ names.

(** The loop [for i := 0; i <= len(rb.Subjects)-1; i++], from index [i] on;
    the result is the final [rb.Subjects] and the [update] flag. *)
Equations? pruneLoop (nsMap : gmap string string) (i : nat)
    (subjects : list Subject) (update : bool) : list Subject * bool
    by wf (length subjects - i) lt :=
  pruneLoop nsMap i subjects update with decide (i < length subjects) => {
    | right _ => (subjects, update)
    | left _ =>
        if negb (size nsMap =? length subjects)%nat then
          if negb (bool_decide (is_Some
                    (subjects !! i ≫= fun s => nsMap !! subjNamespace s)))
          then pruneLoop nsMap (S i) (removeIndex subjects i) true
          else pruneLoop nsMap (S i) subjects update
        else pruneLoop nsMap (S i) subjects update }.
Proof.
  all: unfold removeIndex; rewrite ?length_app, ?length_take, ?length_drop; lia.
Defined.

Definition pruneSubjects (nsMap : gmap string string) (subjects : list Subject)
  : list Subject * bool :=
  pruneLoop nsMap 0 subjects false.

(** ** Defaulting of the feature toggles *)

(** State of [setDefault]'s loop: the params rewritten so far and the
    function's four local variables. *)
Record setDefaultVars := mkVars {
  rbacParamFound : bool;
  legacyParamFound : bool;
  caBundleParamFound : bool;
  createRbacResourceValue : string }.

Definition malformed (value : string) : bool :=
  negb (bool_decide (value = "false")) && negb (bool_decide (value = "true")).

(** One iteration on [Params[i]]: the three [if v.Name == ...] blocks in
    turn; [v] is the copy the [range] clause made, [cur] the element as
    already rewritten by an earlier block. *)
Definition setDefault_step (vars : setDefaultVars) (v : Param)
  : setDefaultVars * Param :=
  let cur := v in
  let '(vars, cur) :=
    if bool_decide (paramName v = rbacParamName) then
      (mkVars true (legacyParamFound vars) (caBundleParamFound vars) (paramValue v),
       if malformed (paramValue v) then mkParam (paramName cur) "true" else cur)
    else (vars, cur) in
  let '(vars, cur) :=
    if bool_decide (paramName v = legacyPipelineRbacParamName) then
      (mkVars (rbacParamFound vars) true (caBundleParamFound vars)
              (createRbacResourceValue vars),
       if malformed (paramValue v) then mkParam (paramName cur) "true" else cur)
    else (vars, cur) in
  if bool_decide (paramName v = trustedCABundleParamName) then
    (mkVars (rbacParamFound vars) (legacyParamFound vars) true
            (createRbacResourceValue vars),
     if malformed (paramValue v) then mkParam (paramName cur) "true" else cur)
  else (vars, cur).

Fixpoint setDefault_loop (vars : setDefaultVars) (params : list Param)
  : setDefaultVars * list Param :=
  match params with
  | [] => (vars, [])
  | v :: rest =>
      let '(vars, v') := setDefault_step vars v in
      let '(vars, rest') := setDefault_loop vars rest in
      (vars, v' :: rest')
  end.

(** [setDefault], on [r.tektonConfig.Spec.Params]. *)
Definition setDefault (params : list Param) : list Param :=
  let '(vars, params) := setDefault_loop (mkVars false false false "") params in
  let params :=
    if negb (rbacParamFound vars)
    then params ++ [mkParam rbacParamName "true"] else params in
  let params :=
    if negb (legacyParamFound vars)
    then params ++ [mkParam legacyPipelineRbacParamName "true"] else params in
  if negb (caBundleParamFound vars) then
    let defaultVal :=
      if rbacParamFound vars
         && bool_decide (createRbacResourceValue vars = "false")
      then "false" else "true" in
    params ++ [mkParam trustedCABundleParamName defaultVal]
  else params.


(** * The cluster and the client *)

(** ** Kinds of objects *)

Inductive Kind :=
| KNamespace | KServiceAccount | KRole | KClusterRole | KRoleBinding
| KClusterRoleBinding | KConfigMap | KEvent | KInstallerSet
| KSecurityContextConstraints.

(** ** Errors

    [ErrNotFound] and [ErrAlreadyExists] are the API errors that
    [errors.IsNotFound] and [errors.IsAlreadyExists] recognise; [Errorf] is an
    error built by [fmt.Errorf], with the error it was built from, if any. *)
Inductive error :=
| ErrNotFound (kind : Kind) (name : string)
| ErrAlreadyExists (kind : Kind) (name : string)
| RECONCILE_AGAIN_ERR
| Errorf (message : string) (args : list string)
| ErrorfErr (message : string) (args : list string) (cause : error).

Definition IsNotFound (err : option error) : bool :=
  match err with Some (ErrNotFound _ _) => true | _ => false end.

Definition IsAlreadyExists (err : option error) : bool :=
  match err with Some (ErrAlreadyExists _ _) => true | _ => false end.

Definition isNil {A} (err : option A) : bool :=
  match err with None => true | Some _ => false end.

(** ** Objects *)

Record Namespace := mkNamespace {
  nsName : string;
  nsAnnotations : gmap string string;
  nsLabels : gmap string string;
  nsDeletionTimestamp : option string }.

Record ServiceAccount := mkServiceAccount {
  saName : string;
  saNamespace : string;
  saOwnerReferences : list OwnerReference }.

Record Role := mkRole {
  roleName : string;
  roleNamespace : string;
  roleOwnerReferences : list OwnerReference;
  roleRules : list PolicyRule }.

Record ClusterRole := mkClusterRole {
  crName : string;
  crOwnerReferences : list OwnerReference;
  crRules : list PolicyRule }.

Record RoleBinding := mkRoleBinding {
  rbName : string;
  rbNamespace : string;
  rbOwnerReferences : list OwnerReference;
  rbRoleRef : RoleRef;
  rbSubjects : list Subject }.

Record ClusterRoleBinding := mkClusterRoleBinding {
  crbName : string;
  crbOwnerReferences : list OwnerReference;
  crbRoleRef : RoleRef;
  crbSubjects : list Subject }.

Record ConfigMap := mkConfigMap {
  cmName : string;
  cmNamespace : string;
  cmLabels : gmap string string;
  cmAnnotations : gmap string string;
  cmOwnerReferences : list OwnerReference }.

Record Event := mkEvent {
  evGenerateName : string;
  evNamespace : string;
  evOwnerReferences : list OwnerReference;
  evReason : string;
  evType : string;
  evAction : string;
  evMessage : string;
  evReportingInstance : string }.

Record TektonInstallerSet := mkInstallerSet {
  isName : string;
  isUID : string;
  isReleaseVersion : string }.

(** The fields of the TektonConfig resource the reconciler reads: its
    identity, [Spec.Params], and [Spec.Platforms.OpenShift.SCC]. *)
Record TektonConfig := mkTektonConfig {
  tcName : string;
  tcUID : string;
  tcParams : list Param;
  sccDefault : string;
  sccMaxAllowed : string }.

(** The receiver [r *rbac], without its clients and informers, which are
    the cluster below. *)
Record rbac := mkRbac {
  ownerRef : OwnerReference;
  version : string;
  tektonConfig : TektonConfig }.

Record NamespaceServiceAccount := mkNamespaceServiceAccount {
  nsaServiceAccount : ServiceAccount;
  nsaNamespace : Namespace }.

Record NamespacesToReconcile := mkNamespacesToReconcile {
  RBACNamespaces : list Namespace;
  CANamespaces : list Namespace }.

(** ** The cluster

    The API server as an object store, one finite map per kind the reconciler
    touches, keyed by name or by namespace and name.  [sccs] holds the names
    of the SecurityContextConstraints, most restrictive first.  [calls]
    records every write the reconciler issues, oldest first. *)

Inductive Call :=
| CallCreate (kind : Kind) (namespace name : string)
| CallUpdate (kind : Kind) (namespace name : string)
| CallDelete (kind : Kind) (namespace name : string)
| CallPatch (kind : Kind) (namespace name : string).

#[global] Instance Kind_eq_dec : EqDecision Kind.
Proof. solve_decision. Defined.
#[global] Instance Call_eq_dec : EqDecision Call.
Proof. solve_decision. Defined.

Record Cluster := mkCluster {
  namespaces : gmap string Namespace;
  serviceAccounts : gmap (string * string) ServiceAccount;
  roles : gmap (string * string) Role;
  clusterRoles : gmap string ClusterRole;
  roleBindings : gmap (string * string) RoleBinding;
  clusterRoleBindings : gmap string ClusterRoleBinding;
  configMaps : gmap (string * string) ConfigMap;
  events : list Event;
  installerSets : gmap string TektonInstallerSet;
  sccs : list string;
  calls : list Call }.

Definition set_namespaces (f : gmap string Namespace → gmap string Namespace)
  (c : Cluster) : Cluster :=
  mkCluster (f (namespaces c)) (serviceAccounts c) (roles c) (clusterRoles c)
    (roleBindings c) (clusterRoleBindings c) (configMaps c) (events c)
    (installerSets c) (sccs c) (calls c).

Definition set_serviceAccounts
  (f : gmap (string * string) ServiceAccount → gmap (string * string) ServiceAccount)
  (c : Cluster) : Cluster :=
  mkCluster (namespaces c) (f (serviceAccounts c)) (roles c) (clusterRoles c)
    (roleBindings c) (clusterRoleBindings c) (configMaps c) (events c)
    (installerSets c) (sccs c) (calls c).

Definition set_roles (f : gmap (string * string) Role → gmap (string * string) Role)
  (c : Cluster) : Cluster :=
  mkCluster (namespaces c) (serviceAccounts c) (f (roles c)) (clusterRoles c)
    (roleBindings c) (clusterRoleBindings c) (configMaps c) (events c)
    (installerSets c) (sccs c) (calls c).

Definition set_clusterRoles (f : gmap string ClusterRole → gmap string ClusterRole)
  (c : Cluster) : Cluster :=
  mkCluster (namespaces c) (serviceAccounts c) (roles c) (f (clusterRoles c))
    (roleBindings c) (clusterRoleBindings c) (configMaps c) (events c)
    (installerSets c) (sccs c) (calls c).

Definition set_roleBindings
  (f : gmap (string * string) RoleBinding → gmap (string * string) RoleBinding)
  (c : Cluster) : Cluster :=
  mkCluster (namespaces c) (serviceAccounts c) (roles c) (clusterRoles c)
    (f (roleBindings c)) (clusterRoleBindings c) (configMaps c) (events c)
    (installerSets c) (sccs c) (calls c).

Definition set_clusterRoleBindings
  (f : gmap string ClusterRoleBinding → gmap string ClusterRoleBinding)
  (c : Cluster) : Cluster :=
  mkCluster (namespaces c) (serviceAccounts c) (roles c) (clusterRoles c)
    (roleBindings c) (f (clusterRoleBindings c)) (configMaps c) (events c)
    (installerSets c) (sccs c) (calls c).

Definition set_configMaps
  (f : gmap (string * string) ConfigMap → gmap (string * string) ConfigMap)
  (c : Cluster) : Cluster :=
  mkCluster (namespaces c) (serviceAccounts c) (roles c) (clusterRoles c)
    (roleBindings c) (clusterRoleBindings c) (f (configMaps c)) (events c)
    (installerSets c) (sccs c) (calls c).

Definition set_events (f : list Event → list Event) (c : Cluster) : Cluster :=
  mkCluster (namespaces c) (serviceAccounts c) (roles c) (clusterRoles c)
    (roleBindings c) (clusterRoleBindings c) (configMaps c) (f (events c))
    (installerSets c) (sccs c) (calls c).

Definition set_installerSets
  (f : gmap string TektonInstallerSet → gmap string TektonInstallerSet)
  (c : Cluster) : Cluster :=
  mkCluster (namespaces c) (serviceAccounts c) (roles c) (clusterRoles c)
    (roleBindings c) (clusterRoleBindings c) (configMaps c) (events c)
    (f (installerSets c)) (sccs c) (calls c).

Definition record (call : Call) (c : Cluster) : Cluster :=
  mkCluster (namespaces c) (serviceAccounts c) (roles c) (clusterRoles c)
    (roleBindings c) (clusterRoleBindings c) (configMaps c) (events c)
    (installerSets c) (sccs c) (calls c ++ [call]).

(** ** The reconciler's monad: state passing over the cluster *)

Definition M (A : Type) : Type := Cluster → A * Cluster.

Definition ret {A} (a : A) : M A := fun c => (a, c).

Definition bind {A B} (m : M A) (k : A → M B) : M B :=
  fun c => let '(a, c') := m c in k a c'.

Notation "'let*' x ':=' m 'in' k" := (bind m (fun x => k))
  (at level 10, x pattern, m at level 100, k at level 200, only parsing).

(** Go's [if err := f(); err != nil { return err }]. *)
Notation "'try' m 'in' k" :=
  (bind m (fun err => match err with Some e => ret (Some e) | None => k end))
  (at level 10, m at level 100, k at level 200, only parsing).

(** A Go result, a pointer to a [V] and an error; the pointer is [nil] when
    the call failed. *)
Definition Result (V : Type) : Type := (option V * option error)%type.

(** ** The typed clients

    Each client reads and writes one map of the cluster.  [Get] fails with a
    not-found error on a missing key, [Create] with an already-exists error on
    a present one, [Update] and [Delete] with a not-found error on a missing
    one; no other failure is modelled.  Writes are recorded in [calls],
    whether they succeed or not. *)
Section Client.
Context {K V : Type} `{Countable K}.
Variable kind : Kind.
Variable get : Cluster → gmap K V.
Variable set : (gmap K V → gmap K V) → Cluster → Cluster.
Variable key : V → K.
Variable namespaceOf : K → string.
Variable nameOf : K → string.
(** The object stored under a key, bearing the name and namespace of the
    key. *)
Variable named : K → V → V.

Definition clientGet (k : K) : M (Result V) := fun c =>
  match get c !! k with
  | Some v => ((Some (named k v), None), c)
  | None => ((None, Some (ErrNotFound kind (nameOf k))), c)
  end.

Definition clientCreate (v : V) : M (Result V) := fun c =>
  let k := key v in
  let c := record (CallCreate kind (namespaceOf k) (nameOf k)) c in
  match get c !! k with
  | Some _ => ((None, Some (ErrAlreadyExists kind (nameOf k))), c)
  | None => ((Some v, None), set (insert k v) c)
  end.

Definition clientUpdate (v : V) : M (Result V) := fun c =>
  let k := key v in
  let c := record (CallUpdate kind (namespaceOf k) (nameOf k)) c in
  match get c !! k with
  | Some _ => ((Some v, None), set (insert k v) c)
  | None => ((None, Some (ErrNotFound kind (nameOf k))), c)
  end.

Definition clientDelete (k : K) : M (option error) := fun c =>
  let c := record (CallDelete kind (namespaceOf k) (nameOf k)) c in
  match get c !! k with
  | Some _ => (None, set (delete k) c)
  | None => (Some (ErrNotFound kind (nameOf k)), c)
  end.
End Client.

Definition clusterScoped (name : string) : string := "".
Definition theName (name : string) : string := name.

Definition ServiceAccounts_Get (ns name : string) : M (Result ServiceAccount) :=
  clientGet KServiceAccount serviceAccounts snd
    (fun k sa => mkServiceAccount k.2 k.1 (saOwnerReferences sa)) (ns, name).
Definition ServiceAccounts_Create (sa : ServiceAccount) : M (Result ServiceAccount) :=
  clientCreate KServiceAccount serviceAccounts set_serviceAccounts
    (fun sa => (saNamespace sa, saName sa)) fst snd sa.
Definition ServiceAccounts_Update (sa : ServiceAccount) : M (Result ServiceAccount) :=
  clientUpdate KServiceAccount serviceAccounts set_serviceAccounts
    (fun sa => (saNamespace sa, saName sa)) fst snd sa.

Definition Roles_Get (ns name : string) : M (Result Role) :=
  clientGet KRole roles snd
    (fun k role => mkRole k.2 k.1 (roleOwnerReferences role) (roleRules role))
    (ns, name).
Definition Roles_Create (role : Role) : M (Result Role) :=
  clientCreate KRole roles set_roles
    (fun role => (roleNamespace role, roleName role)) fst snd role.
Definition Roles_Update (role : Role) : M (Result Role) :=
  clientUpdate KRole roles set_roles
    (fun role => (roleNamespace role, roleName role)) fst snd role.
Definition Roles_Delete (ns name : string) : M (option error) :=
  clientDelete KRole roles set_roles fst snd (ns, name).

Definition ClusterRoles_Get (name : string) : M (Result ClusterRole) :=
  clientGet KClusterRole clusterRoles theName
    (fun k cr => mkClusterRole k (crOwnerReferences cr) (crRules cr)) name.
Definition ClusterRoles_Create (cr : ClusterRole) : M (Result ClusterRole) :=
  clientCreate KClusterRole clusterRoles set_clusterRoles crName
    clusterScoped theName cr.
Definition ClusterRoles_Update (cr : ClusterRole) : M (Result ClusterRole) :=
  clientUpdate KClusterRole clusterRoles set_clusterRoles crName
    clusterScoped theName cr.

Definition RoleBindings_Get (ns name : string) : M (Result RoleBinding) :=
  clientGet KRoleBinding roleBindings snd
    (fun k rb => mkRoleBinding k.2 k.1 (rbOwnerReferences rb) (rbRoleRef rb)
                   (rbSubjects rb))
    (ns, name).
Definition RoleBindings_Create (rb : RoleBinding) : M (Result RoleBinding) :=
  clientCreate KRoleBinding roleBindings set_roleBindings
    (fun rb => (rbNamespace rb, rbName rb)) fst snd rb.
Definition RoleBindings_Update (rb : RoleBinding) : M (Result RoleBinding) :=
  clientUpdate KRoleBinding roleBindings set_roleBindings
    (fun rb => (rbNamespace rb, rbName rb)) fst snd rb.
Definition RoleBindings_Delete (ns name : string) : M (option error) :=
  clientDelete KRoleBinding roleBindings set_roleBindings fst snd (ns, name).

Definition ClusterRoleBindings_Get (name : string) : M (Result ClusterRoleBinding) :=
  clientGet KClusterRoleBinding clusterRoleBindings theName
    (fun k crb => mkClusterRoleBinding k (crbOwnerReferences crb) (crbRoleRef crb)
                    (crbSubjects crb))
    name.
Definition ClusterRoleBindings_Create (crb : ClusterRoleBinding)
  : M (Result ClusterRoleBinding) :=
  clientCreate KClusterRoleBinding clusterRoleBindings set_clusterRoleBindings
    crbName clusterScoped theName crb.
Definition ClusterRoleBindings_Update (crb : ClusterRoleBinding)
  : M (Result ClusterRoleBinding) :=
  clientUpdate KClusterRoleBinding clusterRoleBindings set_clusterRoleBindings
    crbName clusterScoped theName crb.

Definition ConfigMaps_Get (ns name : string) : M (Result ConfigMap) :=
  clientGet KConfigMap configMaps snd
    (fun k cm => mkConfigMap k.2 k.1 (cmLabels cm) (cmAnnotations cm)
                   (cmOwnerReferences cm))
    (ns, name).
Definition ConfigMaps_Create (cm : ConfigMap) : M (Result ConfigMap) :=
  clientCreate KConfigMap configMaps set_configMaps
    (fun cm => (cmNamespace cm, cmName cm)) fst snd cm.
Definition ConfigMaps_Update (cm : ConfigMap) : M (Result ConfigMap) :=
  clientUpdate KConfigMap configMaps set_configMaps
    (fun cm => (cmNamespace cm, cmName cm)) fst snd cm.

Definition TektonInstallerSets_Delete (name : string) : M (option error) :=
  clientDelete KInstallerSet installerSets set_installerSets
    clusterScoped theName name.

(** [Events(namespace).Create]: the server appends the event, whose name it
    generates. *)
Definition Events_Create (ev : Event) : M (Result Event) := fun c =>
  let c := record (CallCreate KEvent (evNamespace ev) (evGenerateName ev)) c in
  ((Some ev, None), set_events (fun evs => evs ++ [ev]) c).

(** [Namespaces().List]: every namespace, under the name it is stored by, or
    those whose labels satisfy the selector [key = value]. *)
Definition listed (c : Cluster) : list Namespace :=
  (fun '(name, ns) =>
     mkNamespace name (nsAnnotations ns) (nsLabels ns) (nsDeletionTimestamp ns))
  <$> map_to_list (namespaces c).

Definition Namespaces_List : M (list Namespace * option error) := fun c =>
  ((listed c, None), c).

Definition Namespaces_ListSelector (key value : string)
  : M (list Namespace * option error) := fun c =>
  ((filter (fun ns => nsLabels ns !! key = Some value) (listed c), None), c).

Definition Namespaces_Update (ns : Namespace) : M (Result Namespace) :=
  clientUpdate KNamespace namespaces set_namespaces nsName clusterScoped theName ns.

(** [Namespaces().Patch] with the strategic merge patch
    [{"metadata": {"labels": {key: value}}}]. *)
Definition Namespaces_PatchLabel (name key value : string) : M (Result Namespace) :=
  fun c =>
  let c := record (CallPatch KNamespace "" name) c in
  match namespaces c !! name with
  | Some ns =>
      let ns' := mkNamespace (nsName ns) (nsAnnotations ns)
                   (<[key := value]> (nsLabels ns)) (nsDeletionTimestamp ns) in
      ((Some ns', None), set_namespaces (insert name ns') c)
  | None => ((None, Some (ErrNotFound KNamespace name)), c)
  end.

(** * Collaborators outside the reconciler's file *)

(** Go's index expression on a [map[string]string]: the empty string for a
    missing key. *)
Definition mapIndex (m : gmap string string) (key : string) : string :=
  default "" (m !! key).

(** Modelled from the spec: the constant [openshift.NamespaceSCCAnnotation]
    is not among the sources; it is the key of the namespace annotation that
    requests a security policy. *)
Definition NamespaceSCCAnnotation : string := "operator.tekton.dev/scc".

(** Modelled from the spec: [reconcilerCommon.NamespaceIgnorePattern] is not
    among the sources; the names it matches are those with a
    platform-reserved prefix, which a comment of the source gives as the
    pattern ^(openshift|kube)-. *)
Definition nsRegex_MatchString (name : string) : bool :=
  String.prefix "openshift-" name || String.prefix "kube-" name.

(** Modelled from the spec: [common.VerifySCCExists] is not among the sources;
    it verifies that the name is that of a security policy on the cluster and
    fails with a not-found error otherwise. *)
Definition VerifySCCExists (scc : string) : M (option error) := fun c =>
  (if bool_decide (scc ∈ sccs c) then None
   else Some (ErrorfErr "scc not found" [scc] (ErrNotFound KSecurityContextConstraints scc)), c).

(** Modelled from the spec: [common.GetSCCRestrictiveList] is not among the
    sources; it supplies the policy priority list, the cluster's security
    policies in order of restrictiveness, most restrictive first. *)
Definition GetSCCRestrictiveList : M (list string * option error) := fun c =>
  ((sccs c, None), c).

(** The position of a policy in the priority list. *)
Fixpoint sccIndex (prioritizedSCCList : list string) (scc : string) : option nat :=
  match prioritizedSCCList with
  | [] => None
  | name :: rest =>
      if bool_decide (name = scc) then Some 0 else S <$> sccIndex rest scc
  end.

(** Modelled from the spec: [common.SCCAMoreRestrictiveThanB] is not among
    the sources; it answers whether policy A is at least as restrictive as
    policy B by comparing their positions in the priority list, and fails
    when either is not in the list. *)
Definition SCCAMoreRestrictiveThanB (prioritizedSCCList : list string)
  (sccA sccB : string) : bool * option error :=
  match sccIndex prioritizedSCCList sccA, sccIndex prioritizedSCCList sccB with
  | Some sccAIndex, Some sccBIndex => ((sccAIndex <=? sccBIndex)%nat, None)
  | _, _ => (false, Some (Errorf "SCC not found in the priority list" [sccA; sccB]))
  end.

(** Modelled from the spec: [configOwnerRef] is not among the sources; it is
    the owner reference to a bookkeeping object. *)
Definition configOwnerRef (iset : TektonInstallerSet) : OwnerReference :=
  mkOwnerReference "operator.tekton.dev/v1alpha1" "TektonInstallerSet"
    (isName iset) (isUID iset).

(** Modelled from the spec: [tektonConfigOwnerRef] is not among the sources;
    by its name and the comment at its call site it is the owner reference to
    the TektonConfig resource, the parent configuration resource. *)
Definition tektonConfigOwnerRef (tc : TektonConfig) : OwnerReference :=
  mkOwnerReference "operator.tekton.dev/v1alpha1" "TektonConfig"
    (tcName tc) (tcUID tc).

(** The name under which the bookkeeping object of a release is stored. *)
Definition rbacInstallerSetName (relVersion : string) : string :=
  rbacInstallerSetNamePrefix +:+ relVersion.

(** Modelled from the spec: [checkIfInstallerSetExist] is not among the
    sources; it looks up the bookkeeping object of the given release. *)
Definition checkIfInstallerSetExist (relVersion : string) (tc : TektonConfig)
  : M (Result TektonInstallerSet) := fun c =>
  match installerSets c !! rbacInstallerSetName relVersion with
  | Some iset =>
      if bool_decide (isReleaseVersion iset = relVersion)
      then ((Some iset, None), c) else ((None, None), c)
  | None => ((None, None), c)
  end.

(** Modelled from the spec: [createInstallerSet] is not among the sources; it
    creates the bookkeeping object of the given release. *)
Definition createInstallerSet (tc : TektonConfig) (relVersion : string)
  : M (option error) := fun c =>
  let name := rbacInstallerSetName relVersion in
  let iset := mkInstallerSet name ("uid-" +:+ name) relVersion in
  let c := record (CallCreate KInstallerSet "" name) c in
  (None, set_installerSets (insert name iset) c).

(** [validation.IsValidLabelValue] of k8s.io/apimachinery, which is not among
    the sources: a label value has at most 63 bytes and is empty or made of
    letters, digits, '-', '_' and '.', the first and the last being a letter
    or a digit. *)
Definition qnameChar (a : ascii) : bool :=
  let n := nat_of_ascii a in
  ((65 <=? n) && (n <=? 90) || (97 <=? n) && (n <=? 122)
   || (48 <=? n) && (n <=? 57))%nat.

Definition qnameExtChar (a : ascii) : bool :=
  qnameChar a || (a =? "-")%char || (a =? "_")%char || (a =? ".")%char.

(** The rest of a label value after the character [prev]: characters of the
    value, the last character being a letter or a digit. *)
Fixpoint qnameRest (rest : string) (prev : ascii) : bool :=
  match rest with
  | EmptyString => qnameChar prev
  | String a rest => qnameExtChar a && qnameRest rest a
  end.

Definition IsValidLabelValue (value : string) : bool :=
  (String.length value <=? 63)%nat
  && match value with
     | EmptyString => true
     | String first rest => qnameChar first && qnameRest rest first
     end.

(** [labels.NewRequirement(key, selection.Equals, []string{value})] of
    k8s.io/apimachinery, which is not among the sources: the requirement is
    refused when the value is not a valid label value.  The one key the
    reconciler passes, [namespaceVersionLabel], is a valid label key. *)
Definition labels_NewRequirement (key value : string) : option error :=
  if IsValidLabelValue value then None
  else Some (Errorf "values[0][%s]: Invalid value: %q" [key; value]).

(** * The reconciler *)

Fixpoint cleanUp_loop (items : list Namespace) : M (option error) :=
  match items with
  | [] => ret None
  | n :: rest =>
      let labels := nsLabels n in
      let labels := delete namespaceVersionLabel labels in
      let n := mkNamespace (nsName n) (nsAnnotations n) labels
                 (nsDeletionTimestamp n) in
      let* (_, err) := Namespaces_Update n in
      match err with
      | Some e =>
          ret (Some (ErrorfErr "failed to update namespace %s: %v" [nsName n] e))
      | None => cleanUp_loop rest
      end
  end.

Definition cleanUp (r : rbac) : M (option error) :=
  let labelSelector := namespaceVersionLabel +:+ " = " +:+ version r in
  let* (namespaces, err) :=
    Namespaces_ListSelector namespaceVersionLabel (version r) in
  match err with
  | Some e =>
      ret (Some (ErrorfErr
                   "failed to retreive namespaces with labelSeleclector %s: %v"
                   [labelSelector] e))
  | None => cleanUp_loop namespaces
  end.

Definition removeObsoleteRBACInstallerSet : M (option error) :=
  let* err := TektonInstallerSets_Delete rbacInstallerSetNameOld in
  if negb (isNil err) && negb (IsNotFound err) then ret err else ret None.

Definition EnsureRBACInstallerSet (r : rbac) : M (Result TektonInstallerSet) :=
  let* err := removeObsoleteRBACInstallerSet in
  match err with
  | Some e => ret (None, Some e)
  | None =>
  let* (rbacISet, err) := checkIfInstallerSetExist (version r) (tektonConfig r) in
  match err with
  | Some e => ret (None, Some e)
  | None =>
  match rbacISet with
  | Some iset => ret (Some iset, None)
  | None =>
  let* err := cleanUp r in
  match err with
  | Some e => ret (None, Some e)
  | None =>
  let* err := createInstallerSet (tektonConfig r) (version r) in
  match err with
  | Some e => ret (None, Some e)
  | None => ret (None, Some RECONCILE_AGAIN_ERR)
  end end end end end.

Definition sccPolicyRule (scc : string) : PolicyRule :=
  mkPolicyRule ["security.openshift.io"] [scc] ["securitycontextconstraints"]
    ["use"].

Definition ensurePipelinesSCClusterRole (r : rbac) : M (option error) :=
  let clusterRole :=
    mkClusterRole pipelinesSCCClusterRole [ownerRef r]
      [sccPolicyRule (sccDefault (tektonConfig r))] in
  let* (_, err) := ClusterRoles_Get pipelinesSCCClusterRole in
  if negb (isNil err) then
    if IsNotFound err then
      let* (_, err) := ClusterRoles_Create clusterRole in ret err
    else ret err
  else
    let* (_, err) := ClusterRoles_Update clusterRole in ret err.

(** [ensurePreRequisites] assigns [r.ownerRef]; the receiver is returned
    along with the error.  [EnsureRBACInstallerSet] returns no error only
    with an installer set, so the third case, Go's nil dereference, is never
    reached. *)
Definition ensurePreRequisites (r : rbac) : M (rbac * option error) :=
  let* (rbacISet, err) := EnsureRBACInstallerSet r in
  match err, rbacISet with
  | Some e, _ => ret (r, Some e)
  | None, None => ret (r, Some (Errorf "nil pointer dereference" []))
  | None, Some rbacISet =>
  let r := mkRbac (configOwnerRef rbacISet) (version r) (tektonConfig r) in
  let defaultSCC := sccDefault (tektonConfig r) in
  if bool_decide (defaultSCC = "") then
    ret (r, Some (Errorf
      "tektonConfig.Spec.Platforms.OpenShift.SCC.Default cannot be empty" []))
  else
  let* err := VerifySCCExists defaultSCC in
  match err with
  | Some e =>
      ret (r, Some (ErrorfErr "failed to verify scc %s exists, %w" [defaultSCC] e))
  | None =>
  let* (prioritizedSCCList, err) := GetSCCRestrictiveList in
  match err with
  | Some e => ret (r, Some e)
  | None =>
  let maxAllowedSCC := sccMaxAllowed (tektonConfig r) in
  let* err :=
    (if negb (bool_decide (maxAllowedSCC = "")) then
       let* err := VerifySCCExists maxAllowedSCC in
       match err with
       | Some e =>
           ret (Some (ErrorfErr "failed to verify scc %s exists, %w"
                        [maxAllowedSCC] e))
       | None =>
       let '(isPriority, err) :=
         SCCAMoreRestrictiveThanB prioritizedSCCList defaultSCC maxAllowedSCC in
       match err with
       | Some e => ret (Some e)
       | None =>
       if negb isPriority then
         ret (Some (Errorf
           "maxAllowed SCC: %s must be less restrictive than the default SCC: %s"
           [maxAllowedSCC; defaultSCC]))
       else ret None
       end end
     else ret None) in
  match err with
  | Some e => ret (r, Some e)
  | None =>
  let* err := ensurePipelinesSCClusterRole r in
  match err with
  | Some e => ret (r, Some e)
  | None => ret (r, None)
  end end end end
  end.

Definition appendRBAC (result : NamespacesToReconcile) (ns : Namespace)
  : NamespacesToReconcile :=
  mkNamespacesToReconcile (RBACNamespaces result ++ [ns]) (CANamespaces result).

Definition appendCA (result : NamespacesToReconcile) (ns : Namespace)
  : NamespacesToReconcile :=
  mkNamespacesToReconcile (RBACNamespaces result) (CANamespaces result ++ [ns]).

(** The loop of [getNamespacesToBeReconciled] over [allNamespaces.Items]. *)
Fixpoint getNamespacesToBeReconciled_loop (r : rbac) (items : list Namespace)
  (result : NamespacesToReconcile) : M (Result NamespacesToReconcile) :=
  match items with
  | [] => ret (Some result, None)
  | ns :: rest =>
      if nsRegex_MatchString (nsName ns) then
        getNamespacesToBeReconciled_loop r rest result
      else if negb (isNil (nsDeletionTimestamp ns)) then
        getNamespacesToBeReconciled_loop r rest result
      else
        let needsRBAC := false in
        let needsRBAC :=
          if negb (bool_decide (mapIndex (nsAnnotations ns) NamespaceSCCAnnotation = ""))
          then true else needsRBAC in
        let* (needsRBAC, err) :=
          (if negb (bool_decide (mapIndex (nsLabels ns) namespaceVersionLabel
                                 = version r))
           then ret (true, None)
           else
             let* (sccRoleBinding, err) :=
               RoleBindings_Get (nsName ns) pipelinesSCCRoleBinding in
             match err, sccRoleBinding with
             | Some e, _ =>
                 if IsNotFound err then ret (true, None)
                 else ret (needsRBAC,
                           Some (ErrorfErr
                             "error fetching rolebinding %s from namespace %s: %w"
                             [pipelinesSCCRoleBinding; nsName ns] e))
             | None, Some sccRoleBinding =>
                 if negb (bool_decide (rrKind (rbRoleRef sccRoleBinding) = "ClusterRole"))
                 then ret (true, None)
                 else ret (needsRBAC, None)
             | None, None => ret (needsRBAC, None)
             end) in
        match err with
        | Some e => ret (None, Some e)
        | None =>
            let result := if needsRBAC then appendRBAC result ns else result in
            let result :=
              if negb (bool_decide (mapIndex (nsLabels ns) namespaceTrustedConfigLabel
                                    = version r))
              then appendCA result ns else result in
            getNamespacesToBeReconciled_loop r rest result
        end
  end.

Definition getNamespacesToBeReconciled (r : rbac) : M (Result NamespacesToReconcile) :=
  let* (allNamespaces, err) := Namespaces_List in
  match err with
  | Some e => ret (None, Some e)
  | None =>
      getNamespacesToBeReconciled_loop r allNamespaces
        (mkNamespacesToReconcile [] [])
  end.

Definition getSCCRoleInNamespace (ns : Namespace) : RoleRef :=
  let nsAnnotations := nsAnnotations ns in
  let nsSCC := mapIndex nsAnnotations NamespaceSCCAnnotation in
  if negb (bool_decide (nsSCC = "")) then mkRoleRef GroupName "Role" pipelinesSCCRole
  else mkRoleRef GroupName "ClusterRole" pipelinesSCCClusterRole.

Definition createSCCFailureEventInNamespace (r : rbac) (namespace scc : string)
  : M (option error) :=
  let failureEvent :=
    mkEvent "pipelines-scc-failure-" namespace [ownerRef r] "RequestedSCCNotFound"
      "Warning" "SCCNotUpdated"
      ("SCC '" +:+ scc +:+ "' requested in annotation '" +:+ NamespaceSCCAnnotation
       +:+ "' not found, SCC not updated in the namespace")
      (orName (ownerRef r)) in
  let* (_, err) := Events_Create failureEvent in
  match err with
  | Some e =>
      ret (Some (ErrorfErr "failed to create failure event in namespace %s, %w"
                   [namespace] e))
  | None => ret None
  end.

Definition ensureSCCRoleInNamespace (r : rbac) (namespace scc : string)
  : M (option error) :=
  let sccRole :=
    mkRole pipelinesSCCRole namespace [ownerRef r] [sccPolicyRule scc] in
  let* (_, err) := Roles_Get namespace pipelinesSCCRole in
  if negb (isNil err) then
    if IsNotFound err then
      let* (_, err) := Roles_Create sccRole in ret err
    else ret err
  else
    let* (_, err) := Roles_Update sccRole in ret err.

Definition handleSCCInNamespace (r : rbac) (ns : Namespace) : M (option error) :=
  let nsName := nsName ns in
  let nsAnnotations := nsAnnotations ns in
  let nsSCC := mapIndex nsAnnotations NamespaceSCCAnnotation in
  if bool_decide (nsSCC = "") then
    let* (_, err) := Roles_Get nsName pipelinesSCCRole in
    if negb (isNil err) && negb (IsNotFound err) then ret err
    else if negb (IsNotFound err) then
      let* err := Roles_Delete nsName pipelinesSCCRole in
      if negb (isNil err) && negb (IsNotFound err) then ret err
      else ret None
    else ret None
  else
  let* err := VerifySCCExists nsSCC in
  match err with
  | Some e =>
      let* eventErr := createSCCFailureEventInNamespace r nsName nsSCC in
      match eventErr with
      | Some ee => ret (Some ee)
      | None => ret (Some e)
      end
  | None =>
  let maxAllowedSCC := sccMaxAllowed (tektonConfig r) in
  let* err :=
    (if negb (bool_decide (maxAllowedSCC = "")) then
       let* (prioritizedSCCList, err) := GetSCCRestrictiveList in
       match err with
       | Some e => ret (Some e)
       | None =>
       let '(isPriority, err) :=
         SCCAMoreRestrictiveThanB prioritizedSCCList nsSCC maxAllowedSCC in
       match err with
       | Some e => ret (Some e)
       | None =>
       if negb isPriority then
         ret (Some (Errorf
           "namespace: %s has requested SCC: %s, but it is less restrictive than the 'maxAllowed' SCC: %s"
           [nsName; nsSCC; maxAllowedSCC]))
       else ret None
       end end
     else ret None) in
  match err with
  | Some e => ret (Some e)
  | None => ensureSCCRoleInNamespace r nsName nsSCC
  end
  end.

(** [createSA]; the label the source then sets on its copy of the
    TektonConfig is read nowhere in the reconciler and is left out. *)
Definition createSA (ns : string) (tc : TektonConfig) : M (Result ServiceAccount) :=
  let tcOwnerRef := tektonConfigOwnerRef tc in
  let sa := mkServiceAccount pipelineSA ns [tcOwnerRef] in
  let* (sa, err) := ServiceAccounts_Create sa in
  if negb (isNil err) && negb (IsAlreadyExists err) then ret (None, err)
  else ret (sa, None).

Definition ensureSA (r : rbac) (ns : Namespace) : M (Result ServiceAccount) :=
  let* (sa, err) := ServiceAccounts_Get (nsName ns) pipelineSA in
  if negb (isNil err) && negb (IsNotFound err) then ret (None, err)
  else if negb (isNil err) && IsNotFound err then
    createSA (nsName ns) (tektonConfig r)
  else
    match sa with
    | None => ret (None, Some (Errorf "nil pointer dereference" []))
    | Some sa =>
        let tcOwnerRef := tektonConfigOwnerRef (tektonConfig r) in
        let sa := mkServiceAccount (saName sa) (saNamespace sa) [tcOwnerRef] in
        ServiceAccounts_Update sa
    end.

Definition saSubject (sa : ServiceAccount) : Subject :=
  mkSubject ServiceAccountKind "" (saName sa) (saNamespace sa).

Definition createSCCRoleBinding (r : rbac) (sa : ServiceAccount) (roleRef : RoleRef)
  : M (option error) :=
  let rb := mkRoleBinding pipelinesSCCRoleBinding (saNamespace sa) [ownerRef r]
              roleRef [saSubject sa] in
  let* (_, err) := RoleBindings_Create rb in
  ret err.

Definition updateRoleBinding (r : rbac) (rb : RoleBinding) (sa : ServiceAccount)
  (roleRef : RoleRef) : M (option error) :=
  let subject := saSubject sa in
  let hasSubject := hasSubject (rbSubjects rb) subject in
  let rb :=
    if negb hasSubject
    then mkRoleBinding (rbName rb) (rbNamespace rb) (rbOwnerReferences rb)
           (rbRoleRef rb) (rbSubjects rb ++ [subject])
    else rb in
  let rb := mkRoleBinding (rbName rb) (rbNamespace rb) (rbOwnerReferences rb)
              roleRef (rbSubjects rb) in
  let hasOwnerRef := hasOwnerRefernce (rbOwnerReferences rb) (ownerRef r) in
  let ownerRef := updateOwnerRefs (ownerRef r) (rbOwnerReferences rb) in
  let rb := mkRoleBinding (rbName rb) (rbNamespace rb) ownerRef (rbRoleRef rb)
              (rbSubjects rb) in
  let* err :=
    (if negb hasOwnerRef then
       let* (_, err) := RoleBindings_Update rb in ret err
     else ret None) in
  match err with
  | Some e => ret (Some e)
  | None =>
      if hasSubject && negb (length ownerRef =? 0)%nat then ret None
      else
        let* (_, err) := RoleBindings_Update rb in
        ret err
  end.

Definition ensurePipelinesSCCRoleBinding (r : rbac) (sa : ServiceAccount)
  (roleRef : RoleRef) : M (option error) :=
  let roleKind := rrKind roleRef in
  let roleName := rrName roleRef in
  let* err :=
    (if bool_decide (rrKind roleRef = "Role") then
       let* (_, err) := Roles_Get (saNamespace sa) roleName in ret err
     else if bool_decide (roleKind = "ClusterRole") then
       let* (_, err) := ClusterRoles_Get roleName in ret err
     else
       ret (Some (Errorf
         "incorrect value set for roleKind - %s, needs to be Role or ClusterRole"
         [roleKind]))) in
  match err with
  | Some e => ret (Some e)
  | None =>
  let* (pipelineRB, rbErr) :=
    RoleBindings_Get (saNamespace sa) pipelinesSCCRoleBinding in
  if negb (isNil rbErr) && negb (IsNotFound rbErr) then ret rbErr
  else if negb (isNil rbErr) && IsNotFound rbErr then
    createSCCRoleBinding r sa roleRef
  else
    match pipelineRB with
    | None => ret (Some (Errorf "nil pointer dereference" []))
    | Some pipelineRB =>
        if negb (bool_decide (rrKind (rbRoleRef pipelineRB) = roleKind))
           || negb (bool_decide (rrName (rbRoleRef pipelineRB) = roleName))
        then
          let* err := RoleBindings_Delete (saNamespace sa) pipelinesSCCRoleBinding in
          match err with
          | Some e => ret (Some e)
          | None => createSCCRoleBinding r sa roleRef
          end
        else updateRoleBinding r pipelineRB sa roleRef
    end
  end.

Fixpoint isLegacyRBACEnabled_loop (params : list Param) : bool :=
  match params with
  | [] => true
  | v :: rest =>
      if bool_decide (paramName v = legacyPipelineRbacParamName)
      then negb (bool_decide (paramValue v = "false"))
      else isLegacyRBACEnabled_loop rest
  end.

Definition isLegacyRBACEnabled (r : rbac) : bool :=
  isLegacyRBACEnabled_loop (tcParams (tektonConfig r)).

Definition createRoleBinding (r : rbac) (sa : ServiceAccount) : M (option error) :=
  let* (_, err) := ClusterRoles_Get "edit" in
  match err with
  | Some e => ret (Some e)
  | None =>
      let rb := mkRoleBinding PipelineRoleBinding (saNamespace sa) [ownerRef r]
                  (mkRoleRef GroupName "ClusterRole" "edit") [saSubject sa] in
      let* (_, err) := RoleBindings_Create rb in
      match err with
      | Some e => ret (Some e)
      | None => ret None
      end
  end.

Definition ensureRoleBindings (r : rbac) (sa : ServiceAccount) : M (option error) :=
  let legacyEnabled := isLegacyRBACEnabled r in
  let* (editRB, err) := RoleBindings_Get (saNamespace sa) PipelineRoleBinding in
  if negb legacyEnabled && isNil err then
    RoleBindings_Delete (saNamespace sa) PipelineRoleBinding
  else if negb legacyEnabled then ret None
  else
    match err, editRB with
    | None, Some editRB =>
        updateRoleBinding r editRB sa (mkRoleRef GroupName "ClusterRole" "edit")
    | None, None => ret (Some (Errorf "nil pointer dereference" []))
    | Some e, _ =>
        if IsNotFound err then createRoleBinding r sa
        else ret err
    end.

(** [processRBAC]; [getSCCRoleInNamespace] never returns nil, so the test
    [roleRef != nil] always holds. *)
Definition processRBAC (r : rbac) (ns : Namespace) : M (Result NamespaceServiceAccount) :=
  let* (sa, err) := ensureSA r ns in
  match err with
  | Some e =>
      ret (None, Some (ErrorfErr
             "failed to ensure ServiceAccount in namespace %s: %v" [nsName ns] e))
  | None =>
  match sa with
  | None =>
      ret (None, Some (Errorf "ServiceAccount is nil for namespace %s" [nsName ns]))
  | Some sa =>
  let* err := handleSCCInNamespace r ns in
  match err with
  | Some e =>
      ret (None, Some (ErrorfErr "failed to handle SCC in namespace %s: %v"
                         [nsName ns] e))
  | None =>
  let roleRef := getSCCRoleInNamespace ns in
  let* err := ensurePipelinesSCCRoleBinding r sa roleRef in
  match err with
  | Some e =>
      ret (None, Some (ErrorfErr
             "failed to ensure pipelines SCC role binding in namespace %s: %v"
             [nsName ns] e))
  | None =>
  let* err := ensureRoleBindings r sa in
  match err with
  | Some e =>
      ret (None, Some (ErrorfErr
             "failed to ensure role bindings in namespace %s: %v" [nsName ns] e))
  | None => ret (Some (mkNamespaceServiceAccount sa ns), None)
  end end end end end.

Definition patchNamespaceLabel (r : rbac) (ns : Namespace) : M (option error) :=
  let* (_, err) :=
    Namespaces_PatchLabel (nsName ns) namespaceVersionLabel (version r) in
  match err with
  | Some e => ret (Some (ErrorfErr "failed to patch namespace %s: %w" [nsName ns] e))
  | None => ret None
  end.

Definition patchNamespaceTrustedConfigLabel (r : rbac) (ns : Namespace)
  : M (option error) :=
  let* (_, err) :=
    Namespaces_PatchLabel (nsName ns) namespaceTrustedConfigLabel (version r) in
  match err with
  | Some e => ret (Some (ErrorfErr "failed to patch namespace %s: %w" [nsName ns] e))
  | None => ret None
  end.

(** The informers' listers.  The caches they read are taken to be in sync
    with the cluster: a lister returns what the corresponding [Get] or [List]
    of the client would. *)
Definition rbacInformer_Lister_Get (name : string) : M (Result ClusterRoleBinding) :=
  ClusterRoleBindings_Get name.

Definition nsInformer_Lister_List (key value : string)
  : M (list Namespace * option error) :=
  Namespaces_ListSelector key value.

Definition removeAndUpdateNSFromCI (r : rbac) : M (option error) :=
  let* (rb, err) := rbacInformer_Lister_Get clusterInterceptors in
  if negb (isNil err) && negb (IsNotFound err) then ret err
  else
  match rb with
  | None => ret None
  | Some rb =>
  match labels_NewRequirement namespaceVersionLabel (version r) with
  | Some e => ret (Some e)
  | None =>
  let* (namespaces, err) :=
    nsInformer_Lister_List namespaceVersionLabel (version r) in
  if negb (isNil err) && negb (IsNotFound err) then ret err
  else
  let nsMap := buildNsMap (nsName <$> namespaces) in
  let '(subjects, update) := pruneSubjects nsMap (crbSubjects rb) in
  let rb := mkClusterRoleBinding (crbName rb) (crbOwnerReferences rb)
              (crbRoleRef rb) subjects in
  if update then
    let* (_, err) := ClusterRoleBindings_Update rb in
    match err with
    | Some e => ret (Some e)
    | None => ret None
    end
  else ret None
  end
  end.

Definition createClusterRole (r : rbac) : M (option error) :=
  let cr := mkClusterRole clusterInterceptors [ownerRef r]
              [mkPolicyRule ["triggers.tekton.dev"] [] ["clusterinterceptors"]
                 ["get"; "list"; "watch"]] in
  let* (_, err) := ClusterRoles_Create cr in
  match err with
  | Some e => ret (Some e)
  | None => ret None
  end.

Definition bulkUpdateClusterRoleBinding (r : rbac) (rb : ClusterRoleBinding)
  (subjectlist : list Subject) : M (option error) :=
  let hasSubject := CompareSubjects (crbSubjects rb) subjectlist in
  let rb :=
    if negb hasSubject
    then mkClusterRoleBinding (crbName rb) (crbOwnerReferences rb) (crbRoleRef rb)
           (mergeSubjects (crbSubjects rb) subjectlist)
    else rb in
  let hasOwnerRef := hasOwnerRefernce (crbOwnerReferences rb) (ownerRef r) in
  let ownerRef := updateOwnerRefs (ownerRef r) (crbOwnerReferences rb) in
  let rb := mkClusterRoleBinding (crbName rb) ownerRef (crbRoleRef rb)
              (crbSubjects rb) in
  let* err :=
    (if negb hasOwnerRef then
       let* (_, err) := ClusterRoleBindings_Update rb in ret err
     else ret None) in
  match err with
  | Some e => ret (Some e)
  | None =>
      if hasSubject && negb (length ownerRef =? 0)%nat then ret None
      else
        let* (_, err) := ClusterRoleBindings_Update rb in
        match err with
        | Some e => ret (Some e)
        | None => ret None
        end
  end.

Definition bulkCreateClusterRoleBinding (r : rbac) (subjectlist : list Subject)
  : M (option error) :=
  let* (_, err) := ClusterRoles_Get clusterInterceptors in
  match err with
  | Some e => ret (Some e)
  | None =>
      let crb := mkClusterRoleBinding clusterInterceptors [ownerRef r]
                   (mkRoleRef GroupName "ClusterRole" clusterInterceptors)
                   subjectlist in
      let* (_, err) := ClusterRoleBindings_Create crb in
      match err with
      | Some e => ret (Some e)
      | None => ret None
      end
  end.

Definition handleClusterRoleBinding (r : rbac)
  (namespacesToUpdate : list NamespaceServiceAccount) : M (option error) :=
  let* (_, err) := ClusterRoles_Get clusterInterceptors in
  let* e :=
    (if IsNotFound err then createClusterRole r else ret None) in
  match e with
  | Some e => ret (Some e)
  | None =>
  let subjects :=
    foldl (fun subjects nsSA => subjects ++ [saSubject (nsaServiceAccount nsSA)])
          [] namespacesToUpdate in
  let* (viewCRB, err) := ClusterRoleBindings_Get clusterInterceptors in
  match err, viewCRB with
  | None, Some viewCRB => bulkUpdateClusterRoleBinding r viewCRB subjects
  | None, None => ret (Some (Errorf "nil pointer dereference" []))
  | Some e, _ =>
      if IsNotFound err then bulkCreateClusterRoleBinding r subjects
      else ret err
  end
  end.

Definition createCABundleConfigMaps (name ns : string) : M (Result ConfigMap) :=
  let c := mkConfigMap name ns
             (<["app.kubernetes.io/part-of" := "tekton-pipelines"]>
                (<["config.openshift.io/inject-trusted-cabundle" := "true"]> ∅))
             ∅ [] in
  let* (cm, err) := ConfigMaps_Create c in
  if negb (isNil err) && negb (IsAlreadyExists err) then ret (None, err)
  else ret (cm, None).

Definition createServiceCABundleConfigMap (name ns : string) : M (Result ConfigMap) :=
  let c := mkConfigMap name ns
             (<["app.kubernetes.io/part-of" := "tekton-pipelines"]> ∅)
             (<["service.beta.openshift.io/inject-cabundle" := "true"]> ∅) [] in
  let* (cm, err) := ConfigMaps_Create c in
  if negb (isNil err) && negb (IsAlreadyExists err) then ret (None, err)
  else ret (cm, None).

(** One half of [ensureCABundles]: the config map [name], created by
    [create] when it is missing, stripped of its owner references when it is
    there. *)
Definition ensureCABundle (ns : Namespace) (name : string)
  (create : string → string → M (Result ConfigMap)) : M (option error) :=
  let* (caBundleCM, getErr) := ConfigMaps_Get (nsName ns) name in
  if negb (isNil getErr) && negb (IsNotFound getErr) then ret getErr
  else
  let* err :=
    (if negb (isNil getErr) && IsNotFound getErr then
       let* (_, err) := create name (nsName ns) in ret err
     else ret None) in
  match err with
  | Some e => ret (Some e)
  | None =>
      if isNil getErr then
        match caBundleCM with
        | None => ret (Some (Errorf "nil pointer dereference" []))
        | Some caBundleCM =>
            let caBundleCM :=
              mkConfigMap (cmName caBundleCM) (cmNamespace caBundleCM)
                (cmLabels caBundleCM) (cmAnnotations caBundleCM) [] in
            let* (_, err) := ConfigMaps_Update caBundleCM in
            match err with
            | Some e => ret (Some e)
            | None => ret None
            end
        end
      else ret None
  end.

Definition ensureCABundles (ns : Namespace) : M (option error) :=
  try ensureCABundle ns trustedCABundleConfigMap createCABundleConfigMaps in
  try ensureCABundle ns serviceCABundleConfigMap createServiceCABundleConfigMap in
  ret None.

Definition ensureCABundlesInNamespace (ns : Namespace) : M (option error) :=
  ensureCABundles ns.

(** Step 1 of [createResources]: the loop over [Spec.Params] that reads the
    two feature flags. *)
Fixpoint featureFlags (params : list Param) (createCABundles createRBACResource : bool)
  : bool * bool :=
  match params with
  | [] => (createCABundles, createRBACResource)
  | v :: rest =>
      let createCABundles :=
        if bool_decide (paramName v = trustedCABundleParamName)
           && bool_decide (paramValue v = "false")
        then false else createCABundles in
      let createRBACResource :=
        if bool_decide (paramName v = rbacParamName)
           && bool_decide (paramValue v = "false")
        then false else createRBACResource in
      featureFlags rest createCABundles createRBACResource
  end.

(** Step 4, the loop [for _, ns := range namespacesToReconcile.RBACNamespaces]:
    a namespace whose processing fails is logged and skipped.  [processRBAC]
    returns no error only with a result, so the third case is never
    reached. *)
Fixpoint processNamespaces (r : rbac) (nss : list Namespace)
  (namespacesToUpdate : list NamespaceServiceAccount)
  : M (list NamespaceServiceAccount) :=
  match nss with
  | [] => ret namespacesToUpdate
  | ns :: rest =>
      let* (nsSA, err) := processRBAC r ns in
      match err, nsSA with
      | Some _, _ => processNamespaces r rest namespacesToUpdate
      | None, Some nsSA => processNamespaces r rest (namespacesToUpdate ++ [nsSA])
      | None, None => processNamespaces r rest namespacesToUpdate
      end
  end.

(** Step 4, the loop that stamps the version label; a failed patch is logged
    only. *)
Fixpoint patchNamespaceLabels (r : rbac)
  (namespacesToUpdate : list NamespaceServiceAccount) : M unit :=
  match namespacesToUpdate with
  | [] => ret tt
  | nsSA :: rest =>
      let* _ := patchNamespaceLabel r (nsaNamespace nsSA) in
      patchNamespaceLabels r rest
  end.

(** Step 5, the loop over [namespacesToReconcile.CANamespaces]. *)
Fixpoint processCANamespaces (r : rbac) (nss : list Namespace) : M unit :=
  match nss with
  | [] => ret tt
  | ns :: rest =>
      let* err := ensureCABundlesInNamespace ns in
      match err with
      | Some _ => processCANamespaces r rest
      | None =>
          let* _ := patchNamespaceTrustedConfigLabel r ns in
          processCANamespaces r rest
      end
  end.

(** Step 4 of [createResources], entered when RBAC is enabled. *)
Definition reconcileRBAC (r : rbac) (namespacesToReconcile : NamespacesToReconcile)
  : M (option error) :=
  if (length (RBACNamespaces namespacesToReconcile) =? 0)%nat then ret None
  else
    try removeAndUpdateNSFromCI r in
    let* namespacesToUpdate :=
      processNamespaces r (RBACNamespaces namespacesToReconcile) [] in
    if (0 <? length namespacesToUpdate)%nat then
      try handleClusterRoleBinding r namespacesToUpdate in
      let* _ := patchNamespaceLabels r namespacesToUpdate in
      ret None
    else ret None.

(** Steps 3 to 5 of [createResources], entered once the prerequisites
    hold. *)
Definition reconcileNamespaces (r : rbac) (createCABundles createRBACResource : bool)
  : M (option error) :=
  let* (namespacesToReconcile, err) := getNamespacesToBeReconciled r in
  match err, namespacesToReconcile with
  | Some e, _ => ret (Some e)
  | None, None => ret (Some (Errorf "nil pointer dereference" []))
  | None, Some namespacesToReconcile =>
  if (length (RBACNamespaces namespacesToReconcile) =? 0)%nat
     && (length (CANamespaces namespacesToReconcile) =? 0)%nat
  then ret None
  else
  let* err :=
    (if createRBACResource then reconcileRBAC r namespacesToReconcile
     else ret None) in
  match err with
  | Some e => ret (Some e)
  | None =>
  let* _ :=
    (if createCABundles then
       if (length (CANamespaces namespacesToReconcile) =? 0)%nat then ret tt
       else processCANamespaces r (CANamespaces namespacesToReconcile)
     else ret tt) in
  ret None
  end end.

(** [createResources]; the receiver, whose [ownerRef] the prerequisites
    assign, is returned along with the error. *)
Definition createResources (r : rbac) : M (rbac * option error) :=
  let '(createCABundles, createRBACResource) :=
    featureFlags (tcParams (tektonConfig r)) true true in
  if negb createCABundles && negb createRBACResource then ret (r, None)
  else
  let* (r, err) :=
    (if createRBACResource then ensurePreRequisites r else ret (r, None)) in
  match err with
  | Some e => ret (r, Some e)
  | None =>
      let* err := reconcileNamespaces r createCABundles createRBACResource in
      ret (r, err)
  end.

(** [setDefault], on the receiver. *)
Definition setDefault_r (r : rbac) : rbac :=
  let tc := tektonConfig r in
  mkRbac (ownerRef r) (version r)
    (mkTektonConfig (tcName tc) (tcUID tc) (setDefault (tcParams tc))
       (sccDefault tc) (sccMaxAllowed tc)).
(** * Vocabulary of the specifications *)

(** A reference the loop of [updateOwnerRefs] passes over: one that agrees
    with [ownerRef] on APIVersion, Kind and Name. *)
Definition matchesOwner (ownerRef ref : OwnerReference) : Prop :=
  orAPIVersion ref = orAPIVersion ownerRef
  ∧ orKind ref = orKind ownerRef
  ∧ orName ref = orName ownerRef.

#[global] Instance matchesOwner_dec ownerRef ref : Decision (matchesOwner ownerRef ref).
Proof. unfold matchesOwner. apply _. Defined.

(** A bound subject whose namespace is a key of [nsMap]. *)
Definition live (nsMap : gmap string string) (s : Subject) : Prop :=
  is_Some (nsMap !! subjNamespace s).

#[global] Instance live_dec nsMap s : Decision (live nsMap s).
Proof. unfold live. apply _. Defined.

(** The subjects of [x] that [mergeSubjects subjects x] appends. *)
Definition freshSubjects (subjects x : list Subject) : list Subject :=
  filter (fun s => subjectKey s ∉ subjectKey <$> subjects) x.


Definition toggleNames : list string :=
  [rbacParamName; legacyPipelineRbacParamName; trustedCABundleParamName].

(** What [setDefault] leaves in place of an entry of [Params]. *)
Definition normalizeParam (p : Param) : Param :=
  if bool_decide (paramName p ∈ toggleNames) && malformed (paramValue p)
  then mkParam (paramName p) "true" else p.

(** The value of the last entry named [createRbacResource], if any: what
    [createRbacResourceValue] holds after the loop. *)
Definition lastRbacValue (params : list Param) : option string :=
  last (paramValue <$> filter (fun p => paramName p = rbacParamName) params).

(** The value [setDefault] gives an absent [createCABundleConfigMaps]. *)
Definition caBundleDefault (params : list Param) : string :=
  if bool_decide (lastRbacValue params = Some "false") then "false" else "true".

Definition absent (name : string) (params : list Param) : Prop :=
  name ∉ paramName <$> params.

Definition foundIn (name : string) (params : list Param) : bool :=
  bool_decide (name ∈ paramName <$> params).


(** The namespaces that carry the reconcile-version label with the value
    [v], as the pruning step lists them. *)
Definition labeledNamespaces (v : string) (c : Cluster) : list string :=
  nsName <$> filter (fun ns => nsLabels ns !! namespaceVersionLabel = Some v)
                    (listed c).

(** No two neighbours of the list are both stale. *)
Fixpoint noAdjacentStale (nsMap : gmap string string) (l : list Subject) : Prop :=
  match l with
  | [] => True
  | x :: rest =>
      match rest with
      | [] => True
      | y :: _ => (live nsMap x ∨ live nsMap y) ∧ noAdjacentStale nsMap rest
      end
  end.

(** The reconcile-version label of the namespace stored under [name]. *)
Definition rbacLabelAt (name : string) (c : Cluster) : option string :=
  namespaces c !! name ≫= fun ns => nsLabels ns !! namespaceVersionLabel.

(** What [cleanUp] does to the labels of a namespace. *)
Definition clearVersion (v : string) (labels : gmap string string)
  : gmap string string :=
  if bool_decide (labels !! namespaceVersionLabel = Some v)
  then delete namespaceVersionLabel labels else labels.

(** Policy [a] comes strictly before policy [b] in the priority list: it is
    strictly more restrictive. *)
Definition moreRestrictive (prio : list string) (a b : string) : Prop :=
  ∃ i j, sccIndex prio a = Some i ∧ sccIndex prio b = Some j ∧ (i < j)%nat.

(** The namespace requests, by its annotation, a policy that is strictly less
    restrictive than the ceiling [maxAllowed] of the configuration. *)
Definition violatesCeiling (r : rbac) (c : Cluster) (ns : Namespace) : Prop :=
  mapIndex (nsAnnotations ns) NamespaceSCCAnnotation ≠ ""
  ∧ sccMaxAllowed (tektonConfig r) ≠ ""
  ∧ moreRestrictive (sccs c) (sccMaxAllowed (tektonConfig r))
      (mapIndex (nsAnnotations ns) NamespaceSCCAnnotation).

(** The bookkeeping object of the release is there. *)
Definition bookkeepingExists (v : string) (c : Cluster) : Prop :=
  ∃ iset, installerSets c !! rbacInstallerSetName v = Some iset
          ∧ isReleaseVersion iset = v.

(** The objects a pass creates or updates for the namespaces it works on. *)
Definition sameWorkloads (c c' : Cluster) : Prop :=
  serviceAccounts c' = serviceAccounts c
  ∧ roles c' = roles c
  ∧ clusterRoles c' = clusterRoles c
  ∧ roleBindings c' = roleBindings c
  ∧ clusterRoleBindings c' = clusterRoleBindings c
  ∧ configMaps c' = configMaps c
  ∧ events c' = events c.

(** A computation that leaves the cluster in relation [R] with the cluster
    it started from. *)
Definition preserves {A} (R : Cluster → Cluster → Prop) (m : M A) : Prop :=
  ∀ c, R c (m c).2.

(** A relation on clusters that no write to an object other than a namespace
    can break. *)
Record frameOK (R : Cluster → Cluster → Prop) : Prop := mkFrameOK {
  frame_refl : ∀ c, R c c;
  frame_trans : ∀ c1 c2 c3, R c1 c2 → R c2 c3 → R c1 c3;
  frame_record : ∀ call c, R c (record call c);
  frame_serviceAccounts : ∀ f c, R c (set_serviceAccounts f c);
  frame_roles : ∀ f c, R c (set_roles f c);
  frame_clusterRoles : ∀ f c, R c (set_clusterRoles f c);
  frame_roleBindings : ∀ f c, R c (set_roleBindings f c);
  frame_clusterRoleBindings : ∀ f c, R c (set_clusterRoleBindings f c);
  frame_configMaps : ∀ f c, R c (set_configMaps f c);
  frame_events : ∀ f c, R c (set_events f c);
  frame_installerSets : ∀ f c, R c (set_installerSets f c) }.

(** The service account [ensureSA] leaves in a namespace. *)
Definition pipelineServiceAccount (r : rbac) (namespace : string) : ServiceAccount :=
  mkServiceAccount pipelineSA namespace [tektonConfigOwnerRef (tektonConfig r)].

(** The [nsMap] the pruning step builds on a cluster. *)
Definition labeledMap (v : string) (c : Cluster) : gmap string string :=
  buildNsMap (labeledNamespaces v c).

(** The cluster binding after a pruning step that left [subjects] and, if
    [update] is set, wrote them back. *)
Definition prunedCluster (c : Cluster) (crb : ClusterRoleBinding)
  (subjects : list Subject) (update : bool) : Cluster :=
  if update then
    set_clusterRoleBindings
      (insert clusterInterceptors
         (mkClusterRoleBinding clusterInterceptors (crbOwnerReferences crb)
            (crbRoleRef crb) subjects))
      (record (CallUpdate KClusterRoleBinding "" clusterInterceptors) c)
  else c.

(** The string has no occurrence of the separator of [subjectKey]. *)
Fixpoint noSlash (s : string) : Prop :=
  match s with
  | EmptyString => True
  | String c rest => c ≠ "/"%char ∧ noSlash rest
  end.

(** The version label of one namespace and the priority list: what the
    per-namespace work never changes. *)
Definition labelFrame (name : string) (c c' : Cluster) : Prop :=
  rbacLabelAt name c' = rbacLabelAt name c ∧ sccs c' = sccs c.

(** Namespaces and priority list are untouched. *)
Definition untouched (c c' : Cluster) : Prop :=
  namespaces c' = namespaces c ∧ sccs c' = sccs c.

(** A namespace as [List] returns it. *)
Definition listedAs (name : string) (ns : Namespace) : Namespace :=
  mkNamespace name (nsAnnotations ns) (nsLabels ns) (nsDeletionTimestamp ns).

(** The namespace [cleanUp] writes back in place of a listed one. *)
Definition unlabeled (n : Namespace) : Namespace :=
  mkNamespace (nsName n) (nsAnnotations n)
    (delete namespaceVersionLabel (nsLabels n)) (nsDeletionTimestamp n).

(** The owner references of a list that do not match [ownerRef]. *)
Definition mismatches (ownerRef : OwnerReference) (refs : list OwnerReference)
  : list OwnerReference :=
  filter (fun ref => ¬ matchesOwner ownerRef ref) refs.


(** The role a role reference names is there: a role of the namespace, or a
    cluster role. *)
Definition roleExists (roleRef : RoleRef) (namespace : string) (c : Cluster) : Prop :=
  (rrKind roleRef = "Role" ∧ is_Some (roles c !! (namespace, rrName roleRef)))
  ∨ (rrKind roleRef = "ClusterRole" ∧ is_Some (clusterRoles c !! rrName roleRef)).

(** Two role references name the same role. *)
Definition sameRole (a b : RoleRef) : Prop :=
  rrKind a = rrKind b ∧ rrName a = rrName b.

#[global] Instance sameRole_dec a b : Decision (sameRole a b).
Proof. unfold sameRole. apply _. Defined.

(** The config map [createCABundleConfigMaps] creates. *)
Definition trustedCABundle (namespace : string) : ConfigMap :=
  mkConfigMap trustedCABundleConfigMap namespace
    (<["app.kubernetes.io/part-of" := "tekton-pipelines"]>
       (<["config.openshift.io/inject-trusted-cabundle" := "true"]> ∅))
    ∅ [].

(** The config map [createServiceCABundleConfigMap] creates. *)
Definition serviceCABundle (namespace : string) : ConfigMap :=
  mkConfigMap serviceCABundleConfigMap namespace
    (<["app.kubernetes.io/part-of" := "tekton-pipelines"]> ∅)
    (<["service.beta.openshift.io/inject-cabundle" := "true"]> ∅) [].

(** A config map without its owner references, under the given name. *)
Definition disowned (namespace name : string) (cm : ConfigMap) : ConfigMap :=
  mkConfigMap name namespace (cmLabels cm) (cmAnnotations cm) [].

(** The write that brings an object about: an update of one that is there,
    the creation of one that is not. *)
Definition upsert {A} (old : option A) (kind : Kind) (namespace name : string) : Call :=
  match old with
  | Some _ => CallUpdate kind namespace name
  | None => CallCreate kind namespace name
  end.

(** The objects of the RBAC part of a pass, and the bookkeeping objects, are
    the same in both clusters. *)
Definition sameRBAC (c c' : Cluster) : Prop :=
  serviceAccounts c' = serviceAccounts c
  ∧ roles c' = roles c
  ∧ clusterRoles c' = clusterRoles c
  ∧ roleBindings c' = roleBindings c
  ∧ clusterRoleBindings c' = clusterRoleBindings c
  ∧ events c' = events c
  ∧ installerSets c' = installerSets c.

(** A namespace a pass looks at: its name has no reserved prefix and it is
    not being deleted. *)
Definition eligible (ns : Namespace) : Prop :=
  nsRegex_MatchString (nsName ns) = false ∧ nsDeletionTimestamp ns = None.

#[global] Instance eligible_dec ns : Decision (eligible ns).
Proof. unfold eligible. apply _. Defined.

(** The namespace has RBAC work to be done: it requests a policy, or it does
    not carry the label of the reconciler's version, or its
    pipelines-scc-rolebinding is missing or is not to a cluster role. *)
Definition needsRBAC (r : rbac) (c : Cluster) (ns : Namespace) : Prop :=
  mapIndex (nsAnnotations ns) NamespaceSCCAnnotation ≠ ""
  ∨ mapIndex (nsLabels ns) namespaceVersionLabel ≠ version r
  ∨ ∀ rb, roleBindings c !! (nsName ns, pipelinesSCCRoleBinding) = Some rb →
          rrKind (rbRoleRef rb) ≠ "ClusterRole".

#[global] Instance needsRBAC_dec r c ns : Decision (needsRBAC r c ns).
Proof.
  unfold needsRBAC.
  destruct (roleBindings c !! (nsName ns, pipelinesSCCRoleBinding)) as [rb|].
  - destruct (decide (rrKind (rbRoleRef rb) = "ClusterRole")) as [Hk|Hk].
    + destruct (decide (mapIndex (nsAnnotations ns) NamespaceSCCAnnotation ≠ ""));
        [left; by left|].
      destruct (decide (mapIndex (nsLabels ns) namespaceVersionLabel ≠ version r));
        [left; right; by left|].
      right. intros [?|[?|H]]; [done|done|]. by apply (H rb).
    + left. right. right. by intros ? [= <-].
  - left. right. right. by intros ? [=].
Defined.

(** The namespace has CA bundle work to be done: it does not carry the
    trusted-configmaps label of the reconciler's version. *)
Definition needsCA (r : rbac) (ns : Namespace) : Prop :=
  mapIndex (nsLabels ns) namespaceTrustedConfigLabel ≠ version r.

#[global] Instance needsCA_dec r ns : Decision (needsCA r ns).
Proof. unfold needsCA. apply _. Defined.

(** The trusted-configmaps label of the namespace stored under [name]. *)
Definition caLabelAt (name : string) (c : Cluster) : option string :=
  namespaces c !! name ≫= fun ns => nsLabels ns !! namespaceTrustedConfigLabel.

(** Both CA bundle config maps are in the namespace. *)
Definition caBundlesIn (name : string) (c : Cluster) : Prop :=
  is_Some (configMaps c !! (name, trustedCABundleConfigMap))
  ∧ is_Some (configMaps c !! (name, serviceCABundleConfigMap)).

(** One iteration of the CA bundle loop on a namespace. *)
Definition caStep (r : rbac) (ns : Namespace) (c : Cluster) : Cluster :=
  (patchNamespaceTrustedConfigLabel r ns (ensureCABundles ns c).2).2.

(** The policy a namespace requests by its annotation; empty for none. *)
Definition requestedSCC (ns : Namespace) : string :=
  mapIndex (nsAnnotations ns) NamespaceSCCAnnotation.

(** The role that grants the use of one policy in a namespace. *)
Definition sccRole (r : rbac) (namespace scc : string) : Role :=
  mkRole pipelinesSCCRole namespace [ownerRef r] [sccPolicyRule scc].

(** The request for [scc] is within the ceiling of the configuration: there
    is no ceiling, or [scc] comes no later than the ceiling in the priority
    list. *)
Definition withinCeiling (r : rbac) (c : Cluster) (scc : string) : Prop :=
  sccMaxAllowed (tektonConfig r) = ""
  ∨ ∃ i j, sccIndex (sccs c) scc = Some i
           ∧ sccIndex (sccs c) (sccMaxAllowed (tektonConfig r)) = Some j
           ∧ (i ≤ j)%nat.
(** * Example clusters *)

Definition exampleConfig : TektonConfig :=
  mkTektonConfig "config" "uid-config" [] "pipelines-scc" "".

Definition exampleInstallerSet : TektonInstallerSet :=
  mkInstallerSet (rbacInstallerSetName "v2") "uid-iset" "v2".

(** The reconciler of release v2, its owner reference being the one the
    prerequisites assign. *)
Definition exampleRbac : rbac :=
  mkRbac (configOwnerRef exampleInstallerSet) "v2" exampleConfig.

Definition exampleNamespace (name : string) (annotations labels : list (string * string))
  : Namespace :=
  mkNamespace name (list_to_map annotations) (list_to_map labels) None.

Definition exampleSCCs : list string := ["restricted"; "pipelines-scc"; "privileged"].

Definition emptyCluster : Cluster :=
  mkCluster ∅ ∅ ∅ ∅ ∅ ∅ ∅ [] ∅ exampleSCCs [].

(** An upgrade from v1 to v2: namespace a was reconciled by release v1,
    namespace b carries the label of v2; the bookkeeping object of v2 is not
    there yet. *)
Definition upgradeCluster : Cluster :=
  set_namespaces
    (fun _ => list_to_map
       [("a", exampleNamespace "a" [] [(namespaceVersionLabel, "v1")]);
        ("b", exampleNamespace "b" [] [(namespaceVersionLabel, "v2")])])
    emptyCluster.

(** A cluster that release v2 has not worked on yet, with its bookkeeping
    object: namespace a asks for nothing, namespace b asks for the policy
    privileged. *)
Definition freshCluster : Cluster :=
  set_installerSets
    (fun _ => {[ rbacInstallerSetName "v2" := exampleInstallerSet ]})
    (set_clusterRoles (fun _ => {[ "edit" := mkClusterRole "edit" [] [] ]})
       (set_namespaces
          (fun _ => list_to_map
             [("a", exampleNamespace "a" [] []);
              ("b", exampleNamespace "b" [(NamespaceSCCAnnotation, "privileged")] [])])
          emptyCluster)).

(** A configuration with a ceiling: the default policy is restricted, and no
    namespace may ask for more than pipelines-scc. *)
Definition ceilingConfig : TektonConfig :=
  mkTektonConfig "config" "uid-config" [] "restricted" "pipelines-scc".

Definition ceilingRbac : rbac :=
  mkRbac (configOwnerRef exampleInstallerSet) "v2" ceilingConfig.

(** A configuration whose ceiling, restricted, is more restrictive than its
    default, pipelines-scc. *)
Definition badCeilingConfig : TektonConfig :=
  mkTektonConfig "config" "uid-config" [] "pipelines-scc" "restricted".

Definition badCeilingRbac : rbac :=
  mkRbac (configOwnerRef exampleInstallerSet) "v2" badCeilingConfig.

(** Namespace b of [freshCluster], as [List] returns it. *)
Definition privilegedNamespace : Namespace :=
  exampleNamespace "b" [(NamespaceSCCAnnotation, "privileged")] [].

(** The first pass of release v2 over [freshCluster], and a second pass right
    after it. *)
Definition firstPass : rbac * option error * Cluster :=
  createResources exampleRbac freshCluster.

Definition secondPass : rbac * option error * Cluster :=
  createResources firstPass.1.1 firstPass.2.

(** A policy grant binding that is already correct for namespace a. *)
Definition correctRoleBinding : RoleBinding :=
  mkRoleBinding pipelinesSCCRoleBinding "a" [ownerRef exampleRbac]
    (mkRoleRef GroupName "ClusterRole" pipelinesSCCClusterRole)
    [saSubject (pipelineServiceAccount exampleRbac "a")].

Definition pipelineSubject (namespace : string) : Subject :=
  mkSubject ServiceAccountKind "" pipelineSA namespace.

(** The cluster binding with the workload identities of the given
    namespaces. *)
Definition exampleBinding (bound : list string) : ClusterRoleBinding :=
  mkClusterRoleBinding clusterInterceptors [ownerRef exampleRbac]
    (mkRoleRef GroupName "ClusterRole" clusterInterceptors)
    (pipelineSubject <$> bound).

(** A cluster whose namespaces [labeled] carry the label of release v2 and
    whose cluster binding has the workload identities of the namespaces
    [bound]. *)
Definition boundCluster (labeled bound : list string) : Cluster :=
  set_clusterRoleBindings
    (fun _ => {[ clusterInterceptors := exampleBinding bound ]})
    (set_namespaces
       (fun _ => list_to_map
          ((fun n => (n, exampleNamespace n [] [(namespaceVersionLabel, "v2")]))
           <$> labeled))
       emptyCluster).


(** A role binding of namespace a that was not made by the reconciler: it
    binds a user and is owned by something else. *)
Definition foreignBinding (name : string) (roleRef : RoleRef) : RoleBinding :=
  mkRoleBinding name "a" [mkOwnerReference "v1" "ConfigMap" "other" "uid-other"]
    roleRef [mkSubject "User" GroupName "alice" ""].

(** [freshCluster] with such a binding. *)
Definition foreignCluster (name : string) (roleRef : RoleRef) : Cluster :=
  set_roleBindings (fun _ => {[ ("a", name) := foreignBinding name roleRef ]})
    freshCluster.

(** The reconciler of release v2 with the legacy binding switched off. *)
Definition legacyOffRbac : rbac :=
  mkRbac (configOwnerRef exampleInstallerSet) "v2"
    (mkTektonConfig "config" "uid-config"
       [mkParam legacyPipelineRbacParamName "false"] "pipelines-scc" "").

(** The reconciler of release v2 with the RBAC part switched off. *)
Definition rbacOffRbac : rbac :=
  mkRbac (configOwnerRef exampleInstallerSet) "v2"
    (mkTektonConfig "config" "uid-config"
       [mkParam rbacParamName "false"] "pipelines-scc" "").
(** * Properties of the pure helpers *)

Lemma remove_middle {A} (pre : list A) x l2 :
  take (length pre) (pre ++ x :: l2) ++ drop (S (length pre)) (pre ++ x :: l2)
  = pre ++ l2.
Proof.
  rewrite take_app_length. f_equal.
  induction pre; simpl; auto.
Qed.

(** ** Owner references *)

Section OwnerRefsFacts.
Variable ownerRef : OwnerReference.

#[local] Abbreviation matchesOwner := (matchesOwner ownerRef).


Lemma sameOwner_matches ref : sameOwner ref ownerRef = true ↔ matchesOwner ref.
Proof.
  unfold sameOwner, matchesOwner.
  rewrite !andb_true_iff, !bool_decide_eq_true. tauto.
Qed.

Lemma mismatch_test ref :
  negb (bool_decide (orAPIVersion ref = orAPIVersion ownerRef))
  || negb (bool_decide (orKind ref = orKind ownerRef))
  || negb (bool_decide (orName ref = orName ownerRef))
  = negb (sameOwner ref ownerRef).
Proof.
  unfold sameOwner.
  repeat case_bool_decide; reflexivity.
Qed.

Lemma hasOwnerRefernce_Exists refs :
  hasOwnerRefernce refs ownerRef = true ↔ Exists matchesOwner refs.
Proof.
  induction refs as [|v rest IH]; simpl.
  - split; [discriminate | intros H; inversion H].
  - destruct (sameOwner v ownerRef) eqn:E.
    + split; [|done]. intros _. left. by apply sameOwner_matches.
    + rewrite IH. split; [by right|].
      intros H. inversion H as [? ? Hm|]; subst; [|done].
      apply sameOwner_matches in Hm. congruence.
Qed.

Lemma hasOwnerRefernce_app_r refs :
  hasOwnerRefernce (refs ++ [ownerRef]) ownerRef = true.
Proof.
  apply hasOwnerRefernce_Exists, Exists_app. right. left.
  by unfold matchesOwner.
Qed.

(** The loop, started on a suffix [refs] of [pre ++ refs] whose prefix it
    has passed over. *)
Lemma updateOwnerRefs_loop_all_match pre refs :
  Forall matchesOwner refs →
  updateOwnerRefs_loop ownerRef (pre ++ refs) (length pre) refs = pre ++ refs.
Proof.
  revert pre. induction refs as [|ref rest IH]; intros pre Hall; simpl; [done|].
  inversion Hall as [|? ? Hm Hrest]; subst.
  rewrite mismatch_test.
  apply sameOwner_matches in Hm. rewrite Hm. simpl.
  specialize (IH (pre ++ [ref]) Hrest).
  rewrite <- app_assoc, length_app in IH. simpl in IH.
  by replace (length pre + 1) with (S (length pre)) in IH by lia.
Qed.

Lemma updateOwnerRefs_loop_first_mismatch pre l1 x l2 :
  Forall matchesOwner l1 → ¬ matchesOwner x →
  updateOwnerRefs_loop ownerRef (pre ++ l1 ++ x :: l2) (length pre) (l1 ++ x :: l2)
  = pre ++ l1 ++ l2 ++ [ownerRef].
Proof.
  revert pre. induction l1 as [|ref rest IH]; intros pre Hall Hx; simpl.
  - rewrite mismatch_test.
    destruct (sameOwner x ownerRef) eqn:E;
      [apply sameOwner_matches in E; contradiction|]. simpl.
    unfold removeAndUpdate.
    by rewrite remove_middle, <- app_assoc.
  - inversion Hall as [|? ? Hm Hrest]; subst.
    rewrite mismatch_test.
    apply sameOwner_matches in Hm. rewrite Hm. simpl.
    specialize (IH (pre ++ [ref]) Hrest Hx).
    rewrite <- !app_assoc, length_app in IH. simpl in IH.
    by replace (length pre + 1) with (S (length pre)) in IH by lia.
Qed.

Lemma list_first_mismatch (refs : list OwnerReference) :
  Forall matchesOwner refs
  ∨ ∃ l1 x l2, refs = l1 ++ x :: l2 ∧ Forall matchesOwner l1 ∧ ¬ matchesOwner x.
Proof.
  induction refs as [|ref rest IH]; [by left|].
  destruct (decide (matchesOwner ref)) as [Hm|Hm].
  - destruct IH as [IH|(l1 & x & l2 & -> & Hl1 & Hx)].
    + left. by constructor.
    + right. exists (ref :: l1), x, l2. repeat split; [|done]. by constructor.
  - right. exists [], ref, rest. by repeat split.
Qed.

Lemma updateOwnerRefs_first_mismatch l1 x l2 :
  Forall matchesOwner l1 → ¬ matchesOwner x →
  updateOwnerRefs ownerRef (l1 ++ x :: l2) = l1 ++ l2 ++ [ownerRef].
Proof.
  intros Hl1 Hx. unfold updateOwnerRefs.
  replace (length (l1 ++ x :: l2) =? 0)%nat with false
    by (symmetry; apply Nat.eqb_neq; rewrite length_app; simpl; lia).
  apply (updateOwnerRefs_loop_first_mismatch [] l1 x l2 Hl1 Hx).
Qed.

Lemma updateOwnerRefs_all_match refs :
  refs ≠ [] → Forall matchesOwner refs → updateOwnerRefs ownerRef refs = refs.
Proof.
  intros Hne Hrefs. unfold updateOwnerRefs.
  destruct refs as [|ref rest]; [done|]. simpl length. simpl Nat.eqb.
  cbv iota. apply (updateOwnerRefs_loop_all_match [] _ Hrefs).
Qed.

Lemma updateOwnerRefs_nonempty refs : updateOwnerRefs ownerRef refs ≠ [].
Proof.
  destruct refs as [|ref rest]; [done|].
  destruct (list_first_mismatch (ref :: rest))
    as [Hm|(l1 & x & l2 & Heq & Hl1 & Hx)].
  - by rewrite updateOwnerRefs_all_match.
  - rewrite Heq, updateOwnerRefs_first_mismatch by done.
    intros Hnil. apply app_eq_nil in Hnil as [_ Hnil].
    by apply app_eq_nil in Hnil as [_ Hnil].
Qed.

(** C9. Whatever list of owner references it is given, [updateOwnerRefs]
    returns a non-empty list containing a reference whose APIVersion, Kind
    and Name are those of [r.ownerRef]; the empty list yields exactly
    [[r.ownerRef]]; a list whose references all match is returned as it is;
    and when some reference mismatches, only the first such reference is
    removed and [r.ownerRef] is appended, every later reference (matching
    or not) being retained in place. *)
Theorem updateOwnerRefs_invariant :
  (∀ refs, updateOwnerRefs ownerRef refs ≠ []
           ∧ hasOwnerRefernce (updateOwnerRefs ownerRef refs) ownerRef = true)
  ∧ updateOwnerRefs ownerRef [] = [ownerRef]
  ∧ (∀ l1 x l2, Forall matchesOwner l1 → ¬ matchesOwner x →
       updateOwnerRefs ownerRef (l1 ++ x :: l2) = l1 ++ l2 ++ [ownerRef])
  ∧ (∀ refs, refs ≠ [] → Forall matchesOwner refs →
       updateOwnerRefs ownerRef refs = refs).
Proof.
  split; [|split; [reflexivity|split]];
    [|apply updateOwnerRefs_first_mismatch|apply updateOwnerRefs_all_match].
  intros refs. split; [apply updateOwnerRefs_nonempty|].
  destruct refs as [|ref rest].
  { simpl. destruct (sameOwner ownerRef ownerRef) eqn:E; [done|].
    exfalso. assert (sameOwner ownerRef ownerRef = true); [|congruence].
    by apply sameOwner_matches. }
  destruct (list_first_mismatch (ref :: rest))
    as [Hm|(l1 & x & l2 & Heq & Hl1 & Hx)].
  - rewrite updateOwnerRefs_all_match by done.
    apply hasOwnerRefernce_Exists. inversion Hm; subst. by left.
  - rewrite Heq, updateOwnerRefs_first_mismatch by done.
    rewrite app_assoc. apply hasOwnerRefernce_app_r.
Qed.
End OwnerRefsFacts.

(** Witness of the conditional parts of [updateOwnerRefs_invariant]: two
    foreign owners, of which only the first is replaced. *)
Lemma updateOwnerRefs_invariant_witness :
  let o := mkOwnerReference "operator.tekton.dev/v1alpha1" "TektonInstallerSet"
                            "rhosp-rbac-abc" "uid-1" in
  let x := mkOwnerReference "v1" "ConfigMap" "foreign-1" "uid-2" in
  let y := mkOwnerReference "v1" "ConfigMap" "foreign-2" "uid-3" in
  Forall (matchesOwner o) [o] ∧ ¬ matchesOwner o x
  ∧ updateOwnerRefs o ([o] ++ x :: [y]) = [o] ++ [y] ++ [o].
Proof.
  intros o x y.
  assert (Hl1 : Forall (matchesOwner o) [o]) by (by repeat constructor).
  assert (Hx : ¬ matchesOwner o x) by (intros (H & _ & _); discriminate H).
  split; [exact Hl1|split; [exact Hx|]].
  exact (proj1 (proj2 (proj2 (updateOwnerRefs_invariant o))) [o] x [y] Hl1 Hx).
Defined.

(** ** Subject lists *)

Lemma keySet_foldl (l : list Subject) (acc : gset string) (k : string) :
  k ∈ foldl (fun set subject => {[ subjectKey subject ]} ∪ set) acc l
  ↔ k ∈ acc ∨ k ∈ subjectKey <$> l.
Proof.
  revert acc. induction l as [|s l IH]; intros acc; simpl.
  - rewrite elem_of_nil. tauto.
  - rewrite IH, elem_of_union, elem_of_singleton, elem_of_cons. tauto.
Qed.

Lemma elem_of_keySet (l : list Subject) (k : string) :
  k ∈ keySet l ↔ k ∈ subjectKey <$> l.
Proof. unfold keySet. rewrite keySet_foldl, elem_of_empty. tauto. Qed.


Lemma mergeSubjects_foldl (existing : gset string) (acc x : list Subject) :
  foldl (fun finalSubjects subject =>
           if bool_decide (subjectKey subject ∈ existing)
           then finalSubjects else finalSubjects ++ [subject]) acc x
  = acc ++ filter (fun s => subjectKey s ∉ existing) x.
Proof.
  revert acc. induction x as [|s x IH]; intros acc; simpl.
  - by rewrite app_nil_r.
  - rewrite IH. case_bool_decide as Hin.
    + by rewrite filter_cons_False by (intros Hn; by apply Hn).
    + rewrite filter_cons_True by done. by rewrite <- app_assoc.
Qed.

Lemma mergeSubjects_eq (subjects x : list Subject) :
  mergeSubjects subjects x = subjects ++ freshSubjects subjects x.
Proof.
  unfold mergeSubjects, freshSubjects. simpl. rewrite mergeSubjects_foldl.
  f_equal. apply list_filter_iff. intros s. by rewrite elem_of_keySet.
Qed.

Lemma NoDup_fmap_filter {A B} (f : A → B) (P : A → Prop)
      `{!∀ a, Decision (P a)} (l : list A) :
  NoDup (f <$> l) → NoDup (f <$> filter P l).
Proof.
  induction l as [|a l IH]; simpl; [done|].
  rewrite NoDup_cons. intros [Hn Hl].
  destruct (decide (P a)).
  - rewrite filter_cons_True by done. simpl. apply NoDup_cons. split; [|auto].
    intros Hin. apply Hn. apply list_elem_of_fmap in Hin as (b & -> & Hb).
    apply list_elem_of_fmap. exists b. split; [done|].
    by apply list_elem_of_filter in Hb as [_ ?].
  - rewrite filter_cons_False by done. auto.
Qed.

(** Keys and triples: the key determines Kind, Name and Namespace as soon as
    neither Kind nor Namespace contains the separator. *)
Lemma append_empty (s : string) : "" +:+ s = s.
Proof. reflexivity. Qed.

Lemma append_String (c : ascii) (k s : string) :
  String c k +:+ s = String c (k +:+ s).
Proof. reflexivity. Qed.

Lemma noSlash_app_slash (a b : string) : ¬ noSlash (a +:+ "/" +:+ b).
Proof.
  induction a as [|ch a IH].
  - repeat (rewrite append_empty || rewrite append_String).
    intros [H _]. by apply H.
  - rewrite append_String. intros [_ H]. by apply IH.
Qed.

Lemma key_head_inj (k1 k2 r1 r2 : string) :
  noSlash k1 → noSlash k2 →
  k1 +:+ "/" +:+ r1 = k2 +:+ "/" +:+ r2 → k1 = k2 ∧ r1 = r2.
Proof.
  revert k2. induction k1 as [|c1 k1 IH]; intros [|c2 k2];
    repeat (rewrite append_empty || rewrite append_String).
  - intros _ _ [= ->]. done.
  - intros _ [Hc _] [= <- _]. done.
  - intros [Hc _] _ [= -> _]. done.
  - intros [_ H1] [_ H2] [= -> Heq].
    destruct (IH k2 H1 H2 Heq) as [-> ->]. done.
Qed.

Lemma key_tail_inj (n1 n2 s1 s2 : string) :
  noSlash s1 → noSlash s2 →
  n1 +:+ "/" +:+ s1 = n2 +:+ "/" +:+ s2 → n1 = n2 ∧ s1 = s2.
Proof.
  intros H1 H2. revert n2. induction n1 as [|c1 n1 IH]; intros [|c2 n2];
    repeat (rewrite append_empty || rewrite append_String).
  - intros [= ->]. done.
  - intros [= <- ->]. by destruct (noSlash_app_slash n2 s2).
  - intros [= -> <-]. by destruct (noSlash_app_slash n1 s1).
  - intros [= -> Heq]. destruct (IH n2 Heq) as [-> ->]. done.
Qed.

Lemma subjectKey_inj (a b : Subject) :
  noSlash (subjKind a) → noSlash (subjNamespace a) →
  noSlash (subjKind b) → noSlash (subjNamespace b) →
  subjectKey a = subjectKey b →
  subjKind a = subjKind b ∧ subjName a = subjName b
  ∧ subjNamespace a = subjNamespace b.
Proof.
  intros Hka Hna Hkb Hnb. unfold subjectKey. intros Heq.
  apply key_head_inj in Heq as [Hk Heq]; [|done..].
  apply key_tail_inj in Heq as [Hn Hs]; done.
Qed.

(** C10. [mergeSubjects] returns the first list unchanged as a prefix,
    followed, in their original order, by exactly those subjects of the second
    list whose key (the string Kind/Name/Namespace the code builds) does not
    occur among the keys of the first list.  Hence the keys of the result are
    the keys of the two inputs together, and if the first list is
    duplicate-free (as a list of subjects, or as a list of keys) and the keys
    of the second list are pairwise distinct, so is the result; a subject
    repeated inside the second list is appended each time.  Two subjects
    whose Kind and Namespace are free of the separator have the same key only
    if they have the same Kind, Name and Namespace. *)
Theorem mergeSubjects_semantics (subjects x : list Subject) :
  mergeSubjects subjects x
    = subjects ++ filter (fun s => subjectKey s ∉ subjectKey <$> subjects) x
  ∧ (∀ k, k ∈ subjectKey <$> mergeSubjects subjects x
          ↔ k ∈ subjectKey <$> subjects ∨ k ∈ subjectKey <$> x)
  ∧ (NoDup subjects → NoDup (subjectKey <$> x) →
     NoDup (mergeSubjects subjects x))
  ∧ (NoDup (subjectKey <$> subjects) → NoDup (subjectKey <$> x) →
     NoDup (subjectKey <$> mergeSubjects subjects x))
  ∧ (∀ s, subjectKey s ∉ subjectKey <$> subjects →
          mergeSubjects subjects [s; s] = subjects ++ [s; s])
  ∧ (∀ a b, noSlash (subjKind a) → noSlash (subjNamespace a) →
            noSlash (subjKind b) → noSlash (subjNamespace b) →
            subjectKey a = subjectKey b →
            subjKind a = subjKind b ∧ subjName a = subjName b
            ∧ subjNamespace a = subjNamespace b).
Proof.
  split; [apply mergeSubjects_eq|].
  rewrite mergeSubjects_eq. unfold freshSubjects.
  split; [|split; [|split; [|split; [|apply subjectKey_inj]]]].
  - intros k. rewrite fmap_app, elem_of_app. split.
    + intros [H|H]; [by left|right].
      apply list_elem_of_fmap in H as (s & -> & Hs).
      apply list_elem_of_filter in Hs as [_ Hs].
      apply list_elem_of_fmap. eauto.
    + intros [H|H]; [by left|].
      destruct (decide (k ∈ subjectKey <$> subjects)) as [Hk|Hk]; [by left|].
      right. apply list_elem_of_fmap in H as (s & -> & Hs).
      apply list_elem_of_fmap. exists s. split; [done|].
      by apply list_elem_of_filter.
  - intros Hs Hx. apply NoDup_app. split; [done|]. split.
    + intros s Hin Hin'. apply list_elem_of_filter in Hin' as [Hfresh _].
      apply Hfresh, list_elem_of_fmap. eauto.
    + apply (NoDup_fmap_1 subjectKey). by apply NoDup_fmap_filter.
  - intros Hs Hx. rewrite fmap_app. apply NoDup_app. split; [done|]. split.
    + intros k Hin Hin'. apply list_elem_of_fmap in Hin' as (s & -> & Hs').
      by apply list_elem_of_filter in Hs' as [Hfresh _].
    + by apply NoDup_fmap_filter.
  - intros s Hs. rewrite mergeSubjects_eq. unfold freshSubjects.
    by rewrite !filter_cons_True by done.
Qed.

Lemma mergeSubjects_semantics_witness :
  let a := mkSubject ServiceAccountKind "" pipelineSA "ns-a" in
  let b := mkSubject ServiceAccountKind "" pipelineSA "ns-b" in
  let c := mkSubject ServiceAccountKind "" pipelineSA "ns-c" in
  NoDup [a; b] ∧ NoDup (subjectKey <$> [b; c])
  ∧ NoDup (mergeSubjects [a; b] [b; c])
  ∧ mergeSubjects [a; b] [b; c] = [a; b; c].
Proof.
  intros a b c.
  assert (H1 : NoDup [a; b]).
  { apply NoDup_cons. split; [|apply NoDup_singleton].
    intros H. apply list_elem_of_singleton in H. discriminate H. }
  assert (H2 : NoDup (subjectKey <$> [b; c])).
  { apply NoDup_cons. split; [|apply NoDup_singleton].
    intros H. apply list_elem_of_singleton in H. discriminate H. }
  split; [exact H1|split; [exact H2|split]].
  - exact (proj1 (proj2 (proj2 (mergeSubjects_semantics [a; b] [b; c]))) H1 H2).
  - vm_compute. reflexivity.
Defined.

(** ** Toggle defaulting *)


Lemma toggleNames_cases (n : string) :
  n ∈ toggleNames ↔
  n = rbacParamName ∨ n = legacyPipelineRbacParamName ∨ n = trustedCABundleParamName.
Proof.
  unfold toggleNames. rewrite !elem_of_cons, elem_of_nil. tauto.
Qed.

Lemma setDefault_step_spec (vars : setDefaultVars) (v : Param) :
  setDefault_step vars v =
  (mkVars (rbacParamFound vars || bool_decide (paramName v = rbacParamName))
          (legacyParamFound vars
           || bool_decide (paramName v = legacyPipelineRbacParamName))
          (caBundleParamFound vars
           || bool_decide (paramName v = trustedCABundleParamName))
          (if bool_decide (paramName v = rbacParamName)
           then paramValue v else createRbacResourceValue vars),
   normalizeParam v).
Proof.
  destruct vars as [rf lf cf cv]. destruct v as [n val].
  unfold setDefault_step, normalizeParam. simpl.
  destruct (decide (n = rbacParamName)) as [->|H1];
    [|destruct (decide (n = legacyPipelineRbacParamName)) as [->|H2];
      [|destruct (decide (n = trustedCABundleParamName)) as [->|H3]]].
  - rewrite !orb_true_r, !orb_false_r.
    replace (bool_decide (rbacParamName ∈ toggleNames)) with true by done.
    simpl. by destruct (malformed val).
  - rewrite !orb_true_r, !orb_false_r.
    replace (bool_decide (legacyPipelineRbacParamName ∈ toggleNames))
      with true by done.
    simpl. by destruct (malformed val).
  - rewrite !orb_true_r, !orb_false_r.
    replace (bool_decide (trustedCABundleParamName ∈ toggleNames))
      with true by done.
    simpl. by destruct (malformed val).
  - rewrite !(bool_decide_eq_false_2 (n = _)) by done.
    rewrite !orb_false_r. simpl.
    rewrite (bool_decide_eq_false_2 (n ∈ toggleNames)); [done|].
    rewrite toggleNames_cases. tauto.
Qed.

Lemma lastRbacValue_cons (v : Param) (rest : list Param) :
  lastRbacValue (v :: rest) =
  match lastRbacValue rest with
  | Some x => Some x
  | None => if bool_decide (paramName v = rbacParamName)
            then Some (paramValue v) else None
  end.
Proof.
  unfold lastRbacValue. case_bool_decide as Hn.
  - rewrite filter_cons_True by done. rewrite fmap_cons, last_cons.
    by destruct (last _).
  - rewrite filter_cons_False by done. by destruct (last _).
Qed.

Lemma setDefault_loop_spec (vars : setDefaultVars) (params : list Param) :
  setDefault_loop vars params =
  (mkVars (rbacParamFound vars || foundIn rbacParamName params)
          (legacyParamFound vars || foundIn legacyPipelineRbacParamName params)
          (caBundleParamFound vars || foundIn trustedCABundleParamName params)
          (default (createRbacResourceValue vars) (lastRbacValue params)),
   normalizeParam <$> params).
Proof.
  revert vars. induction params as [|v rest IH]; intros vars.
  - destruct vars. simpl. unfold foundIn. simpl.
    by rewrite !orb_false_r.
  - simpl. rewrite setDefault_step_spec, IH. simpl.
    rewrite lastRbacValue_cons.
    assert (Hf : ∀ n, foundIn n (v :: rest)
                      = bool_decide (paramName v = n) || foundIn n rest).
    { intros n. unfold foundIn. simpl.
      apply eq_true_iff_eq.
      rewrite orb_true_iff, !bool_decide_eq_true, elem_of_cons.
      split; (intros [?|?]; [left|right]); done. }
    rewrite !Hf, !orb_assoc. f_equal. f_equal.
    destruct (lastRbacValue rest); [done|]. by case_bool_decide.
Qed.

(** [setDefault], in closed form: every entry is normalized in place, then
    the missing toggles are appended in the order of the source. *)
Lemma setDefault_eq (params : list Param) :
  setDefault params =
  (normalizeParam <$> params)
  ++ (if foundIn rbacParamName params then []
      else [mkParam rbacParamName "true"])
  ++ (if foundIn legacyPipelineRbacParamName params then []
      else [mkParam legacyPipelineRbacParamName "true"])
  ++ (if foundIn trustedCABundleParamName params then []
      else [mkParam trustedCABundleParamName (caBundleDefault params)]).
Proof.
  unfold setDefault. rewrite setDefault_loop_spec. simpl.
  assert (Hd : (if foundIn rbacParamName params
                   && bool_decide (default "" (lastRbacValue params) = "false")
                then "false" else "true") = caBundleDefault params).
  { unfold caBundleDefault, foundIn, lastRbacValue.
    destruct (last _) as [x|] eqn:E; simpl.
    - assert (rbacParamName ∈ paramName <$> params) as Hin.
      { apply last_Some_elem_of in E.
        apply list_elem_of_fmap in E as (p & -> & Hp).
        apply list_elem_of_filter in Hp as [Hn Hp].
        apply list_elem_of_fmap. eauto. }
      rewrite bool_decide_eq_true_2 by done. simpl.
      repeat case_bool_decide; congruence.
    - by rewrite andb_false_r. }
  rewrite Hd.
  destruct (foundIn rbacParamName params),
           (foundIn legacyPipelineRbacParamName params),
           (foundIn trustedCABundleParamName params); simpl;
    rewrite <- ?app_assoc, ?app_nil_r; reflexivity.
Qed.

Lemma normalizeParam_name (p : Param) : paramName (normalizeParam p) = paramName p.
Proof. unfold normalizeParam. by destruct (_ && _). Qed.

Lemma malformed_false (v : string) :
  malformed v = false ↔ v = "true" ∨ v = "false".
Proof.
  unfold malformed. repeat case_bool_decide; simpl; split; intros; try done; auto.
  by destruct H1.
Qed.

Lemma normalizeParam_value (p : Param) :
  paramName p ∈ toggleNames →
  paramValue (normalizeParam p) = "true" ∨ paramValue (normalizeParam p) = "false".
Proof.
  intros Hn. unfold normalizeParam. rewrite bool_decide_eq_true_2 by done. simpl.
  destruct (malformed (paramValue p)) eqn:E; [by left|].
  by apply malformed_false.
Qed.

Lemma elem_of_setDefault (params : list Param) (q : Param) :
  q ∈ setDefault params ↔
  q ∈ normalizeParam <$> params
  ∨ (absent rbacParamName params ∧ q = mkParam rbacParamName "true")
  ∨ (absent legacyPipelineRbacParamName params
     ∧ q = mkParam legacyPipelineRbacParamName "true")
  ∨ (absent trustedCABundleParamName params
     ∧ q = mkParam trustedCABundleParamName (caBundleDefault params)).
Proof.
  rewrite setDefault_eq. unfold foundIn, absent.
  rewrite !elem_of_app.
  repeat case_bool_decide; rewrite ?elem_of_nil, ?list_elem_of_singleton; tauto.
Qed.

Lemma caBundleDefault_value (params : list Param) :
  caBundleDefault params = "true" ∨ caBundleDefault params = "false".
Proof. unfold caBundleDefault. case_bool_decide; auto. Qed.

(** C4, as the code has it. After [setDefault], each of the three toggles is
    present in [Params], and every entry bearing one of the three names has
    the value "true" or "false".  An entry present before the call keeps its
    place; its value is kept if it was "true" or "false" and becomes "true"
    otherwise.  An absent [createRbacResource] or [legacyPipelineRbac] is
    added with the value "true".  An absent [createCABundleConfigMaps] is
    added with the value "false" when the last [createRbacResource] entry of
    the input has the value "false", and with the value "true" otherwise. *)
Theorem setDefault_toggles (params : list Param) :
  (∀ name, name ∈ toggleNames →
     ∃ p, p ∈ setDefault params ∧ paramName p = name)
  ∧ (∀ p, p ∈ setDefault params → paramName p ∈ toggleNames →
       paramValue p = "true" ∨ paramValue p = "false")
  ∧ (∀ i p, params !! i = Some p →
       setDefault params !! i = Some (normalizeParam p))
  ∧ (∀ name, name = rbacParamName ∨ name = legacyPipelineRbacParamName →
       absent name params →
       ∀ p, p ∈ setDefault params → paramName p = name → paramValue p = "true")
  ∧ (absent trustedCABundleParamName params →
       ∀ p, p ∈ setDefault params → paramName p = trustedCABundleParamName →
            paramValue p = caBundleDefault params).
Proof.
  assert (Hnorm : ∀ name q, absent name params →
            q ∈ normalizeParam <$> params → paramName q ≠ name).
  { intros name q Habs Hq Hn. apply Habs.
    apply list_elem_of_fmap in Hq as (p & -> & Hp).
    rewrite normalizeParam_name in Hn. subst name.
    apply list_elem_of_fmap. eauto. }
  split; [|split; [|split; [|split]]].
  - intros name Hname.
    destruct (decide (name ∈ paramName <$> params)) as [Hin|Hout].
    + apply list_elem_of_fmap in Hin as (p & -> & Hp).
      exists (normalizeParam p). split; [|apply normalizeParam_name].
      apply elem_of_setDefault. left. apply list_elem_of_fmap. eauto.
    + apply toggleNames_cases in Hname as [-> | [-> | ->] ].
      * exists (mkParam rbacParamName "true"). split; [|done].
        apply elem_of_setDefault. right. left. done.
      * exists (mkParam legacyPipelineRbacParamName "true"). split; [|done].
        apply elem_of_setDefault. right. right. left. done.
      * exists (mkParam trustedCABundleParamName (caBundleDefault params)).
        split; [|done].
        apply elem_of_setDefault. right. right. right. done.
  - intros q Hq Hname.
    apply elem_of_setDefault in Hq as [Hq|[(_ & ->)|[(_ & ->)|(_ & ->)]]]; auto.
    + apply list_elem_of_fmap in Hq as (p & -> & Hp).
      rewrite normalizeParam_name in Hname. by apply normalizeParam_value.
    + apply caBundleDefault_value.
  - intros i p Hi. rewrite setDefault_eq.
    rewrite lookup_app_l.
    + by rewrite list_lookup_fmap, Hi.
    + rewrite length_fmap. by apply lookup_lt_Some in Hi.
  - intros name Hname Habs q Hq Hn.
    apply elem_of_setDefault in Hq as [Hq|[(_ & ->)|[(_ & ->)|(_ & ->)]]]; try done.
    + by destruct (Hnorm name q Habs Hq).
    + simpl in Hn. subst name. by destruct Hname.
  - intros Habs q Hq Hn.
    apply elem_of_setDefault in Hq as [Hq|[(_ & ->)|[(_ & ->)|(_ & ->)]]]; try done.
    by destruct (Hnorm _ q Habs Hq).
Qed.

(** Witness: [createRbacResource] is malformed and the two other toggles are
    absent. *)
Lemma setDefault_toggles_witness :
  let params := [mkParam rbacParamName "yes"; mkParam "other" "x"] in
  absent trustedCABundleParamName params
  ∧ mkParam trustedCABundleParamName "true" ∈ setDefault params
  ∧ paramValue (mkParam trustedCABundleParamName "true") = caBundleDefault params.
Proof.
  intros params.
  assert (Habs : absent trustedCABundleParamName params).
  { unfold absent, params. simpl. rewrite !elem_of_cons, elem_of_nil.
    intros [H|[H|[]]]; discriminate H. }
  assert (Hin : mkParam trustedCABundleParamName "true" ∈ setDefault params).
  { vm_compute. do 3 apply list_elem_of_further. apply list_elem_of_here. }
  split; [exact Habs|split; [exact Hin|]].
  exact (proj2 (proj2 (proj2 (proj2 (setDefault_toggles params))))
           Habs _ Hin eq_refl).
Defined.

(** C4, as the spec has it, fails: with [createRbacResource] set to "false"
    and [createCABundleConfigMaps] absent, the latter is defaulted to "false",
    not to "true". *)
Lemma setDefault_caBundle_default_false :
  let params := [mkParam rbacParamName "false"] in
  absent trustedCABundleParamName params
  ∧ setDefault params = [mkParam rbacParamName "false";
                         mkParam legacyPipelineRbacParamName "true";
                         mkParam trustedCABundleParamName "false"]
  ∧ mkParam trustedCABundleParamName "true" ∉ setDefault params.
Proof.
  intros params. split; [|split].
  - unfold absent, params. simpl. rewrite elem_of_cons, elem_of_nil.
    intros [H|[]]; discriminate H.
  - vm_compute. reflexivity.
  - replace (setDefault params) with
      [mkParam rbacParamName "false"; mkParam legacyPipelineRbacParamName "true";
       mkParam trustedCABundleParamName "false"] by (vm_compute; reflexivity).
    rewrite !elem_of_cons, elem_of_nil.
    intros [H|[H|[H|[]]]]; discriminate H.
Qed.

(** ** The pruning loop *)

Section Prune.
Variable nsMap : gmap string string.

#[local] Abbreviation live := (live nsMap).


Lemma pruneLoop_done i subjects update :
  ¬ i < length subjects → pruneLoop nsMap i subjects update = (subjects, update).
Proof.
  intros H. rewrite pruneLoop_equation_1.
  destruct (decide _); [done|]. apply pruneLoop_clause_1_equation_2.
Qed.

Lemma pruneLoop_step i subjects update x :
  subjects !! i = Some x →
  pruneLoop nsMap i subjects update =
  if negb (size nsMap =? length subjects)%nat && negb (bool_decide (live x))
  then pruneLoop nsMap (S i) (removeIndex subjects i) true
  else pruneLoop nsMap (S i) subjects update.
Proof.
  intros Hx. pose proof (lookup_lt_Some _ _ _ Hx) as Hlt.
  rewrite (pruneLoop_equation_1 nsMap i).
  destruct (decide _) as [?|?]; [|done].
  rewrite pruneLoop_clause_1_equation_1.
  rewrite Hx. simpl.
  destruct (negb (size nsMap =? _)%nat); reflexivity.
Qed.

(** The loop at index [length pre], on the slice [pre ++ suf]. *)
Lemma pruneLoop_app pre suf update :
  pruneLoop nsMap (length pre) (pre ++ suf) update =
  match suf with
  | [] => (pre, update)
  | x :: rest =>
      if negb (size nsMap =? length (pre ++ suf))%nat && negb (bool_decide (live x))
      then pruneLoop nsMap (S (length pre)) (pre ++ rest) true
      else pruneLoop nsMap (S (length pre)) (pre ++ suf) update
  end.
Proof.
  destruct suf as [|x rest].
  - rewrite app_nil_r. apply pruneLoop_done. lia.
  - rewrite (pruneLoop_step _ _ _ x) by (by rewrite list_lookup_middle).
    unfold removeIndex. by rewrite remove_middle.
Qed.

Lemma pruneLoop_snoc pre y rest update :
  pruneLoop nsMap (S (length pre)) (pre ++ y :: rest) update
  = pruneLoop nsMap (length (pre ++ [y])) ((pre ++ [y]) ++ rest) update.
Proof.
  rewrite length_app, <- app_assoc. simpl. f_equal. lia.
Qed.

Lemma bool_decide_ne_refl (r : list Subject) : bool_decide (r ≠ r) = false.
Proof. by apply bool_decide_eq_false_2; intros H. Qed.

(** What any run of the loop guarantees: the slice below the start index is
    untouched; the rest is thinned out, keeping every live subject; and
    [update] is raised exactly when something was removed. *)
Lemma pruneLoop_shape (n : nat) : ∀ (suf pre : list Subject) (update : bool),
  (length suf ≤ n)%nat →
  ∃ r, pruneLoop nsMap (length pre) (pre ++ suf) update
       = (pre ++ r, update || bool_decide (r ≠ suf))
       ∧ sublist r suf
       ∧ filter live r = filter live suf.
Proof.
  induction n as [|n IH]; intros suf pre update Hlen.
  - destruct suf; [|simpl in Hlen; lia].
    exists []. rewrite pruneLoop_app, app_nil_r, bool_decide_ne_refl, orb_false_r.
    done.
  - rewrite pruneLoop_app. destruct suf as [|x rest].
    { exists []. rewrite app_nil_r, bool_decide_ne_refl, orb_false_r. done. }
    simpl in Hlen.
    destruct (negb (size nsMap =? _)%nat && negb (bool_decide (live x))) eqn:E.
    + apply andb_true_iff in E as [_ Hx].
      apply negb_true_iff, bool_decide_eq_false in Hx.
      destruct rest as [|y rest].
      * exists []. rewrite app_nil_r, pruneLoop_done by lia.
        rewrite (bool_decide_eq_true_2 ([] ≠ [x])), orb_true_r by done.
        split; [done|]. split; [apply sublist_nil_l|].
        by rewrite filter_cons_False.
      * simpl in Hlen. rewrite pruneLoop_snoc.
        destruct (IH rest (pre ++ [y]) true) as (r & -> & Hsub & Hf); [lia|].
        exists (y :: r). rewrite <- app_assoc. simpl.
        split; [f_equal|split].
        -- rewrite bool_decide_eq_true_2; [by rewrite orb_true_r|].
           intros Heq. apply sublist_length in Hsub.
           apply (f_equal length) in Heq. simpl in Heq. lia.
        -- apply sublist_cons. by apply sublist_skip.
        -- rewrite (filter_cons_False _ x) by done.
           rewrite !(filter_cons _ y). by rewrite Hf.
    + rewrite pruneLoop_snoc.
      destruct (IH rest (pre ++ [x]) update) as (r & -> & Hsub & Hf); [lia|].
      exists (x :: r). rewrite <- app_assoc. simpl.
      split; [f_equal|split].
      * f_equal. apply bool_decide_ext. split; [congruence|].
        intros Hne Heq. by subst.
      * by apply sublist_skip.
      * rewrite !(filter_cons _ x). by rewrite Hf.
Qed.
End Prune.

(** * Frame properties of the reconciler *)

Lemma preserves_ret {A} (R : Cluster → Cluster → Prop) (a : A) :
  (∀ c, R c c) → preserves R (ret a).
Proof. intros HR c. apply HR. Qed.

Lemma preserves_bind {A B} (R : Cluster → Cluster → Prop) (m : M A) (k : A → M B) :
  (∀ c1 c2 c3, R c1 c2 → R c2 c3 → R c1 c3) →
  preserves R m → (∀ a, preserves R (k a)) → preserves R (bind m k).
Proof.
  intros HT Hm Hk c. unfold bind. specialize (Hm c).
  destruct (m c) as [a c'] eqn:E. simpl in Hm.
  eapply HT; [exact Hm|]. apply Hk.
Qed.

Lemma framed_refl (R : Cluster → Cluster → Prop) : frameOK R → ∀ c, R c c.
Proof. intros HR. apply HR. Qed.

Lemma framed_trans (R : Cluster → Cluster → Prop) :
  frameOK R → ∀ c1 c2 c3, R c1 c2 → R c2 c3 → R c1 c3.
Proof. intros HR. apply HR. Qed.

Create HintDb frame discriminated.

Ltac frame_step :=
  match goal with
  | |- preserves _ (ret _) =>
      apply preserves_ret; eapply framed_refl; solve [eauto with frame]
  | |- preserves _ (bind _ _) =>
      apply preserves_bind;
      [eapply framed_trans; solve [eauto with frame]| |intros]
  | |- preserves _ (match ?x with _ => _ end) => destruct x
  | |- preserves _ _ => solve [eauto with frame]
  end.

Ltac frame := repeat frame_step.

Section Frame.
Variable R : Cluster → Cluster → Prop.
Hypothesis HR : frameOK R.


Section ClientFrame.
Context {K V : Type} `{Countable K}.
Variable kind : Kind.
Variable get : Cluster → gmap K V.
Variable set : (gmap K V → gmap K V) → Cluster → Cluster.
Variable key : V → K.
Variable namespaceOf nameOf : K → string.
Variable named : K → V → V.
Hypothesis Hset : ∀ f c, R c (set f c).

Lemma clientGet_frame k : preserves R (clientGet kind get nameOf named k).
Proof.
  intros c. unfold clientGet. destruct (get c !! k); apply (frame_refl R HR).
Qed.

Lemma clientCreate_frame v :
  preserves R (clientCreate kind get set key namespaceOf nameOf v).
Proof.
  intros c. unfold clientCreate. destruct (get _ !! _); simpl.
  - apply (frame_record R HR).
  - eapply (frame_trans R HR); [apply (frame_record R HR)|apply Hset].
Qed.

Lemma clientUpdate_frame v :
  preserves R (clientUpdate kind get set key namespaceOf nameOf v).
Proof.
  intros c. unfold clientUpdate. destruct (get _ !! _); simpl.
  - eapply (frame_trans R HR); [apply (frame_record R HR)|apply Hset].
  - apply (frame_record R HR).
Qed.

Lemma clientDelete_frame k :
  preserves R (clientDelete kind get set namespaceOf nameOf k).
Proof.
  intros c. unfold clientDelete. destruct (get _ !! _); simpl.
  - eapply (frame_trans R HR); [apply (frame_record R HR)|apply Hset].
  - apply (frame_record R HR).
Qed.
End ClientFrame.

Lemma ServiceAccounts_Get_frame ns name : preserves R (ServiceAccounts_Get ns name).
Proof. apply clientGet_frame. Qed.
Lemma ServiceAccounts_Create_frame sa : preserves R (ServiceAccounts_Create sa).
Proof. apply clientCreate_frame, (frame_serviceAccounts R HR). Qed.
Lemma ServiceAccounts_Update_frame sa : preserves R (ServiceAccounts_Update sa).
Proof. apply clientUpdate_frame, (frame_serviceAccounts R HR). Qed.
Lemma Roles_Get_frame ns name : preserves R (Roles_Get ns name).
Proof. apply clientGet_frame. Qed.
Lemma Roles_Create_frame role : preserves R (Roles_Create role).
Proof. apply clientCreate_frame, (frame_roles R HR). Qed.
Lemma Roles_Update_frame role : preserves R (Roles_Update role).
Proof. apply clientUpdate_frame, (frame_roles R HR). Qed.
Lemma Roles_Delete_frame ns name : preserves R (Roles_Delete ns name).
Proof. apply clientDelete_frame, (frame_roles R HR). Qed.
Lemma ClusterRoles_Get_frame name : preserves R (ClusterRoles_Get name).
Proof. apply clientGet_frame. Qed.
Lemma ClusterRoles_Create_frame cr : preserves R (ClusterRoles_Create cr).
Proof. apply clientCreate_frame, (frame_clusterRoles R HR). Qed.
Lemma ClusterRoles_Update_frame cr : preserves R (ClusterRoles_Update cr).
Proof. apply clientUpdate_frame, (frame_clusterRoles R HR). Qed.
Lemma RoleBindings_Get_frame ns name : preserves R (RoleBindings_Get ns name).
Proof. apply clientGet_frame. Qed.
Lemma RoleBindings_Create_frame rb : preserves R (RoleBindings_Create rb).
Proof. apply clientCreate_frame, (frame_roleBindings R HR). Qed.
Lemma RoleBindings_Update_frame rb : preserves R (RoleBindings_Update rb).
Proof. apply clientUpdate_frame, (frame_roleBindings R HR). Qed.
Lemma RoleBindings_Delete_frame ns name : preserves R (RoleBindings_Delete ns name).
Proof. apply clientDelete_frame, (frame_roleBindings R HR). Qed.
Lemma ClusterRoleBindings_Get_frame name : preserves R (ClusterRoleBindings_Get name).
Proof. apply clientGet_frame. Qed.
Lemma ClusterRoleBindings_Create_frame crb : preserves R (ClusterRoleBindings_Create crb).
Proof. apply clientCreate_frame, (frame_clusterRoleBindings R HR). Qed.
Lemma ClusterRoleBindings_Update_frame crb : preserves R (ClusterRoleBindings_Update crb).
Proof. apply clientUpdate_frame, (frame_clusterRoleBindings R HR). Qed.
Lemma ConfigMaps_Get_frame ns name : preserves R (ConfigMaps_Get ns name).
Proof. apply clientGet_frame. Qed.
Lemma ConfigMaps_Create_frame cm : preserves R (ConfigMaps_Create cm).
Proof. apply clientCreate_frame, (frame_configMaps R HR). Qed.
Lemma ConfigMaps_Update_frame cm : preserves R (ConfigMaps_Update cm).
Proof. apply clientUpdate_frame, (frame_configMaps R HR). Qed.
Lemma TektonInstallerSets_Delete_frame name :
  preserves R (TektonInstallerSets_Delete name).
Proof. apply clientDelete_frame, (frame_installerSets R HR). Qed.

Lemma Events_Create_frame ev : preserves R (Events_Create ev).
Proof.
  intros c. unfold Events_Create. simpl.
  eapply (frame_trans R HR); [apply (frame_record R HR)|apply (frame_events R HR)].
Qed.

Lemma Namespaces_List_frame : preserves R Namespaces_List.
Proof. intros c. apply (frame_refl R HR). Qed.

Lemma Namespaces_ListSelector_frame key value :
  preserves R (Namespaces_ListSelector key value).
Proof. intros c. apply (frame_refl R HR). Qed.

Lemma VerifySCCExists_frame scc : preserves R (VerifySCCExists scc).
Proof. intros c. apply (frame_refl R HR). Qed.

Lemma GetSCCRestrictiveList_frame : preserves R GetSCCRestrictiveList.
Proof. intros c. apply (frame_refl R HR). Qed.

Lemma checkIfInstallerSetExist_frame v tc : preserves R (checkIfInstallerSetExist v tc).
Proof.
  intros c. unfold checkIfInstallerSetExist.
  destruct (installerSets c !! _); [case_bool_decide|]; apply (frame_refl R HR).
Qed.

Lemma createInstallerSet_frame tc v : preserves R (createInstallerSet tc v).
Proof.
  intros c. unfold createInstallerSet. simpl.
  eapply (frame_trans R HR);
    [apply (frame_record R HR)|apply (frame_installerSets R HR)].
Qed.

#[local] Hint Resolve
  ServiceAccounts_Get_frame ServiceAccounts_Create_frame ServiceAccounts_Update_frame
  Roles_Get_frame Roles_Create_frame Roles_Update_frame Roles_Delete_frame
  ClusterRoles_Get_frame ClusterRoles_Create_frame ClusterRoles_Update_frame
  RoleBindings_Get_frame RoleBindings_Create_frame RoleBindings_Update_frame
  RoleBindings_Delete_frame ClusterRoleBindings_Get_frame
  ClusterRoleBindings_Create_frame ClusterRoleBindings_Update_frame
  ConfigMaps_Get_frame ConfigMaps_Create_frame ConfigMaps_Update_frame
  TektonInstallerSets_Delete_frame Events_Create_frame Namespaces_List_frame
  Namespaces_ListSelector_frame VerifySCCExists_frame GetSCCRestrictiveList_frame
  checkIfInstallerSetExist_frame createInstallerSet_frame : frame.

Lemma removeObsoleteRBACInstallerSet_frame : preserves R removeObsoleteRBACInstallerSet.
Proof. unfold removeObsoleteRBACInstallerSet. frame. Qed.

Lemma ensurePipelinesSCClusterRole_frame r : preserves R (ensurePipelinesSCClusterRole r).
Proof. unfold ensurePipelinesSCClusterRole. frame. Qed.

Lemma getNamespacesToBeReconciled_loop_frame r items result :
  preserves R (getNamespacesToBeReconciled_loop r items result).
Proof.
  revert result. induction items as [|ns rest IH]; intros result; simpl; frame.
Qed.

#[local] Hint Resolve removeObsoleteRBACInstallerSet_frame
  ensurePipelinesSCClusterRole_frame getNamespacesToBeReconciled_loop_frame : frame.

Lemma getNamespacesToBeReconciled_frame r : preserves R (getNamespacesToBeReconciled r).
Proof. unfold getNamespacesToBeReconciled. frame. Qed.

Lemma createSCCFailureEventInNamespace_frame r namespace scc : preserves R (createSCCFailureEventInNamespace r namespace scc).
Proof. unfold createSCCFailureEventInNamespace. frame. Qed.
#[local] Hint Resolve createSCCFailureEventInNamespace_frame : frame.

Lemma ensureSCCRoleInNamespace_frame r namespace scc : preserves R (ensureSCCRoleInNamespace r namespace scc).
Proof. unfold ensureSCCRoleInNamespace. frame. Qed.
#[local] Hint Resolve ensureSCCRoleInNamespace_frame : frame.

Lemma handleSCCInNamespace_frame r ns : preserves R (handleSCCInNamespace r ns).
Proof. unfold handleSCCInNamespace. frame. Qed.
#[local] Hint Resolve handleSCCInNamespace_frame : frame.

Lemma createSA_frame ns tc : preserves R (createSA ns tc).
Proof. unfold createSA. frame. Qed.
#[local] Hint Resolve createSA_frame : frame.

Lemma ensureSA_frame r ns : preserves R (ensureSA r ns).
Proof. unfold ensureSA. frame. Qed.
#[local] Hint Resolve ensureSA_frame : frame.

Lemma createSCCRoleBinding_frame r sa roleRef : preserves R (createSCCRoleBinding r sa roleRef).
Proof. unfold createSCCRoleBinding. frame. Qed.
#[local] Hint Resolve createSCCRoleBinding_frame : frame.

Lemma updateRoleBinding_frame r rb sa roleRef : preserves R (updateRoleBinding r rb sa roleRef).
Proof. unfold updateRoleBinding. frame. Qed.
#[local] Hint Resolve updateRoleBinding_frame : frame.

Lemma ensurePipelinesSCCRoleBinding_frame r sa roleRef : preserves R (ensurePipelinesSCCRoleBinding r sa roleRef).
Proof. unfold ensurePipelinesSCCRoleBinding. frame. Qed.
#[local] Hint Resolve ensurePipelinesSCCRoleBinding_frame : frame.

Lemma createRoleBinding_frame r sa : preserves R (createRoleBinding r sa).
Proof. unfold createRoleBinding. frame. Qed.
#[local] Hint Resolve createRoleBinding_frame : frame.

Lemma ensureRoleBindings_frame r sa : preserves R (ensureRoleBindings r sa).
Proof. unfold ensureRoleBindings. frame. Qed.
#[local] Hint Resolve ensureRoleBindings_frame : frame.

Lemma processRBAC_frame r ns : preserves R (processRBAC r ns).
Proof. unfold processRBAC. frame. Qed.
#[local] Hint Resolve processRBAC_frame : frame.

Lemma removeAndUpdateNSFromCI_frame r : preserves R (removeAndUpdateNSFromCI r).
Proof. unfold removeAndUpdateNSFromCI. frame. Qed.
#[local] Hint Resolve removeAndUpdateNSFromCI_frame : frame.

Lemma createClusterRole_frame r : preserves R (createClusterRole r).
Proof. unfold createClusterRole. frame. Qed.
#[local] Hint Resolve createClusterRole_frame : frame.

Lemma bulkUpdateClusterRoleBinding_frame r rb subjectlist : preserves R (bulkUpdateClusterRoleBinding r rb subjectlist).
Proof. unfold bulkUpdateClusterRoleBinding. frame. Qed.
#[local] Hint Resolve bulkUpdateClusterRoleBinding_frame : frame.

Lemma bulkCreateClusterRoleBinding_frame r subjectlist : preserves R (bulkCreateClusterRoleBinding r subjectlist).
Proof. unfold bulkCreateClusterRoleBinding. frame. Qed.
#[local] Hint Resolve bulkCreateClusterRoleBinding_frame : frame.

Lemma handleClusterRoleBinding_frame r namespacesToUpdate : preserves R (handleClusterRoleBinding r namespacesToUpdate).
Proof. unfold handleClusterRoleBinding. frame. Qed.
#[local] Hint Resolve handleClusterRoleBinding_frame : frame.

Lemma createCABundleConfigMaps_frame name ns : preserves R (createCABundleConfigMaps name ns).
Proof. unfold createCABundleConfigMaps. frame. Qed.
#[local] Hint Resolve createCABundleConfigMaps_frame : frame.

Lemma createServiceCABundleConfigMap_frame name ns : preserves R (createServiceCABundleConfigMap name ns).
Proof. unfold createServiceCABundleConfigMap. frame. Qed.
#[local] Hint Resolve createServiceCABundleConfigMap_frame : frame.

Lemma ensureCABundle_frame ns name create :
  (∀ a b, preserves R (create a b)) → preserves R (ensureCABundle ns name create).
Proof. intros Hc. unfold ensureCABundle. frame. Qed.

Lemma ensureCABundles_frame ns : preserves R (ensureCABundles ns).
Proof.
  unfold ensureCABundles.
  pose proof (ensureCABundle_frame ns trustedCABundleConfigMap _
                createCABundleConfigMaps_frame).
  pose proof (ensureCABundle_frame ns serviceCABundleConfigMap _
                createServiceCABundleConfigMap_frame).
  frame.
Qed.
#[local] Hint Resolve ensureCABundles_frame : frame.

Lemma ensureCABundlesInNamespace_frame ns : preserves R (ensureCABundlesInNamespace ns).
Proof. unfold ensureCABundlesInNamespace. frame. Qed.

Lemma processNamespaces_frame r nss acc : preserves R (processNamespaces r nss acc).
Proof. revert acc. induction nss as [|ns rest IH]; intros acc; simpl; frame. Qed.
End Frame.

#[global] Hint Resolve
  ServiceAccounts_Get_frame
  ServiceAccounts_Create_frame
  ServiceAccounts_Update_frame
  Roles_Get_frame
  Roles_Create_frame
  Roles_Update_frame
  Roles_Delete_frame
  ClusterRoles_Get_frame
  ClusterRoles_Create_frame
  ClusterRoles_Update_frame
  RoleBindings_Get_frame
  RoleBindings_Create_frame
  RoleBindings_Update_frame
  RoleBindings_Delete_frame
  ClusterRoleBindings_Get_frame
  ClusterRoleBindings_Create_frame
  ClusterRoleBindings_Update_frame
  ConfigMaps_Get_frame
  ConfigMaps_Create_frame
  ConfigMaps_Update_frame
  TektonInstallerSets_Delete_frame
  Events_Create_frame
  Namespaces_List_frame
  Namespaces_ListSelector_frame
  VerifySCCExists_frame
  GetSCCRestrictiveList_frame
  checkIfInstallerSetExist_frame
  createInstallerSet_frame
  removeObsoleteRBACInstallerSet_frame
  ensurePipelinesSCClusterRole_frame
  getNamespacesToBeReconciled_loop_frame
  getNamespacesToBeReconciled_frame
  createSCCFailureEventInNamespace_frame
  ensureSCCRoleInNamespace_frame
  handleSCCInNamespace_frame
  createSA_frame
  ensureSA_frame
  createSCCRoleBinding_frame
  updateRoleBinding_frame
  ensurePipelinesSCCRoleBinding_frame
  createRoleBinding_frame
  ensureRoleBindings_frame
  processRBAC_frame
  removeAndUpdateNSFromCI_frame
  createClusterRole_frame
  bulkUpdateClusterRoleBinding_frame
  bulkCreateClusterRoleBinding_frame
  handleClusterRoleBinding_frame
  createCABundleConfigMaps_frame
  createServiceCABundleConfigMap_frame
  ensureCABundles_frame
  ensureCABundlesInNamespace_frame
  processNamespaces_frame : frame.

(** * Per-namespace failures *)

Lemma labelFrame_ok (name : string) : frameOK (labelFrame name).
Proof.
  split; unfold labelFrame; try (intros; split; reflexivity).
  intros c1 c2 c3 [H1 H2] [H3 H4]. split; congruence.
Qed.

Lemma untouched_ok : frameOK untouched.
Proof.
  split; unfold untouched; try (intros; split; reflexivity).
  intros c1 c2 c3 [H1 H2] [H3 H4]. split; congruence.
Qed.

Lemma sccIndex_Some_elem_of (prio : list string) (scc : string) (i : nat) :
  sccIndex prio scc = Some i → scc ∈ prio.
Proof.
  revert i. induction prio as [|name rest IH]; intros i; simpl; [done|].
  case_bool_decide as Hn.
  - intros _. subst. apply list_elem_of_here.
  - destruct (sccIndex rest scc) eqn:E; [|done].
    intros _. apply list_elem_of_further. eauto.
Qed.

Lemma elem_of_sccIndex (prio : list string) (scc : string) :
  scc ∈ prio → is_Some (sccIndex prio scc).
Proof.
  induction prio as [|name rest IH]; simpl; [by rewrite elem_of_nil|].
  rewrite elem_of_cons. intros Hin. case_bool_decide as Hn; [eauto|].
  destruct Hin as [->|Hin]; [done|].
  destruct (IH Hin) as [i ->]. simpl. eauto.
Qed.

#[global] Hint Resolve labelFrame_ok untouched_ok : frame.

(** A request above the ceiling makes [handleSCCInNamespace] fail. *)
Lemma handleSCCInNamespace_violation (r : rbac) (ns : Namespace) (c : Cluster) :
  violatesCeiling r c ns → is_Some (handleSCCInNamespace r ns c).1.
Proof.
  intros (Hreq & Hmax & i & j & Hi & Hj & Hlt).
  unfold handleSCCInNamespace.
  rewrite bool_decide_eq_false_2 by done.
  unfold bind at 1. unfold VerifySCCExists at 1.
  rewrite bool_decide_eq_true_2 by (by eapply sccIndex_Some_elem_of).
  rewrite (bool_decide_eq_false_2 (sccMaxAllowed _ = "")) by done. simpl.
  unfold bind, GetSCCRestrictiveList, SCCAMoreRestrictiveThanB. simpl.
  rewrite Hi, Hj.
  replace (j <=? i)%nat with false by (symmetry; apply Nat.leb_gt; lia).
  simpl. eauto.
Qed.

(** [processRBAC] fails on a namespace that requests a policy
    above the ceiling, whatever the cluster holds otherwise. *)
Lemma processRBAC_violation (r : rbac) (ns : Namespace) (c : Cluster) :
  violatesCeiling r c ns →
  ∃ e, (processRBAC r ns c).1 = (None, Some e).
Proof.
  intros Hv. unfold processRBAC. unfold bind at 1.
  pose proof (ensureSA_frame _ untouched_ok r ns c) as [_ Hs].
  destruct (ensureSA r ns c) as [[sa err] c1]. simpl in Hs.
  destruct err as [e|]; [simpl; eauto|].
  destruct sa as [sa|]; [|simpl; eauto].
  unfold bind at 1.
  assert (Hv1 : violatesCeiling r c1 ns).
  { unfold violatesCeiling in *. by rewrite Hs. }
  apply handleSCCInNamespace_violation in Hv1 as [e He].
  destruct (handleSCCInNamespace r ns c1) as [err c2]. simpl in He. subst err.
  simpl. eauto.
Qed.

Lemma processRBAC_namespace (r : rbac) (ns : Namespace) (c : Cluster) nsSA err :
  (processRBAC r ns c).1 = (Some nsSA, err) → nsaNamespace nsSA = ns.
Proof.
  unfold processRBAC, bind.
  destruct (ensureSA r ns c) as [[sa e1] c1].
  destruct e1; [discriminate|]. destruct sa; [|discriminate].
  destruct (handleSCCInNamespace r ns c1) as [e2 c2].
  destruct e2; [discriminate|].
  destruct (ensurePipelinesSCCRoleBinding _ _ _ c2) as [e3 c3].
  destruct e3; [discriminate|].
  destruct (ensureRoleBindings _ _ c3) as [e4 c4].
  destruct e4; [discriminate|].
  simpl. by intros [= <- _].
Qed.

(** The namespaces the loop of step 4 collects are among those it was given
    or had collected, and none of them requests a policy above the
    ceiling. *)
Lemma processNamespaces_collects (r : rbac) (nss : list Namespace) :
  ∀ (acc : list NamespaceServiceAccount) (c : Cluster) (nsSA : NamespaceServiceAccount),
  nsSA ∈ (processNamespaces r nss acc c).1 →
  nsSA ∈ acc
  ∨ (nsaNamespace nsSA ∈ nss ∧ ¬ violatesCeiling r c (nsaNamespace nsSA)).
Proof.
  induction nss as [|ns rest IH]; intros acc c nsSA; simpl; [by left|].
  unfold bind.
  pose proof (processRBAC_frame _ untouched_ok r ns c) as [_ Hs].
  destruct (processRBAC r ns c) as [[res err] c1] eqn:E. simpl in Hs.
  assert (Hviol : ∀ n, violatesCeiling r c1 n ↔ violatesCeiling r c n).
  { intros n. unfold violatesCeiling. by rewrite Hs. }
  assert (Hrest : nsSA ∈ (processNamespaces r rest acc c1).1 →
            nsSA ∈ acc ∨ nsaNamespace nsSA ∈ ns :: rest
                           ∧ ¬ violatesCeiling r c (nsaNamespace nsSA)).
  { intros Hin. apply IH in Hin as [Hin|[Hin Hn]]; [by left|right].
    split; [by apply list_elem_of_further|]. by rewrite <- Hviol. }
  destruct err as [e|]; [done|]. destruct res as [res|]; [|done].
  intros Hin. apply IH in Hin as [Hin|[Hin Hn]].
  - apply elem_of_app in Hin as [Hin|Hin]; [by left|right].
    apply list_elem_of_singleton in Hin. subst nsSA.
    assert (Hns : nsaNamespace res = ns).
    { eapply (processRBAC_namespace r ns c). by rewrite E. }
    rewrite Hns. split; [apply list_elem_of_here|].
    intros Hv. apply processRBAC_violation in Hv as [e He].
    rewrite E in He. discriminate He.
  - right. split; [by apply list_elem_of_further|]. by rewrite <- Hviol.
Qed.

(** * The version gate *)

Lemma elem_of_listed (c : Cluster) (n : Namespace) :
  n ∈ listed c ↔ ∃ ns, namespaces c !! nsName n = Some ns ∧ n = listedAs (nsName n) ns.
Proof.
  unfold listed. rewrite list_elem_of_fmap. split.
  - intros ([k ns] & -> & Hin). apply elem_of_map_to_list in Hin. simpl. eauto.
  - intros (ns & Hns & Hn). exists (nsName n, ns). split; [done|].
    by apply elem_of_map_to_list.
Qed.

Lemma listed_names (c : Cluster) : nsName <$> listed c = (map_to_list (namespaces c)).*1.
Proof.
  unfold listed. rewrite <- list_fmap_compose. apply list_fmap_ext.
  by intros i [k ns] _.
Qed.

Lemma NoDup_listed_names (c : Cluster) : NoDup (nsName <$> listed c).
Proof. rewrite listed_names. apply NoDup_fst_map_to_list. Qed.

Lemma NoDup_labeledNamespaces (v : string) (c : Cluster) :
  NoDup (labeledNamespaces v c).
Proof.
  unfold labeledNamespaces. pose proof (NoDup_listed_names c) as Hnd.
  induction (listed c) as [|n l IH]; simpl; [constructor|].
  simpl in Hnd. apply NoDup_cons in Hnd as [Hn Hl].
  destruct (decide (nsLabels n !! namespaceVersionLabel = Some v)).
  - rewrite filter_cons_True by done. simpl. apply NoDup_cons. split; [|auto].
    intros Hin. apply Hn. apply list_elem_of_fmap in Hin as (m & -> & Hm).
    apply list_elem_of_filter in Hm as [_ Hm]. apply list_elem_of_fmap. eauto.
  - rewrite filter_cons_False by done. auto.
Qed.

Lemma elem_of_labeledNamespaces (v : string) (c : Cluster) (name : string) :
  name ∈ labeledNamespaces v c ↔ rbacLabelAt name c = Some v.
Proof.
  unfold labeledNamespaces, rbacLabelAt. rewrite list_elem_of_fmap. split.
  - intros (n & -> & Hn). apply list_elem_of_filter in Hn as [Hl Hn].
    apply elem_of_listed in Hn as (ns & -> & Heq). simpl.
    rewrite Heq in Hl. done.
  - destruct (namespaces c !! name) as [ns|] eqn:E; [|done]. simpl. intros Hl.
    exists (listedAs name ns). split; [done|].
    apply list_elem_of_filter. split; [done|].
    apply elem_of_listed. simpl. eauto.
Qed.

Lemma cleanUp_loop_cons (n : Namespace) (rest : list Namespace) (c : Cluster) :
  is_Some (namespaces c !! nsName n) →
  cleanUp_loop (n :: rest) c
  = cleanUp_loop rest
      (set_namespaces (insert (nsName n) (unlabeled n))
         (record (CallUpdate KNamespace "" (nsName n)) c)).
Proof.
  intros [stored Hstored]. simpl.
  unfold bind, Namespaces_Update, clientUpdate. simpl. unfold theName.
  by rewrite Hstored.
Qed.

Lemma cleanUp_loop_spec (items : list Namespace) : ∀ c : Cluster,
  (∀ n, n ∈ items → is_Some (namespaces c !! nsName n)) →
  NoDup (nsName <$> items) →
  (cleanUp_loop items c).1 = None
  ∧ (∀ n, n ∈ items →
       namespaces (cleanUp_loop items c).2 !! nsName n = Some (unlabeled n))
  ∧ (∀ k, k ∉ nsName <$> items →
       namespaces (cleanUp_loop items c).2 !! k = namespaces c !! k)
  ∧ sameWorkloads c (cleanUp_loop items c).2
  ∧ installerSets (cleanUp_loop items c).2 = installerSets c
  ∧ sccs (cleanUp_loop items c).2 = sccs c.
Proof.
  induction items as [|n rest IH]; intros c Hpres Hnd.
  - simpl. unfold sameWorkloads. repeat split; try done.
    intros n Hn. by apply elem_of_nil in Hn.
  - simpl in Hnd. apply NoDup_cons in Hnd as [Hn Hrest].
    rewrite cleanUp_loop_cons by (apply Hpres, list_elem_of_here).
    set (c1 := set_namespaces _ _).
    assert (Hns1 : namespaces c1 = <[nsName n := unlabeled n]> (namespaces c))
      by reflexivity.
    destruct (IH c1) as (H1 & H2 & H3 & H4 & H5 & H6); [|done|].
    { intros m Hm. rewrite Hns1.
      destruct (decide (nsName n = nsName m)) as [->|Hne].
      - rewrite lookup_insert_eq. eauto.
      - rewrite lookup_insert_ne by done. apply Hpres.
        by apply list_elem_of_further. }
    split; [done|]. split; [|split; [|split; [|split]]].
    + intros m Hm. apply elem_of_cons in Hm as [->|Hm]; [|by apply H2].
      rewrite H3 by done. rewrite Hns1. apply lookup_insert_eq.
    + intros k Hk. simpl in Hk. apply not_elem_of_cons in Hk as [Hk1 Hk2].
      rewrite H3 by done. rewrite Hns1. by apply lookup_insert_ne.
    + unfold sameWorkloads in *. destruct H4 as (?&?&?&?&?&?&?).
      repeat split; (etransitivity; [eassumption|reflexivity]).
    + rewrite H5. done.
    + rewrite H6. done.
Qed.

(** What [cleanUp] leaves: no error, and in every namespace the version
    label cleared where it had the current version's value. *)
Lemma cleanUp_spec (r : rbac) (c : Cluster) :
  (cleanUp r c).1 = None
  ∧ (∀ k, nsLabels <$> namespaces (cleanUp r c).2 !! k
          = clearVersion (version r) ∘ nsLabels <$> namespaces c !! k)
  ∧ (∀ k, nsAnnotations <$> namespaces (cleanUp r c).2 !! k
          = nsAnnotations <$> namespaces c !! k)
  ∧ sameWorkloads c (cleanUp r c).2
  ∧ installerSets (cleanUp r c).2 = installerSets c
  ∧ sccs (cleanUp r c).2 = sccs c.
Proof.
  unfold cleanUp, bind, Namespaces_ListSelector. simpl.
  set (items := filter _ (listed c)).
  assert (Hitems : ∀ n, n ∈ items ↔
            n ∈ listed c ∧ nsLabels n !! namespaceVersionLabel = Some (version r)).
  { intros n. unfold items. rewrite list_elem_of_filter. tauto. }
  destruct (cleanUp_loop_spec items c) as (H1 & H2 & H3 & H4 & H5 & H6).
  { intros n Hn. apply Hitems in Hn as [Hn _].
    apply elem_of_listed in Hn as (ns & Hns & _). eauto. }
  { apply (NoDup_labeledNamespaces (version r) c). }
  split; [done|]. split; [|split; [|done]].
  - intros k. destruct (namespaces c !! k) as [ns|] eqn:E; simpl.
    + unfold clearVersion. case_bool_decide as Hl.
      * assert (Hin : listedAs k ns ∈ items).
        { apply Hitems. split; [|done]. apply elem_of_listed. simpl. eauto. }
        apply H2 in Hin. simpl in Hin. by rewrite Hin.
      * rewrite H3, E; [done|]. intros Hin.
        apply list_elem_of_fmap in Hin as (n & -> & Hn).
        apply Hitems in Hn as [Hn Hl'].
        apply elem_of_listed in Hn as (ns' & Hns' & Heq).
        rewrite E in Hns'. injection Hns' as <-. rewrite Heq in Hl'. done.
    + rewrite H3, E; [done|]. intros Hin.
      apply list_elem_of_fmap in Hin as (n & -> & Hn).
      apply Hitems in Hn as [Hn _].
      apply elem_of_listed in Hn as (ns' & Hns' & _). congruence.
  - intros k. destruct (namespaces c !! k) as [ns|] eqn:E; simpl.
    + destruct (decide (nsLabels ns !! namespaceVersionLabel = Some (version r)))
        as [Hl|Hl].
      * assert (Hin : listedAs k ns ∈ items).
        { apply Hitems. split; [|done]. apply elem_of_listed. simpl. eauto. }
        apply H2 in Hin. simpl in Hin. by rewrite Hin.
      * rewrite H3, E; [done|]. intros Hin.
        apply list_elem_of_fmap in Hin as (n & -> & Hn).
        apply Hitems in Hn as [Hn Hl'].
        apply elem_of_listed in Hn as (ns' & Hns' & Heq).
        rewrite E in Hns'. injection Hns' as <-. rewrite Heq in Hl'. done.
    + rewrite H3, E; [done|]. intros Hin.
      apply list_elem_of_fmap in Hin as (n & -> & Hn).
      apply Hitems in Hn as [Hn _].
      apply elem_of_listed in Hn as (ns' & Hns' & _). congruence.
Qed.

Lemma rbacInstallerSetName_not_old (v : string) :
  rbacInstallerSetNameOld ≠ rbacInstallerSetName v.
Proof. unfold rbacInstallerSetName. simpl. discriminate. Qed.

(** The obsolete installer set is deleted if it is there; nothing else
    changes, and no error comes out of the in-memory server. *)
Lemma removeObsoleteRBACInstallerSet_spec (c : Cluster) :
  (removeObsoleteRBACInstallerSet c).1 = None
  ∧ namespaces (removeObsoleteRBACInstallerSet c).2 = namespaces c
  ∧ sameWorkloads c (removeObsoleteRBACInstallerSet c).2
  ∧ sccs (removeObsoleteRBACInstallerSet c).2 = sccs c
  ∧ (∀ v, installerSets (removeObsoleteRBACInstallerSet c).2 !! rbacInstallerSetName v
          = installerSets c !! rbacInstallerSetName v).
Proof.
  unfold removeObsoleteRBACInstallerSet, bind, TektonInstallerSets_Delete,
    clientDelete, sameWorkloads.
  simpl. destruct (installerSets c !! _) eqn:E; simpl; repeat split; try done.
  intros v. apply lookup_delete_ne, rbacInstallerSetName_not_old.
Qed.

Lemma checkIfInstallerSetExist_found (v : string) (tc : TektonConfig) (c : Cluster)
  (iset : TektonInstallerSet) :
  installerSets c !! rbacInstallerSetName v = Some iset →
  isReleaseVersion iset = v →
  checkIfInstallerSetExist v tc c = ((Some iset, None), c).
Proof.
  intros H1 H2. unfold checkIfInstallerSetExist.
  by rewrite H1, bool_decide_eq_true_2.
Qed.

Lemma checkIfInstallerSetExist_missing (v : string) (tc : TektonConfig) (c : Cluster) :
  ¬ bookkeepingExists v c →
  checkIfInstallerSetExist v tc c = ((None, None), c).
Proof.
  intros Hno. unfold checkIfInstallerSetExist.
  destruct (installerSets c !! _) as [iset|] eqn:E; [|done].
  case_bool_decide; [|done]. destruct Hno. by exists iset.
Qed.

Lemma EnsureRBACInstallerSet_found (r : rbac) (c : Cluster) (iset : TektonInstallerSet) :
  installerSets c !! rbacInstallerSetName (version r) = Some iset →
  isReleaseVersion iset = version r →
  EnsureRBACInstallerSet r c = ((Some iset, None), (removeObsoleteRBACInstallerSet c).2).
Proof.
  intros H1 H2. unfold EnsureRBACInstallerSet. unfold bind at 1.
  destruct (removeObsoleteRBACInstallerSet_spec c) as (He & _ & _ & _ & Hi).
  destruct (removeObsoleteRBACInstallerSet c) as [err c0]. simpl in *. subst err.
  unfold bind.
  rewrite (checkIfInstallerSetExist_found _ _ _ iset); [done| |done].
  by rewrite Hi.
Qed.

Lemma EnsureRBACInstallerSet_missing (r : rbac) (c : Cluster) :
  ¬ bookkeepingExists (version r) c →
  EnsureRBACInstallerSet r c
  = ((None, Some RECONCILE_AGAIN_ERR),
     (createInstallerSet (tektonConfig r) (version r)
        (cleanUp r (removeObsoleteRBACInstallerSet c).2).2).2).
Proof.
  intros Hno. unfold EnsureRBACInstallerSet. unfold bind at 1.
  destruct (removeObsoleteRBACInstallerSet_spec c) as (He & _ & _ & _ & Hi).
  destruct (removeObsoleteRBACInstallerSet c) as [err c0]. simpl in *. subst err.
  unfold bind at 1.
  rewrite checkIfInstallerSetExist_missing.
  2:{ intros (iset & H1 & H2). apply Hno. exists iset. by rewrite <- Hi. }
  unfold bind at 1.
  destruct (cleanUp_spec r c0) as (Hc & _).
  destruct (cleanUp r c0) as [err c1]. simpl in *. subst err.
  unfold bind. unfold createInstallerSet. simpl. reflexivity.
Qed.

Lemma EnsureRBACInstallerSet_missing_spec (r : rbac) (c : Cluster) :
  ¬ bookkeepingExists (version r) c →
  (EnsureRBACInstallerSet r c).1 = (None, Some RECONCILE_AGAIN_ERR)
  ∧ (∀ k, nsLabels <$> namespaces (EnsureRBACInstallerSet r c).2 !! k
          = clearVersion (version r) ∘ nsLabels <$> namespaces c !! k)
  ∧ bookkeepingExists (version r) (EnsureRBACInstallerSet r c).2.
Proof.
  intros Hno. rewrite EnsureRBACInstallerSet_missing by done. simpl.
  destruct (removeObsoleteRBACInstallerSet_spec c) as (_ & Hn & _).
  destruct (cleanUp_spec r (removeObsoleteRBACInstallerSet c).2)
    as (_ & Hl & _).
  split; [done|]. split.
  - intros k. rewrite Hl, Hn. done.
  - eexists. simpl. split; [apply lookup_insert_eq|done].
Qed.

(** C3, as the code has it.  When no bookkeeping object exists for the
    current version, [EnsureRBACInstallerSet] clears the reconcile-version
    label from every namespace that carries the current version's value
    [r.version] (and from no other namespace), creates the bookkeeping object,
    and returns the reconcile-again signal; when the bookkeeping object is
    there, it is returned and no namespace is changed. *)
Theorem EnsureRBACInstallerSet_gate (r : rbac) (c : Cluster) :
  (¬ bookkeepingExists (version r) c →
     (EnsureRBACInstallerSet r c).1 = (None, Some RECONCILE_AGAIN_ERR)
     ∧ (∀ k, nsLabels <$> namespaces (EnsureRBACInstallerSet r c).2 !! k
             = clearVersion (version r) ∘ nsLabels <$> namespaces c !! k)
     ∧ bookkeepingExists (version r) (EnsureRBACInstallerSet r c).2)
  ∧ (∀ iset, installerSets c !! rbacInstallerSetName (version r) = Some iset →
       isReleaseVersion iset = version r →
       (EnsureRBACInstallerSet r c).1 = (Some iset, None)
       ∧ namespaces (EnsureRBACInstallerSet r c).2 = namespaces c).
Proof.
  split; [apply EnsureRBACInstallerSet_missing_spec|].
  intros iset H1 H2. rewrite (EnsureRBACInstallerSet_found r c iset) by done.
  simpl. split; [done|].
  by destruct (removeObsoleteRBACInstallerSet_spec c) as (_ & Hn & _).
Qed.

Lemma upgradeCluster_no_bookkeeping : ¬ bookkeepingExists "v2" upgradeCluster.
Proof. intros (iset & H & _). vm_compute in H. discriminate H. Qed.

(** Witness: the upgrade from v1 to v2, where the bookkeeping object of v2 is
    missing. *)
Lemma EnsureRBACInstallerSet_gate_witness :
  ¬ bookkeepingExists (version exampleRbac) upgradeCluster
  ∧ (EnsureRBACInstallerSet exampleRbac upgradeCluster).1
    = (None, Some RECONCILE_AGAIN_ERR)
  ∧ rbacLabelAt "b" (EnsureRBACInstallerSet exampleRbac upgradeCluster).2 = None.
Proof.
  pose proof upgradeCluster_no_bookkeeping as Hno.
  destruct (proj1 (EnsureRBACInstallerSet_gate exampleRbac upgradeCluster) Hno)
    as (Hret & Hlabels & _).
  split; [exact Hno|]. split; [exact Hret|].
  specialize (Hlabels "b"). unfold rbacLabelAt.
  destruct (namespaces _ !! "b") as [ns|]; [|reflexivity].
  simpl in *. injection Hlabels as ->. vm_compute. reflexivity.
Defined.

(** C3, as the spec has it, fails: on an upgrade from v1 to v2, the namespace
    that carries the previous version's value v1 keeps its label; the label
    that is cleared is the one with the current version's value. *)
Lemma EnsureRBACInstallerSet_keeps_previous_version_label :
  version exampleRbac = "v2"
  ∧ ¬ bookkeepingExists "v2" upgradeCluster
  ∧ rbacLabelAt "a" upgradeCluster = Some "v1"
  ∧ (EnsureRBACInstallerSet exampleRbac upgradeCluster).1
    = (None, Some RECONCILE_AGAIN_ERR)
  ∧ rbacLabelAt "a" (EnsureRBACInstallerSet exampleRbac upgradeCluster).2
    = Some "v1".
Proof.
  split; [reflexivity|]. split; [apply upgradeCluster_no_bookkeeping|].
  split; [vm_compute; reflexivity|]. split; vm_compute; reflexivity.
Qed.

(** * The version label during a pass *)

Lemma Namespaces_PatchLabel_labelFrame (name n key value : string) (c : Cluster) :
  n ≠ name ∨ key ≠ namespaceVersionLabel →
  labelFrame name c (Namespaces_PatchLabel n key value c).2.
Proof.
  intros Hne. unfold Namespaces_PatchLabel, labelFrame, rbacLabelAt. simpl.
  destruct (namespaces c !! n) as [ns|] eqn:E; simpl; [|done].
  split; [|done].
  destruct (decide (n = name)) as [->|Hn].
  - destruct Hne as [Hne|Hne]; [done|].
    rewrite lookup_insert_eq, E. simpl. by apply lookup_insert_ne.
  - by rewrite lookup_insert_ne.
Qed.

Lemma patchNamespaceLabel_labelFrame (name : string) (r : rbac) (ns : Namespace) :
  nsName ns ≠ name → preserves (labelFrame name) (patchNamespaceLabel r ns).
Proof.
  intros Hne c. unfold patchNamespaceLabel, bind.
  pose proof (Namespaces_PatchLabel_labelFrame name (nsName ns)
                namespaceVersionLabel (version r) c (or_introl Hne)) as H.
  destruct (Namespaces_PatchLabel _ _ _ c) as [[res err] c1].
  by destruct err.
Qed.

Lemma patchNamespaceTrustedConfigLabel_labelFrame (name : string) (r : rbac)
  (ns : Namespace) :
  preserves (labelFrame name) (patchNamespaceTrustedConfigLabel r ns).
Proof.
  intros c. unfold patchNamespaceTrustedConfigLabel, bind.
  assert (Hk : namespaceTrustedConfigLabel ≠ namespaceVersionLabel) by discriminate.
  pose proof (Namespaces_PatchLabel_labelFrame name (nsName ns)
                namespaceTrustedConfigLabel (version r) c (or_intror Hk)) as H.
  destruct (Namespaces_PatchLabel _ _ _ c) as [[res err] c1].
  by destruct err.
Qed.

Lemma patchNamespaceLabels_labelFrame (name : string) (r : rbac)
  (l : list NamespaceServiceAccount) :
  (∀ nsSA, nsSA ∈ l → nsName (nsaNamespace nsSA) ≠ name) →
  preserves (labelFrame name) (patchNamespaceLabels r l).
Proof.
  pose proof (labelFrame_ok name) as HR.
  induction l as [|nsSA rest IH]; intros Hl; simpl.
  - apply preserves_ret, HR.
  - apply preserves_bind; [apply HR| |intros _].
    + apply patchNamespaceLabel_labelFrame, Hl, list_elem_of_here.
    + apply IH. intros x Hx. by apply Hl, list_elem_of_further.
Qed.

Lemma processCANamespaces_labelFrame (name : string) (r : rbac) (nss : list Namespace) :
  preserves (labelFrame name) (processCANamespaces r nss).
Proof.
  pose proof (labelFrame_ok name) as HR.
  induction nss as [|ns rest IH]; simpl.
  - apply preserves_ret, HR.
  - apply preserves_bind; [apply HR| |intros err].
    + by apply ensureCABundlesInNamespace_frame.
    + destruct err; [done|].
      apply preserves_bind; [apply HR| |done].
      apply patchNamespaceTrustedConfigLabel_labelFrame.
Qed.

Lemma violatesCeiling_frame (r : rbac) (c c' : Cluster) (ns : Namespace) :
  sccs c' = sccs c → violatesCeiling r c' ns ↔ violatesCeiling r c ns.
Proof. intros Hs. unfold violatesCeiling. by rewrite Hs. Qed.

(** Step 4 leaves alone the label of a namespace whose request is above the
    ceiling. *)
Lemma reconcileRBAC_labelFrame (name : string) (r : rbac)
  (n : NamespacesToReconcile) (c : Cluster) :
  (∀ ns, ns ∈ RBACNamespaces n → nsName ns = name → violatesCeiling r c ns) →
  labelFrame name c (reconcileRBAC r n c).2.
Proof.
  intros Hv. pose proof (labelFrame_ok name) as HR.
  unfold reconcileRBAC. destruct (length _ =? 0)%nat; [apply HR|].
  unfold bind at 1.
  pose proof (removeAndUpdateNSFromCI_frame _ HR r c) as H1.
  destruct (removeAndUpdateNSFromCI r c) as [err c1]. simpl in H1.
  destruct err; [done|].
  unfold bind at 1.
  pose proof (processNamespaces_frame _ HR r (RBACNamespaces n) [] c1) as H2.
  pose proof (processNamespaces_collects r (RBACNamespaces n) [] c1) as Hcol.
  destruct (processNamespaces r (RBACNamespaces n) [] c1) as [toUpdate c2].
  simpl in H2, Hcol.
  eapply (frame_trans _ HR); [exact H1|].
  eapply (frame_trans _ HR); [exact H2|].
  destruct (0 <? length toUpdate)%nat; [|apply HR].
  unfold bind at 1.
  pose proof (handleClusterRoleBinding_frame _ HR r toUpdate c2) as H3.
  destruct (handleClusterRoleBinding r toUpdate c2) as [err c3]. simpl in H3.
  destruct err; [done|].
  eapply (frame_trans _ HR); [exact H3|].
  unfold bind.
  assert (Hp : preserves (labelFrame name) (patchNamespaceLabels r toUpdate)).
  { apply patchNamespaceLabels_labelFrame. intros nsSA Hin Hname.
    apply Hcol in Hin as [Hin|[Hin Hnv]]; [by apply elem_of_nil in Hin|].
    apply Hnv. apply (violatesCeiling_frame r c c1); [apply H1|].
    by apply Hv. }
  specialize (Hp c3). by destruct (patchNamespaceLabels r toUpdate c3).
Qed.

Lemma getNamespacesToBeReconciled_loop_subset (r : rbac) (items : list Namespace) :
  ∀ (result res : NamespacesToReconcile) (c : Cluster) err,
  (getNamespacesToBeReconciled_loop r items result c).1 = (Some res, err) →
  ∀ ns, ns ∈ RBACNamespaces res → ns ∈ RBACNamespaces result ∨ ns ∈ items.
Proof.
  induction items as [|n rest IH]; intros result res c err; simpl.
  - intros [= <- _] ns Hin. by left.
  - assert (Hstep : ∀ result' c',
      (getNamespacesToBeReconciled_loop r rest result' c').1 = (Some res, err) →
      (∀ ns, ns ∈ RBACNamespaces result' → ns ∈ RBACNamespaces result ∨ ns = n) →
      ∀ ns, ns ∈ RBACNamespaces res → ns ∈ RBACNamespaces result ∨ ns ∈ n :: rest).
    { intros result' c' Hloop Hres ns Hin.
      destruct (IH _ _ _ _ Hloop ns Hin) as [H|H].
      - destruct (Hres ns H) as [? | ->]; [by left|right; apply list_elem_of_here].
      - right. by apply list_elem_of_further. }
    destruct (nsRegex_MatchString _);
      [intros Hloop; eapply Hstep; [exact Hloop|auto]|].
    destruct (negb (isNil _));
      [intros Hloop; eapply Hstep; [exact Hloop|auto]|].
    unfold bind at 1.
    match goal with |- context [(if ?b then ret (true, None) else ?m) c] =>
      destruct ((if b then ret (true, None) else m) c) as [[needs e] c1] end.
    destruct e; [discriminate|].
    intros Hloop. eapply Hstep; [exact Hloop|].
    intros ns. destruct needs; simpl.
    + destruct (negb _); simpl; rewrite ?elem_of_app, ?list_elem_of_singleton; tauto.
    + destruct (negb _); simpl; tauto.
Qed.

(** The receiver after the prerequisites: only its owner reference may have
    changed. *)
Lemma ensurePreRequisites_receiver (r : rbac) (c : Cluster) :
  tektonConfig (ensurePreRequisites r c).1.1 = tektonConfig r
  ∧ version (ensurePreRequisites r c).1.1 = version r.
Proof.
  unfold ensurePreRequisites, bind.
  destruct (EnsureRBACInstallerSet r c) as [[iset err] c0].
  destruct err; [done|]. destruct iset; [|done].
  case_bool_decide; [done|].
  repeat (case_match; try done).
Qed.

(** With the bookkeeping object in place, the prerequisites touch neither
    the namespaces nor the priority list. *)
Lemma ensurePreRequisites_found (r : rbac) (c : Cluster) (iset : TektonInstallerSet) :
  installerSets c !! rbacInstallerSetName (version r) = Some iset →
  isReleaseVersion iset = version r →
  untouched c (ensurePreRequisites r c).2.
Proof.
  intros H1 H2. unfold ensurePreRequisites. unfold bind at 1.
  rewrite (EnsureRBACInstallerSet_found r c iset) by done.
  destruct (removeObsoleteRBACInstallerSet_spec c) as (_ & Hn & _ & Hs & _).
  set (c0 := (removeObsoleteRBACInstallerSet c).2) in *.
  eapply (frame_trans _ untouched_ok c c0); [by split|].
  cbv beta iota.
  match goal with |- untouched c0 (?m c0).2 =>
    assert (Hm : preserves untouched m) by frame; exact (Hm c0) end.
Qed.

(** Without it, they stop at the reconcile-again signal, having cleared the
    labels of the current version. *)
Lemma ensurePreRequisites_missing (r : rbac) (c : Cluster) :
  ¬ bookkeepingExists (version r) c →
  (ensurePreRequisites r c).1.2 = Some RECONCILE_AGAIN_ERR
  ∧ (ensurePreRequisites r c).2 = (EnsureRBACInstallerSet r c).2.
Proof.
  intros Hno. unfold ensurePreRequisites, bind.
  rewrite EnsureRBACInstallerSet_missing by done. done.
Qed.

Lemma reconcileNamespaces_labelFrame (r : rbac) (ca rb : bool) (c : Cluster)
  (name : string) :
  (∀ ns, ns ∈ listed c → nsName ns = name → violatesCeiling r c ns) →
  labelFrame name c (reconcileNamespaces r ca rb c).2.
Proof.
  intros Hv. pose proof (labelFrame_ok name) as HR.
  unfold reconcileNamespaces. unfold bind at 1.
  unfold getNamespacesToBeReconciled, bind at 1, Namespaces_List.
  pose proof (getNamespacesToBeReconciled_loop_frame _ HR r (listed c)
                (mkNamespacesToReconcile [] []) c) as H1.
  pose proof (getNamespacesToBeReconciled_loop_subset r (listed c)
                (mkNamespacesToReconcile [] []) ) as Hsub.
  specialize (fun res err => Hsub res c err).
  destruct (getNamespacesToBeReconciled_loop r (listed c) _ c) as [[res err] c1].
  simpl in H1, Hsub.
  destruct err; [done|]. destruct res as [n|]; [|done].
  destruct (_ && _); [done|].
  eapply (frame_trans _ HR); [exact H1|].
  assert (Hv1 : ∀ ns, ns ∈ RBACNamespaces n → nsName ns = name →
                      violatesCeiling r c1 ns).
  { intros ns Hin Hname.
    apply (violatesCeiling_frame r c c1); [apply H1|].
    destruct (Hsub n None eq_refl ns Hin) as [Hnil|Hl];
      [by apply elem_of_nil in Hnil|]. by apply Hv. }
  unfold bind at 1.
  assert (H2 : labelFrame name c1
            ((if rb then reconcileRBAC r n else ret None) c1).2).
  { destruct rb; [by apply reconcileRBAC_labelFrame|apply HR]. }
  destruct ((if rb then reconcileRBAC r n else ret None) c1) as [e2 c2].
  simpl in H2. destruct e2; [done|].
  eapply (frame_trans _ HR); [exact H2|].
  unfold bind.
  match goal with |- context [(if ca then ?m1 else ?m2) c2] =>
    assert (H3 : preserves (labelFrame name) (if ca then m1 else m2));
    [|specialize (H3 c2); by destruct ((if ca then m1 else m2) c2)] end.
  destruct ca; [|apply preserves_ret, HR].
  destruct (length _ =? 0)%nat; [apply preserves_ret, HR|].
  apply processCANamespaces_labelFrame.
Qed.

Lemma listed_unique (c : Cluster) (n m : Namespace) :
  n ∈ listed c → m ∈ listed c → nsName m = nsName n → m = n.
Proof.
  intros Hn Hm Hname.
  apply elem_of_listed in Hn as (ns & Hns & Hn).
  apply elem_of_listed in Hm as (ms & Hms & Hm).
  rewrite Hname, Hns in Hms. injection Hms as <-.
  rewrite Hn, Hm. by rewrite Hname.
Qed.

Lemma listed_untouched (c c' : Cluster) : untouched c c' → listed c' = listed c.
Proof. intros [Hn _]. unfold listed. by rewrite Hn. Qed.

Lemma rbacLabelAt_clearVersion (v name : string) (c c' : Cluster) :
  nsLabels <$> namespaces c' !! name
    = clearVersion v ∘ nsLabels <$> namespaces c !! name →
  rbacLabelAt name c' = rbacLabelAt name c ∨ rbacLabelAt name c' = None.
Proof.
  unfold rbacLabelAt. intros H.
  destruct (namespaces c !! name) as [ns|], (namespaces c' !! name) as [ns'|];
    simpl in *; try done; auto.
  injection H as ->. unfold clearVersion. case_bool_decide; [|by left].
  right. apply lookup_delete_eq.
Qed.

(** The cluster a pass leaves. *)
Lemma createResources_state (r : rbac) (c : Cluster) :
  (createResources r c).2 =
  let flags := featureFlags (tcParams (tektonConfig r)) true true in
  if negb flags.1 && negb flags.2 then c
  else
    let res := (if flags.2 then ensurePreRequisites r else ret (r, None)) c in
    match res.1.2 with
    | Some _ => res.2
    | None => (reconcileNamespaces res.1.1 flags.1 flags.2 res.2).2
    end.
Proof.
  unfold createResources.
  destruct (featureFlags _ true true) as [ca rb]. simpl.
  destruct (negb ca && negb rb); [done|].
  unfold bind at 1.
  destruct ((if rb then ensurePreRequisites r else ret (r, None)) c)
    as [[r1 err] c1].
  simpl. destruct err; [done|]. unfold bind.
  by destruct (reconcileNamespaces r1 ca rb c1).
Qed.

(** The version label of a namespace whose request is above the ceiling,
    across a whole pass. *)
Lemma createResources_label (r : rbac) (c : Cluster) (ns : Namespace) :
  ns ∈ listed c → violatesCeiling r c ns →
  rbacLabelAt (nsName ns) (createResources r c).2 = rbacLabelAt (nsName ns) c
  ∨ (¬ bookkeepingExists (version r) c
     ∧ rbacLabelAt (nsName ns) (createResources r c).2 = None).
Proof.
  intros Hin Hv. rewrite createResources_state.
  destruct (featureFlags _ true true) as [ca rb]. simpl.
  destruct (negb ca && negb rb); [by left|].
  assert (Htail : ∀ r1 c1, untouched c c1 → tektonConfig r1 = tektonConfig r →
            labelFrame (nsName ns) c1 (reconcileNamespaces r1 ca rb c1).2).
  { intros r1 c1 Hu Htc. apply reconcileNamespaces_labelFrame.
    intros m Hm Hname. rewrite (listed_untouched c c1 Hu) in Hm.
    rewrite (listed_unique c ns m Hin Hm Hname).
    destruct Hu as [_ Hs]. unfold violatesCeiling in *. by rewrite Htc, Hs. }
  assert (Hmissing : ¬ bookkeepingExists (version r) c →
    rbacLabelAt (nsName ns) match (ensurePreRequisites r c).1.2 with
       | Some _ => (ensurePreRequisites r c).2
       | None => (reconcileNamespaces (ensurePreRequisites r c).1.1 ca true
                    (ensurePreRequisites r c).2).2
       end = rbacLabelAt (nsName ns) c
    ∨ ¬ bookkeepingExists (version r) c
      ∧ rbacLabelAt (nsName ns) match (ensurePreRequisites r c).1.2 with
       | Some _ => (ensurePreRequisites r c).2
       | None => (reconcileNamespaces (ensurePreRequisites r c).1.1 ca true
                    (ensurePreRequisites r c).2).2
       end = None).
  { intros Hno.
    destruct (ensurePreRequisites_missing r c Hno) as [-> ->].
    destruct (EnsureRBACInstallerSet_missing_spec r c Hno) as (_ & Hl & _).
    destruct (rbacLabelAt_clearVersion _ _ _ _ (Hl (nsName ns))); auto. }
  destruct rb.
  - destruct (installerSets c !! rbacInstallerSetName (version r)) as [iset|] eqn:E;
      [destruct (decide (isReleaseVersion iset = version r)) as [Hrel|Hrel]|].
    + pose proof (ensurePreRequisites_found r c iset E Hrel) as Hu.
      pose proof (ensurePreRequisites_receiver r c) as [Htc _].
      destruct (ensurePreRequisites r c) as [[r1 err] c1]. simpl in *.
      left. destruct err.
      * unfold rbacLabelAt. by destruct Hu as [-> _].
      * destruct (Htail r1 c1 Hu Htc) as [-> _].
        unfold rbacLabelAt. by destruct Hu as [-> _].
    + apply Hmissing. intros (iset' & H1 & H2). congruence.
    + apply Hmissing. intros (iset' & H1 & H2). congruence.
  - left. simpl.
    assert (Hu : untouched c c) by (by split).
    by destruct (Htail r c Hu eq_refl) as [-> _].
Qed.



(** * The ceiling check of the prerequisites *)

Lemma sameWorkloads_refl (c : Cluster) : sameWorkloads c c.
Proof. unfold sameWorkloads. by repeat split. Qed.

Lemma sameWorkloads_trans (c1 c2 c3 : Cluster) :
  sameWorkloads c1 c2 → sameWorkloads c2 c3 → sameWorkloads c1 c3.
Proof.
  unfold sameWorkloads. intros (?&?&?&?&?&?&?) (?&?&?&?&?&?&?).
  repeat split; congruence.
Qed.

(** Whatever it finds, the version gate writes no object of a workload and
    leaves the priority list alone. *)
Lemma EnsureRBACInstallerSet_workloads (r : rbac) (c : Cluster) :
  sameWorkloads c (EnsureRBACInstallerSet r c).2
  ∧ sccs (EnsureRBACInstallerSet r c).2 = sccs c.
Proof.
  destruct (removeObsoleteRBACInstallerSet_spec c) as (_ & _ & Hw & Hs & _).
  assert (Hmissing : ¬ bookkeepingExists (version r) c →
            sameWorkloads c (EnsureRBACInstallerSet r c).2
            ∧ sccs (EnsureRBACInstallerSet r c).2 = sccs c).
  { intros Hno. rewrite EnsureRBACInstallerSet_missing by done. simpl.
    destruct (cleanUp_spec r (removeObsoleteRBACInstallerSet c).2)
      as (_ & _ & _ & Hw' & _ & Hs').
    split; [|congruence]. eapply sameWorkloads_trans; [exact Hw|exact Hw']. }
  destruct (installerSets c !! rbacInstallerSetName (version r)) as [iset|] eqn:E;
    [destruct (decide (isReleaseVersion iset = version r)) as [Hrel|Hrel]|].
  - by rewrite (EnsureRBACInstallerSet_found r c iset).
  - apply Hmissing. intros (iset' & H1 & H2). congruence.
  - apply Hmissing. intros (iset' & H1 & H2). congruence.
Qed.

(** A ceiling more restrictive than the default stops the prerequisites with
    an error, right after the version gate. *)
Lemma ensurePreRequisites_ceiling (r : rbac) (c : Cluster) :
  sccMaxAllowed (tektonConfig r) ≠ "" →
  moreRestrictive (sccs c) (sccMaxAllowed (tektonConfig r))
    (sccDefault (tektonConfig r)) →
  ∃ r1 e, ensurePreRequisites r c = ((r1, Some e), (EnsureRBACInstallerSet r c).2).
Proof.
  intros Hmax (i & j & Hi & Hj & Hlt).
  unfold ensurePreRequisites. unfold bind at 1.
  destruct (EnsureRBACInstallerSet_workloads r c) as [_ Hs].
  destruct (EnsureRBACInstallerSet r c) as [[iset err] c0]. simpl in Hs.
  destruct err; [simpl; eauto|]. destruct iset as [iset|]; [|simpl; eauto].
  simpl. case_bool_decide as Hd; [simpl; eauto|].
  unfold bind, VerifySCCExists, GetSCCRestrictiveList. simpl.
  rewrite Hs.
  rewrite (bool_decide_eq_true_2 (sccDefault _ ∈ _))
    by (by eapply sccIndex_Some_elem_of).
  rewrite (bool_decide_eq_false_2 (sccMaxAllowed _ = "")) by done. simpl.
  rewrite ?Hs.
  rewrite (bool_decide_eq_true_2 (sccMaxAllowed _ ∈ _))
    by (by eapply sccIndex_Some_elem_of).
  unfold SCCAMoreRestrictiveThanB. rewrite Hi, Hj.
  replace (j <=? i)%nat with false by (symmetry; apply Nat.leb_gt; lia).
  simpl. eauto.
Qed.

Lemma ensurePipelinesSCClusterRole_ok (r : rbac) (c : Cluster) :
  (ensurePipelinesSCClusterRole r c).1 = None.
Proof.
  unfold ensurePipelinesSCClusterRole, bind, ClusterRoles_Get, clientGet,
    ClusterRoles_Create, ClusterRoles_Update, clientCreate, clientUpdate.
  destruct (clusterRoles c !! pipelinesSCCClusterRole) eqn:E; simpl;
    unfold theName; rewrite E; done.
Qed.

(** With the bookkeeping object and the default policy in place, and no
    ceiling or one that is no more restrictive than the default, the
    prerequisites hold. *)
Lemma ensurePreRequisites_ok (r : rbac) (c : Cluster) :
  bookkeepingExists (version r) c →
  sccDefault (tektonConfig r) ≠ "" →
  sccDefault (tektonConfig r) ∈ sccs c →
  sccMaxAllowed (tektonConfig r) = ""
  ∨ (sccMaxAllowed (tektonConfig r) ∈ sccs c
     ∧ ¬ moreRestrictive (sccs c) (sccMaxAllowed (tektonConfig r))
           (sccDefault (tektonConfig r))) →
  (ensurePreRequisites r c).1.2 = None.
Proof.
  intros (iset & H1 & H2) Hd Hin Hmax.
  unfold ensurePreRequisites. unfold bind at 1.
  rewrite (EnsureRBACInstallerSet_found r c iset) by done.
  destruct (removeObsoleteRBACInstallerSet_spec c) as (_ & _ & _ & Hs & _).
  set (c0 := (removeObsoleteRBACInstallerSet c).2) in *.
  cbv beta iota. rewrite (bool_decide_eq_false_2 _ Hd).
  unfold bind at 1. unfold VerifySCCExists at 1. rewrite Hs.
  rewrite (bool_decide_eq_true_2 _ Hin).
  unfold bind at 1. unfold GetSCCRestrictiveList at 1. cbv beta iota.
  set (r1 := mkRbac _ _ _).
  assert (Hcheck :
    ∀ k : option error → M (rbac * option error),
    (bind (if negb (bool_decide (sccMaxAllowed (tektonConfig r1) = ""))
           then
             bind (VerifySCCExists (sccMaxAllowed (tektonConfig r1)))
               (fun err => match err with
                  | Some e =>
                      ret (Some (ErrorfErr "failed to verify scc %s exists, %w"
                                   [sccMaxAllowed (tektonConfig r1)] e))
                  | None =>
                      let '(isPriority, err) :=
                        SCCAMoreRestrictiveThanB (sccs c0)
                          (sccDefault (tektonConfig r1))
                          (sccMaxAllowed (tektonConfig r1)) in
                      match err with
                      | Some e => ret (Some e)
                      | None =>
                          if negb isPriority then
                            ret (Some (Errorf
   "maxAllowed SCC: %s must be less restrictive than the default SCC: %s"
                              [sccMaxAllowed (tektonConfig r1);
                               sccDefault (tektonConfig r1)]))
                          else ret None
                      end
                  end)
           else ret None) k) c0 = k None c0).
  { intros k. simpl. destruct Hmax as [Hm|[Hm Hnot]].
    - by rewrite (bool_decide_eq_true_2 _ Hm).
    - case_bool_decide as He; [done|]. simpl.
      unfold bind at 1. unfold bind at 1. unfold VerifySCCExists at 1.
      rewrite Hs, (bool_decide_eq_true_2 _ Hm).
      unfold SCCAMoreRestrictiveThanB.
      destruct (elem_of_sccIndex _ _ Hin) as [i Hi].
      destruct (elem_of_sccIndex _ _ Hm) as [j Hj].
      rewrite ?Hs, Hi, Hj.
      replace (i <=? j)%nat with true; [done|].
      symmetry. apply Nat.leb_le.
      destruct (decide (i ≤ j)%nat); [done|].
      destruct Hnot. exists j, i. repeat split; [done..|lia]. }
  rewrite Hcheck.
  unfold bind.
  pose proof (ensurePipelinesSCClusterRole_ok r1 c0) as Hok.
  destruct (ensurePipelinesSCClusterRole r1 c0) as [err c1]. simpl in Hok.
  by subst err.
Qed.

Lemma createResources_error (r : rbac) (c : Cluster) :
  (featureFlags (tcParams (tektonConfig r)) true true).2 = true →
  is_Some (ensurePreRequisites r c).1.2 →
  (createResources r c).1.2 = (ensurePreRequisites r c).1.2
  ∧ (createResources r c).2 = (ensurePreRequisites r c).2.
Proof.
  intros Hrb [e He]. unfold createResources.
  destruct (featureFlags _ true true) as [ca rb]. simpl in Hrb. subst rb.
  rewrite andb_false_r. unfold bind at 1 3.
  destruct (ensurePreRequisites r c) as [[r1 err] c1]. simpl in He. subst err.
  done.
Qed.

(** C6. A ceiling that is set and more restrictive than the default policy
    makes [ensurePreRequisites] return an error, and a pass with RBAC enabled
    return it before any object of a workload is written.  With the default
    policy on the cluster and the ceiling unset, or set, on the cluster and no
    more restrictive than the default, [ensurePreRequisites] returns no error
    when the bookkeeping object is there, and the reconcile-again signal of
    the version gate when it is not. *)
Theorem ceiling_validation (r : rbac) (c : Cluster) :
  (sccMaxAllowed (tektonConfig r) ≠ "" →
   moreRestrictive (sccs c) (sccMaxAllowed (tektonConfig r))
     (sccDefault (tektonConfig r)) →
   is_Some (ensurePreRequisites r c).1.2
   ∧ ((featureFlags (tcParams (tektonConfig r)) true true).2 = true →
      is_Some (createResources r c).1.2
      ∧ sameWorkloads c (createResources r c).2))
  ∧ (sccDefault (tektonConfig r) ≠ "" →
     sccDefault (tektonConfig r) ∈ sccs c →
     sccMaxAllowed (tektonConfig r) = ""
     ∨ (sccMaxAllowed (tektonConfig r) ∈ sccs c
        ∧ ¬ moreRestrictive (sccs c) (sccMaxAllowed (tektonConfig r))
              (sccDefault (tektonConfig r))) →
     (bookkeepingExists (version r) c → (ensurePreRequisites r c).1.2 = None)
     ∧ (¬ bookkeepingExists (version r) c →
        (ensurePreRequisites r c).1.2 = Some RECONCILE_AGAIN_ERR)).
Proof.
  split.
  - intros Hmax Hmore.
    destruct (ensurePreRequisites_ceiling r c Hmax Hmore) as (r1 & e & Heq).
    assert (Herr : is_Some (ensurePreRequisites r c).1.2)
      by (rewrite Heq; simpl; eauto).
    split; [exact Herr|]. intros Hrb.
    destruct (createResources_error r c Hrb Herr) as [-> ->].
    split; [exact Herr|]. rewrite Heq. simpl.
    apply EnsureRBACInstallerSet_workloads.
  - intros Hd Hin Hmax. split.
    + intros Hb. by apply ensurePreRequisites_ok.
    + intros Hno. by apply ensurePreRequisites_missing.
Qed.

Lemma ceiling_validation_witness :
  sccMaxAllowed (tektonConfig badCeilingRbac) ≠ ""
  ∧ moreRestrictive (sccs freshCluster) (sccMaxAllowed (tektonConfig badCeilingRbac))
      (sccDefault (tektonConfig badCeilingRbac))
  ∧ is_Some (createResources badCeilingRbac freshCluster).1.2
  ∧ sameWorkloads freshCluster (createResources badCeilingRbac freshCluster).2
  ∧ (ensurePreRequisites ceilingRbac freshCluster).1.2 = None.
Proof.
  assert (Hmax : sccMaxAllowed (tektonConfig badCeilingRbac) ≠ "")
    by (vm_compute; discriminate).
  assert (Hmore : moreRestrictive (sccs freshCluster)
                    (sccMaxAllowed (tektonConfig badCeilingRbac))
                    (sccDefault (tektonConfig badCeilingRbac))).
  { exists 0, 1. repeat split; vm_compute; lia. }
  destruct (proj1 (ceiling_validation badCeilingRbac freshCluster) Hmax Hmore)
    as [_ Hpass].
  destruct (Hpass eq_refl) as [H1 H2].
  split; [exact Hmax|]. split; [exact Hmore|]. split; [exact H1|].
  split; [exact H2|].
  refine (proj1 (proj2 (ceiling_validation ceilingRbac freshCluster) _ _ _) _).
  - vm_compute. discriminate.
  - vm_compute. apply list_elem_of_here.
  - right. split.
    + vm_compute. apply list_elem_of_further, list_elem_of_here.
    + intros (i & j & Hi & Hj & Hlt). vm_compute in Hi, Hj.
      injection Hi as <-. injection Hj as <-. lia.
  - eexists. split; vm_compute; reflexivity.
Defined.

(** * The workload identity *)

Lemma createSA_spec (ns : string) (tc : TektonConfig) (c : Cluster) :
  serviceAccounts c !! (ns, pipelineSA) = None →
  createSA ns tc c
  = ((Some (mkServiceAccount pipelineSA ns [tektonConfigOwnerRef tc]), None),
     set_serviceAccounts
       (insert (ns, pipelineSA)
          (mkServiceAccount pipelineSA ns [tektonConfigOwnerRef tc]))
       (record (CallCreate KServiceAccount ns pipelineSA) c)).
Proof.
  intros Hnone. unfold createSA, bind, ServiceAccounts_Create, clientCreate.
  simpl. by rewrite Hnone.
Qed.

Lemma ensureSA_spec (r : rbac) (ns : Namespace) (c : Cluster) :
  ensureSA r ns c
  = ((Some (pipelineServiceAccount r (nsName ns)), None),
     set_serviceAccounts
       (insert (nsName ns, pipelineSA) (pipelineServiceAccount r (nsName ns)))
       (record
          (if bool_decide (is_Some (serviceAccounts c !! (nsName ns, pipelineSA)))
           then CallUpdate KServiceAccount (nsName ns) pipelineSA
           else CallCreate KServiceAccount (nsName ns) pipelineSA) c)).
Proof.
  unfold ensureSA. unfold bind at 1.
  unfold ServiceAccounts_Get, clientGet.
  destruct (serviceAccounts c !! (nsName ns, pipelineSA)) as [sa|] eqn:E.
  - rewrite bool_decide_eq_true_2 by eauto. simpl.
    unfold ServiceAccounts_Update, clientUpdate. simpl. by rewrite E.
  - rewrite bool_decide_eq_false_2 by (by intros [? ?]). simpl.
    by rewrite createSA_spec.
Qed.

(** C5, as the code has it.  After [ensureSA], the pipeline service account
    of the namespace has exactly one owner reference, whatever it had before,
    and that reference points at the TektonConfig resource (it is
    [tektonConfigOwnerRef] of [r.tektonConfig], and does not depend on
    [r.ownerRef]); [createSA] creates a missing service account with that
    same single reference. *)
Theorem ensureSA_owner_reference (r : rbac) (ns : Namespace) (c : Cluster) :
  (ensureSA r ns c).1 = (Some (pipelineServiceAccount r (nsName ns)), None)
  ∧ serviceAccounts (ensureSA r ns c).2 !! (nsName ns, pipelineSA)
    = Some (pipelineServiceAccount r (nsName ns))
  ∧ saOwnerReferences (pipelineServiceAccount r (nsName ns))
    = [tektonConfigOwnerRef (tektonConfig r)]
  ∧ (serviceAccounts c !! (nsName ns, pipelineSA) = None →
     (createSA (nsName ns) (tektonConfig r) c).1
       = (Some (pipelineServiceAccount r (nsName ns)), None)
     ∧ serviceAccounts (createSA (nsName ns) (tektonConfig r) c).2
         !! (nsName ns, pipelineSA)
       = Some (pipelineServiceAccount r (nsName ns))).
Proof.
  rewrite ensureSA_spec. simpl. split; [done|].
  split; [apply lookup_insert_eq|]. split; [done|].
  intros Hnone. rewrite createSA_spec by done. simpl.
  split; [done|apply lookup_insert_eq].
Qed.

Lemma ensureSA_owner_reference_witness :
  serviceAccounts freshCluster !! ("a", pipelineSA) = None
  ∧ serviceAccounts (createSA "a" exampleConfig freshCluster).2 !! ("a", pipelineSA)
    = Some (pipelineServiceAccount exampleRbac "a").
Proof.
  assert (Hnone : serviceAccounts freshCluster !! ("a", pipelineSA) = None)
    by (vm_compute; reflexivity).
  split; [exact Hnone|].
  exact (proj2 (proj2 (proj2 (proj2
           (ensureSA_owner_reference exampleRbac (exampleNamespace "a" [] [])
              freshCluster))) Hnone)).
Defined.

(** C5, as the spec has it, fails: the reconciler's owner reference is the
    one to the bookkeeping object, yet the service account is left with the
    owner reference to the TektonConfig resource, and with none that matches
    the reconciler's. *)
Lemma ensureSA_owner_is_not_bookkeeping_object :
  let ns := exampleNamespace "a" [] [] in
  let c' := (ensureSA exampleRbac ns freshCluster).2 in
  ownerRef exampleRbac = configOwnerRef exampleInstallerSet
  ∧ (ensureSA exampleRbac ns freshCluster).1.2 = None
  ∧ (saOwnerReferences <$> serviceAccounts c' !! ("a", pipelineSA))
    = Some [mkOwnerReference "operator.tekton.dev/v1alpha1" "TektonConfig"
              "config" "uid-config"]
  ∧ (saOwnerReferences <$> serviceAccounts c' !! ("a", pipelineSA))
    ≠ Some [ownerRef exampleRbac]
  ∧ (∀ sa, serviceAccounts c' !! ("a", pipelineSA) = Some sa →
           hasOwnerRefernce (saOwnerReferences sa) (ownerRef exampleRbac) = false).
Proof.
  intros ns c'. split; [reflexivity|]. split; [vm_compute; reflexivity|].
  assert (Hsa : serviceAccounts c' !! ("a", pipelineSA)
                = Some (pipelineServiceAccount exampleRbac "a")).
  { unfold c'. rewrite ensureSA_spec. apply lookup_insert_eq. }
  rewrite Hsa. simpl. split; [reflexivity|]. split; [discriminate|].
  intros sa [= <-]. vm_compute. reflexivity.
Qed.

(** * Updates of objects that are already correct *)

Lemma updateRoleBinding_noop (r : rbac) (rb : RoleBinding) (sa : ServiceAccount)
  (roleRef : RoleRef) (c : Cluster) :
  hasSubject (rbSubjects rb) (saSubject sa) = true →
  hasOwnerRefernce (rbOwnerReferences rb) (ownerRef r) = true →
  updateRoleBinding r rb sa roleRef c = (None, c).
Proof.
  intros Hs Ho. unfold updateRoleBinding. rewrite Hs. simpl. rewrite Ho. simpl.
  unfold bind, ret.
  pose proof (updateOwnerRefs_nonempty (ownerRef r) (rbOwnerReferences rb)) as Hne.
  destruct (updateOwnerRefs _ _); [done|]. reflexivity.
Qed.

Lemma bulkUpdateClusterRoleBinding_noop (r : rbac) (rb : ClusterRoleBinding)
  (subjectlist : list Subject) (c : Cluster) :
  CompareSubjects (crbSubjects rb) subjectlist = true →
  hasOwnerRefernce (crbOwnerReferences rb) (ownerRef r) = true →
  bulkUpdateClusterRoleBinding r rb subjectlist c = (None, c).
Proof.
  intros Hs Ho. unfold bulkUpdateClusterRoleBinding. rewrite Hs. simpl.
  rewrite Ho. simpl. unfold bind, ret.
  pose proof (updateOwnerRefs_nonempty (ownerRef r) (crbOwnerReferences rb)) as Hne.
  destruct (updateOwnerRefs _ _); [done|]. reflexivity.
Qed.




(** * Pruning the cluster binding *)

Section PruneExact.
Variable nsMap : gmap string string.

#[local] Abbreviation live := (live nsMap).

Lemma pruneLoop_guard_closed (n : nat) : ∀ (i : nat) (subjects : list Subject)
  (update : bool),
  (length subjects - i ≤ n)%nat →
  size nsMap = length subjects →
  pruneLoop nsMap i subjects update = (subjects, update).
Proof.
  induction n as [|n IH]; intros i subjects update Hn Hsize.
  - apply pruneLoop_done. lia.
  - destruct (subjects !! i) as [x|] eqn:E.
    + rewrite (pruneLoop_step nsMap i subjects update x E).
      rewrite Hsize, Nat.eqb_refl. simpl.
      apply IH; [|done]. apply lookup_lt_Some in E. lia.
    + apply pruneLoop_done. apply lookup_ge_None in E. lia.
Qed.

Lemma removeIndex_lookup (subjects : list Subject) (i : nat) :
  removeIndex subjects i !! i = subjects !! S i.
Proof.
  unfold removeIndex. destruct (decide (i ≤ length subjects)%nat).
  - rewrite lookup_app_r by (rewrite length_take; lia).
    rewrite length_take, lookup_drop. f_equal. lia.
  - rewrite take_ge, drop_ge, app_nil_r by lia.
    rewrite !lookup_ge_None_2; [done|lia..].
Qed.

(** The loop never touches the slice below its index. *)
Lemma pruneLoop_prefix (i j : nat) (subjects : list Subject) (update : bool) :
  (j < i)%nat → (pruneLoop nsMap i subjects update).1 !! j = subjects !! j.
Proof.
  intros Hj. destruct (decide (i ≤ length subjects)%nat) as [Hi|Hi].
  - rewrite <- (take_drop i subjects) at 1.
    replace i with (length (take i subjects)) at 1 by (rewrite length_take; lia).
    destruct (pruneLoop_shape nsMap (length (drop i subjects)) (drop i subjects)
                (take i subjects) update) as (r & -> & _); [done|].
    simpl. rewrite lookup_app_l by (rewrite length_take; lia).
    by rewrite lookup_take_lt.
  - by rewrite pruneLoop_done by lia.
Qed.

(** When no two neighbours are stale and the live subjects are as many as the
    keys of [nsMap], the loop removes exactly the stale subjects. *)
Lemma pruneLoop_exact (n : nat) : ∀ (suf pre : list Subject) (update : bool),
  (length suf ≤ n)%nat →
  noAdjacentStale nsMap suf →
  size nsMap = (length pre + length (filter live suf))%nat →
  (pruneLoop nsMap (length pre) (pre ++ suf) update).1 = pre ++ filter live suf.
Proof.
  induction n as [|n IH]; intros suf pre update Hlen Hadj Hsize.
  - destruct suf; [|simpl in Hlen; lia].
    rewrite pruneLoop_app. simpl. by rewrite app_nil_r.
  - rewrite pruneLoop_app. destruct suf as [|x rest];
      [simpl; by rewrite app_nil_r|].
    simpl in Hlen.
    assert (Hrest : noAdjacentStale nsMap rest).
    { simpl in Hadj. destruct rest; [done|]. by destruct Hadj. }
    destruct (decide (live x)) as [Hx|Hx].
    + rewrite (bool_decide_eq_true_2 _ Hx), andb_false_r.
      rewrite pruneLoop_snoc.
      rewrite filter_cons_True in Hsize |- * by done.
      rewrite IH; [by rewrite <- app_assoc|lia|done|].
      rewrite length_app. simpl in *. lia.
    + rewrite (bool_decide_eq_false_2 _ Hx).
      rewrite filter_cons_False in Hsize |- * by done.
      pose proof (length_filter live rest) as Hle.
      replace (size nsMap =? length (pre ++ x :: rest))%nat with false
        by (symmetry; apply Nat.eqb_neq; rewrite length_app; simpl; lia).
      simpl. destruct rest as [|y rest].
      * rewrite app_nil_r, pruneLoop_done by lia. simpl. by rewrite app_nil_r.
      * simpl in Hadj, Hlen. destruct Hadj as [[Hl|Hy] Hadj]; [done|].
        rewrite pruneLoop_snoc.
        rewrite filter_cons_True in Hsize |- * by done.
        assert (Hrest' : noAdjacentStale nsMap rest).
        { simpl in Hrest. destruct rest; [done|]. by destruct Hrest. }
        rewrite IH; [by rewrite <- app_assoc|lia|done|].
        rewrite length_app. simpl in *. lia.
Qed.
End PruneExact.

Lemma buildNsMap_foldl (names : list string) (acc : gmap string string) (k : string) :
  foldl (fun nsMap name => <[name := name]> nsMap) acc names !! k
  = if bool_decide (k ∈ names) then Some k else acc !! k.
Proof.
  revert acc. induction names as [|n names IH]; intros acc; simpl; [done|].
  rewrite IH. destruct (decide (k ∈ names)) as [Hin|Hin].
  - rewrite !bool_decide_eq_true_2; [done|by apply list_elem_of_further|done].
  - rewrite (bool_decide_eq_false_2 _ Hin).
    destruct (decide (n = k)) as [->|Hne].
    + rewrite lookup_insert_eq, bool_decide_eq_true_2; [done|].
      apply list_elem_of_here.
    + rewrite lookup_insert_ne by done.
      rewrite bool_decide_eq_false_2; [done|].
      rewrite elem_of_cons. intros [?|?]; [by subst|done].
Qed.

Lemma buildNsMap_lookup (names : list string) (k : string) :
  buildNsMap names !! k = if bool_decide (k ∈ names) then Some k else None.
Proof. unfold buildNsMap. by rewrite buildNsMap_foldl, lookup_empty. Qed.

Lemma live_buildNsMap (names : list string) (s : Subject) :
  live (buildNsMap names) s ↔ subjNamespace s ∈ names.
Proof.
  unfold live. rewrite buildNsMap_lookup.
  case_bool_decide; split; try done; by intros [? ?].
Qed.

Lemma size_buildNsMap (names : list string) :
  NoDup names → size (buildNsMap names) = length names.
Proof.
  intros Hnd.
  assert (Heq : buildNsMap names = list_to_map ((fun n => (n, n)) <$> names)).
  { apply map_eq. intros k. rewrite buildNsMap_lookup.
    case_bool_decide as Hin.
    - symmetry. apply elem_of_list_to_map_1.
      + rewrite <- list_fmap_compose. simpl. by rewrite list_fmap_id.
      + apply list_elem_of_fmap. eauto.
    - symmetry. apply not_elem_of_list_to_map_1.
      rewrite <- list_fmap_compose. simpl. by rewrite list_fmap_id. }
  rewrite Heq, map_size_list_to_map, length_fmap; [done|].
  rewrite <- list_fmap_compose. simpl. by rewrite list_fmap_id.
Qed.

Lemma live_labeledMap (v : string) (c : Cluster) (s : Subject) :
  live (labeledMap v c) s ↔ rbacLabelAt (subjNamespace s) c = Some v.
Proof.
  unfold labeledMap. by rewrite live_buildNsMap, elem_of_labeledNamespaces.
Qed.

Lemma size_labeledMap (v : string) (c : Cluster) :
  size (labeledMap v c) = length (labeledNamespaces v c).
Proof. apply size_buildNsMap, NoDup_labeledNamespaces. Qed.

(** The pruning step on a cluster that holds the cluster binding. *)
Lemma removeAndUpdateNSFromCI_spec (r : rbac) (c : Cluster) (crb : ClusterRoleBinding) :
  clusterRoleBindings c !! clusterInterceptors = Some crb →
  IsValidLabelValue (version r) = true →
  removeAndUpdateNSFromCI r c
  = (None,
     prunedCluster c crb
       (pruneSubjects (labeledMap (version r) c) (crbSubjects crb)).1
       (pruneSubjects (labeledMap (version r) c) (crbSubjects crb)).2).
Proof.
  intros Hcrb Hvalid. unfold removeAndUpdateNSFromCI. unfold bind at 1.
  unfold rbacInformer_Lister_Get, ClusterRoleBindings_Get, clientGet.
  rewrite Hcrb. simpl. unfold labels_NewRequirement. rewrite Hvalid.
  unfold bind at 1. unfold nsInformer_Lister_List, Namespaces_ListSelector.
  simpl. fold (labeledNamespaces (version r) c).
  fold (labeledMap (version r) c).
  destruct (pruneSubjects _ _) as [subjects update]. simpl.
  unfold prunedCluster. destruct update; [|done].
  unfold bind, ClusterRoleBindings_Update, clientUpdate. simpl.
  unfold theName. by rewrite Hcrb.
Qed.

Lemma removeAndUpdateNSFromCI_missing (r : rbac) (c : Cluster) :
  clusterRoleBindings c !! clusterInterceptors = None →
  removeAndUpdateNSFromCI r c = (None, c).
Proof.
  intros Hcrb. unfold removeAndUpdateNSFromCI. unfold bind at 1.
  unfold rbacInformer_Lister_Get, ClusterRoleBindings_Get, clientGet.
  by rewrite Hcrb.
Qed.

(** The pruning step when the version cannot be the value of a label: the
    requirement is refused and nothing is pruned. *)
Lemma removeAndUpdateNSFromCI_invalid (r : rbac) (c : Cluster) :
  is_Some (clusterRoleBindings c !! clusterInterceptors) →
  IsValidLabelValue (version r) = false →
  ∃ e, removeAndUpdateNSFromCI r c = (Some e, c).
Proof.
  intros [crb Hcrb] Hvalid. unfold removeAndUpdateNSFromCI. unfold bind at 1.
  unfold rbacInformer_Lister_Get, ClusterRoleBindings_Get, clientGet.
  rewrite Hcrb. simpl. unfold labels_NewRequirement. rewrite Hvalid.
  eauto.
Qed.




(** C8. When the labeled namespaces are as many as the subjects of the
    cluster binding, the pruning step removes no subject and issues no update,
    whatever the namespaces of the subjects: it leaves the cluster as it is,
    and returns no error when the target version can be the value of a label;
    and when the loop removes the
    subject at index [i], it goes on at index [i + 1] of the shortened list,
    so that the subject shifted into position [i] is not examined: it is still
    at position [i] when the loop ends. *)
Theorem prune_edge_cases :
  (∀ (nsMap : gmap string string) (subjects : list Subject),
     size nsMap = length subjects →
     pruneSubjects nsMap subjects = (subjects, false))
  ∧ (∀ (r : rbac) (c : Cluster) (crb : ClusterRoleBinding),
       clusterRoleBindings c !! clusterInterceptors = Some crb →
       length (labeledNamespaces (version r) c) = length (crbSubjects crb) →
       (removeAndUpdateNSFromCI r c).2 = c
       ∧ (IsValidLabelValue (version r) = true →
          removeAndUpdateNSFromCI r c = (None, c)))
  ∧ (∀ (nsMap : gmap string string) (i : nat) (subjects : list Subject)
       (update : bool) (x : Subject),
       subjects !! i = Some x →
       size nsMap ≠ length subjects →
       ¬ live nsMap x →
       pruneLoop nsMap i subjects update
       = pruneLoop nsMap (S i) (removeIndex subjects i) true
       ∧ (pruneLoop nsMap i subjects update).1 !! i = subjects !! S i).
Proof.
  split; [|split].
  - intros nsMap subjects Hsize. unfold pruneSubjects.
    by apply (pruneLoop_guard_closed nsMap (length subjects)); [lia|].
  - intros r c crb Hcrb Hlen.
    assert (Hvalid : IsValidLabelValue (version r) = true →
                     removeAndUpdateNSFromCI r c = (None, c)).
    { intros Hvalid. rewrite (removeAndUpdateNSFromCI_spec r c crb Hcrb Hvalid).
      unfold pruneSubjects.
      rewrite (pruneLoop_guard_closed _ (length (crbSubjects crb))); [done|lia|].
      by rewrite size_labeledMap. }
    split; [|exact Hvalid].
    destruct (IsValidLabelValue (version r)) eqn:E; [by rewrite Hvalid|].
    by destruct (removeAndUpdateNSFromCI_invalid r c) as [e ->]; [eauto|done|].
  - intros nsMap i subjects update x Hx Hsize Hstale.
    assert (Hstep : pruneLoop nsMap i subjects update
                    = pruneLoop nsMap (S i) (removeIndex subjects i) true).
    { rewrite (pruneLoop_step nsMap i subjects update x Hx).
      rewrite (bool_decide_eq_false_2 _ Hstale).
      by replace (size nsMap =? length subjects)%nat with false
        by (symmetry; by apply Nat.eqb_neq). }
    split; [exact Hstep|].
    rewrite Hstep, pruneLoop_prefix by lia. apply removeIndex_lookup.
Qed.

(** Witness: two labeled namespaces, a and e, and two bound identities, of
    which that of x is stale: nothing is removed.  And a list of two stale
    subjects: the second survives the removal of the first. *)
Lemma prune_edge_cases_witness :
  clusterRoleBindings (boundCluster ["a"; "e"] ["a"; "x"]) !! clusterInterceptors
  = Some (exampleBinding ["a"; "x"])
  ∧ rbacLabelAt "x" (boundCluster ["a"; "e"] ["a"; "x"]) = None
  ∧ removeAndUpdateNSFromCI exampleRbac (boundCluster ["a"; "e"] ["a"; "x"])
    = (None, boundCluster ["a"; "e"] ["a"; "x"])
  ∧ ¬ live ∅ (pipelineSubject "x")
  ∧ (pruneLoop ∅ 0 [pipelineSubject "x"; pipelineSubject "y"] false).1 !! 0
    = Some (pipelineSubject "y").
Proof.
  set (c := boundCluster ["a"; "e"] ["a"; "x"]).
  assert (Hcrb : clusterRoleBindings c !! clusterInterceptors
                 = Some (exampleBinding ["a"; "x"])) by (vm_compute; reflexivity).
  assert (Hlen : length (labeledNamespaces (version exampleRbac) c)
                 = length (crbSubjects (exampleBinding ["a"; "x"])))
    by (vm_compute; reflexivity).
  assert (Hstale : ¬ live ∅ (pipelineSubject "x")).
  { unfold live. rewrite lookup_empty. by intros [? ?]. }
  split; [exact Hcrb|]. split; [vm_compute; reflexivity|].
  split; [exact (proj2 (proj1 (proj2 prune_edge_cases) exampleRbac c _ Hcrb Hlen)
                   eq_refl)|].
  split; [exact Hstale|].
  refine (proj2 (proj2 (proj2 prune_edge_cases) ∅ 0
            [pipelineSubject "x"; pipelineSubject "y"] false (pipelineSubject "x")
            eq_refl _ Hstale)).
  rewrite map_size_empty. simpl. lia.
Defined.

(** * Further properties of the helpers on subjects and owner references *)

Lemma filter_none {A} (P : A → Prop) `{!∀ a, Decision (P a)} (l : list A) :
  (∀ a, a ∈ l → ¬ P a) → filter P l = [].
Proof.
  induction l as [|a l IH]; intros Hall; [done|].
  rewrite filter_cons_False by (apply Hall, list_elem_of_here).
  apply IH. intros b Hb. by apply Hall, list_elem_of_further.
Qed.

Lemma filter_all {A} (P : A → Prop) `{!∀ a, Decision (P a)} (l : list A) :
  (∀ a, a ∈ l → P a) → filter P l = l.
Proof.
  induction l as [|a l IH]; intros Hall; [done|].
  rewrite filter_cons_True by (apply Hall, list_elem_of_here).
  f_equal. apply IH. intros b Hb. by apply Hall, list_elem_of_further.
Qed.

Lemma CompareSubjects_true (list1 list2 : list Subject) :
  CompareSubjects list1 list2 = true
  ↔ length list1 = length list2 ∧ keySet list1 = keySet list2.
Proof.
  unfold CompareSubjects.
  destruct (length list1 =? length list2)%nat eqn:El; simpl.
  2:{ apply Nat.eqb_neq in El. split; [done|]. by intros [? _]. }
  apply Nat.eqb_eq in El.
  destruct (size (keySet list1) =? size (keySet list2))%nat eqn:Es; simpl.
  2:{ apply Nat.eqb_neq in Es. split; [done|]. intros [_ Heq].
      by rewrite Heq in Es. }
  apply Nat.eqb_eq in Es. rewrite forallb_forall. split.
  - intros Hall. split; [done|].
    apply set_subseteq_size_eq; [|lia].
    intros k Hk. apply elem_of_elements, list_elem_of_In in Hk.
    by apply Hall, bool_decide_eq_true in Hk.
  - intros [_ Heq] k Hk. apply bool_decide_eq_true. rewrite <- Heq.
    by apply elem_of_elements, list_elem_of_In.
Qed.

Lemma keySet_Permutation (list1 list2 : list Subject) :
  list1 ≡ₚ list2 → keySet list1 = keySet list2.
Proof.
  intros Hp. apply set_eq. intros k. rewrite !elem_of_keySet.
  by rewrite Hp.
Qed.

(** X1. [CompareSubjects] answers whether the two lists have the same length and
    the same set of keys.  So it holds of two lists that are permutations of
    each other, and it is symmetric; but it does not count occurrences: two
    lists of one length over the same keys compare equal even when they
    repeat different subjects. *)
Theorem CompareSubjects_semantics (list1 list2 : list Subject) :
  (CompareSubjects list1 list2 = true
   ↔ length list1 = length list2
     ∧ ∀ k, k ∈ subjectKey <$> list1 ↔ k ∈ subjectKey <$> list2)
  ∧ (list1 ≡ₚ list2 → CompareSubjects list1 list2 = true)
  ∧ CompareSubjects list1 list2 = CompareSubjects list2 list1
  ∧ (∀ a b, CompareSubjects [a; a; b] [a; b; b] = true).
Proof.
  assert (Hkeys : ∀ l1 l2 : list Subject,
            keySet l1 = keySet l2
            ↔ ∀ k, k ∈ subjectKey <$> l1 ↔ k ∈ subjectKey <$> l2).
  { intros l1 l2. rewrite set_eq. by setoid_rewrite elem_of_keySet. }
  split; [|split; [|split]].
  - by rewrite CompareSubjects_true, Hkeys.
  - intros Hp. apply CompareSubjects_true. split; [by rewrite Hp|].
    by apply keySet_Permutation.
  - apply eq_true_iff_eq. rewrite !CompareSubjects_true. intuition congruence.
  - intros a b. apply CompareSubjects_true. split; [done|].
    apply Hkeys. intros k. simpl. rewrite !elem_of_cons, elem_of_nil. tauto.
Qed.

(** X2. Merging is absorbing: a second list whose keys all occur in the first
    adds nothing, and merging the same list twice is merging it once; merging
    into the empty list returns the second list as it is, repeated subjects
    included, and merging the empty list changes nothing. *)
Theorem mergeSubjects_absorbs (subjects x : list Subject) :
  ((∀ s, s ∈ x → subjectKey s ∈ subjectKey <$> subjects) →
   mergeSubjects subjects x = subjects)
  ∧ mergeSubjects (mergeSubjects subjects x) x = mergeSubjects subjects x
  ∧ mergeSubjects [] x = x
  ∧ mergeSubjects subjects [] = subjects.
Proof.
  assert (Habs : ∀ l y : list Subject,
            (∀ s, s ∈ y → subjectKey s ∈ subjectKey <$> l) →
            mergeSubjects l y = l).
  { intros l y Hall. rewrite mergeSubjects_eq. unfold freshSubjects.
    rewrite filter_none; [by rewrite app_nil_r|].
    intros s Hs Hfresh. by apply Hfresh, Hall. }
  split; [apply Habs|]. split; [|split].
  - apply Habs. intros s Hs. rewrite mergeSubjects_eq, fmap_app, elem_of_app.
    destruct (decide (subjectKey s ∈ subjectKey <$> subjects)); [by left|right].
    apply list_elem_of_fmap. exists s. split; [done|].
    unfold freshSubjects. by apply list_elem_of_filter.
  - rewrite mergeSubjects_eq. unfold freshSubjects. simpl.
    apply filter_all. intros s _. apply not_elem_of_nil.
  - rewrite mergeSubjects_eq. unfold freshSubjects. apply app_nil_r.
Qed.

Lemma mergeSubjects_absorbs_witness :
  (∀ s, s ∈ [pipelineSubject "a"] →
        subjectKey s ∈ subjectKey <$> [pipelineSubject "a"; pipelineSubject "b"])
  ∧ mergeSubjects [pipelineSubject "a"; pipelineSubject "b"] [pipelineSubject "a"]
    = [pipelineSubject "a"; pipelineSubject "b"].
Proof.
  assert (H : ∀ s, s ∈ [pipelineSubject "a"] →
    subjectKey s ∈ subjectKey <$> [pipelineSubject "a"; pipelineSubject "b"]).
  { intros s Hs. apply list_elem_of_singleton in Hs. subst s.
    apply list_elem_of_here. }
  split; [exact H|].
  exact (proj1 (mergeSubjects_absorbs _ _) H).
Defined.

Lemma CompareSubjects_semantics_witness :
  [pipelineSubject "a"; pipelineSubject "b"]
    ≡ₚ [pipelineSubject "b"; pipelineSubject "a"]
  ∧ CompareSubjects [pipelineSubject "a"; pipelineSubject "b"]
      [pipelineSubject "b"; pipelineSubject "a"] = true.
Proof.
  assert (H : [pipelineSubject "a"; pipelineSubject "b"]
                ≡ₚ [pipelineSubject "b"; pipelineSubject "a"])
    by apply Permutation_swap.
  split; [exact H|].
  exact (proj1 (proj2 (CompareSubjects_semantics _ _)) H).
Defined.

Lemma mismatches_all_match (o : OwnerReference) (l : list OwnerReference) :
  Forall (matchesOwner o) l → mismatches o l = [].
Proof.
  intros Hall. apply filter_none. intros ref Hin Hn.
  by apply Hn, (proj1 (Forall_forall _ _) Hall).
Qed.

(** X3. Repairing owner references never changes the length of a non-empty list
    and removes exactly one mismatching reference when there is one, so that
    as many calls as there are mismatching references are needed to be rid of
    them all; the reference appended in exchange is [r.ownerRef] even when the
    list holds it already, which then holds it twice. *)
Theorem updateOwnerRefs_one_at_a_time (o : OwnerReference) (refs : list OwnerReference) :
  length (updateOwnerRefs o refs) = max 1 (length refs)
  ∧ length (mismatches o (updateOwnerRefs o refs))
    = pred (length (mismatches o refs))
  ∧ (∀ x, ¬ matchesOwner o x → updateOwnerRefs o [o; x] = [o; o]).
Proof.
  split; [|split].
  - destruct refs as [|ref rest]; [done|].
    destruct (list_first_mismatch o (ref :: rest))
      as [Hm|(l1 & x & l2 & Heq & Hl1 & Hx)].
    + by rewrite updateOwnerRefs_all_match.
    + rewrite Heq, updateOwnerRefs_first_mismatch by done.
      rewrite !length_app. simpl. lia.
  - destruct refs as [|ref rest].
    { change (updateOwnerRefs o []) with [o]. unfold mismatches.
      rewrite filter_cons_False; [done|]. intros Hn. by apply Hn. }
    destruct (list_first_mismatch o (ref :: rest))
      as [Hm|(l1 & x & l2 & Heq & Hl1 & Hx)].
    + rewrite updateOwnerRefs_all_match by done.
      by rewrite mismatches_all_match.
    + rewrite Heq, updateOwnerRefs_first_mismatch by done.
      unfold mismatches. rewrite !filter_app.
      fold (mismatches o l1). rewrite (mismatches_all_match o l1 Hl1).
      rewrite (filter_cons_True _ x) by done.
      rewrite (filter_cons_False _ o) by (intros Hn; by apply Hn).
      simpl. by rewrite app_nil_r.
  - intros x Hx.
    apply (updateOwnerRefs_first_mismatch o [o] x []); [|done].
    by repeat constructor.
Qed.

Lemma updateOwnerRefs_one_at_a_time_witness :
  let o := ownerRef exampleRbac in
  let x := tektonConfigOwnerRef exampleConfig in
  ¬ matchesOwner o x ∧ updateOwnerRefs o [o; x] = [o; o].
Proof.
  intros o x.
  assert (Hx : ¬ matchesOwner o x) by (intros (_ & H & _); discriminate H).
  split; [exact Hx|].
  exact (proj2 (proj2 (updateOwnerRefs_one_at_a_time o [])) x Hx).
Defined.

(** ** Toggle defaulting, again *)

Lemma foundIn_setDefault (name : string) (params : list Param) :
  name ∈ toggleNames → foundIn name (setDefault params) = true.
Proof.
  intros Hname. apply bool_decide_eq_true.
  destruct (decide (name ∈ paramName <$> params)) as [Hin|Hout].
  - apply list_elem_of_fmap in Hin as (p & -> & Hp).
    apply list_elem_of_fmap. exists (normalizeParam p).
    split; [by rewrite normalizeParam_name|].
    apply elem_of_setDefault. left. apply list_elem_of_fmap. eauto.
  - apply toggleNames_cases in Hname as [-> | [-> | ->] ].
    + apply list_elem_of_fmap. exists (mkParam rbacParamName "true").
      split; [done|]. apply elem_of_setDefault. right. left. done.
    + apply list_elem_of_fmap. exists (mkParam legacyPipelineRbacParamName "true").
      split; [done|]. apply elem_of_setDefault. right. right. left. done.
    + apply list_elem_of_fmap.
      exists (mkParam trustedCABundleParamName (caBundleDefault params)).
      split; [done|]. apply elem_of_setDefault. right. right. right. done.
Qed.

Lemma normalizeParam_fixed (q : Param) :
  paramValue q = "true" ∨ paramValue q = "false" → normalizeParam q = q.
Proof.
  intros Hv. unfold normalizeParam.
  apply malformed_false in Hv. rewrite Hv. by rewrite andb_false_r.
Qed.

Lemma normalizeParam_idemp (p : Param) :
  normalizeParam (normalizeParam p) = normalizeParam p.
Proof.
  destruct (bool_decide (paramName p ∈ toggleNames) && malformed (paramValue p))
    eqn:E.
  - assert (normalizeParam p = mkParam (paramName p) "true") as ->
      by (unfold normalizeParam; by rewrite E).
    apply normalizeParam_fixed. by left.
  - assert (normalizeParam p = p) as -> by (unfold normalizeParam; by rewrite E).
    unfold normalizeParam. by rewrite E.
Qed.

(** X4. [setDefault] is idempotent: a second call changes nothing. *)
Theorem setDefault_idempotent (params : list Param) :
  setDefault (setDefault params) = setDefault params.
Proof.
  rewrite (setDefault_eq (setDefault params)).
  rewrite !foundIn_setDefault by (apply toggleNames_cases; auto).
  rewrite !app_nil_r.
  rewrite (setDefault_eq params) at 2. rewrite (setDefault_eq params).
  rewrite !fmap_app, <- list_fmap_compose.
  f_equal; [|f_equal; [|f_equal]].
  - apply list_fmap_ext. intros i p _. apply normalizeParam_idemp.
  - destruct (foundIn rbacParamName params); [done|]. simpl.
    by rewrite normalizeParam_fixed by (left; done).
  - destruct (foundIn legacyPipelineRbacParamName params); [done|]. simpl.
    by rewrite normalizeParam_fixed by (left; done).
  - destruct (foundIn trustedCABundleParamName params); [done|]. simpl.
    rewrite normalizeParam_fixed; [done|]. apply caBundleDefault_value.
Qed.

(** The feature flags read off [Params]: a flag is off as soon as some entry
    of its name has the value "false", wherever it stands. *)
Lemma featureFlags_spec (params : list Param) (ca rb : bool) :
  featureFlags params ca rb =
  (ca && negb (bool_decide (mkParam trustedCABundleParamName "false" ∈ params)),
   rb && negb (bool_decide (mkParam rbacParamName "false" ∈ params))).
Proof.
  revert ca rb. induction params as [|[n v] rest IH]; intros ca rb; simpl.
  - by rewrite !andb_true_r.
  - rewrite IH. clear IH.
    assert (Hc : ∀ name (flag : bool),
      (if bool_decide (n = name) && bool_decide (v = "false") then false else flag)
      && negb (bool_decide (mkParam name "false" ∈ rest))
      = flag && negb (bool_decide (mkParam name "false" ∈ mkParam n v :: rest))).
    { intros name flag.
      destruct (bool_decide (n = name) && bool_decide (v = "false")) eqn:E.
      - apply andb_true_iff in E as [E1 E2].
        apply bool_decide_eq_true in E1, E2. subst.
        rewrite (bool_decide_eq_true_2 (_ ∈ _ :: _)) by apply list_elem_of_here.
        by rewrite andb_false_r.
      - f_equal. f_equal. apply bool_decide_ext. rewrite elem_of_cons.
        split; [by right|]. intros [[= Hn Hv]|H]; [|done]. subst n v.
        by rewrite !bool_decide_eq_true_2 in E. }
    by rewrite !Hc.
Qed.

Lemma false_elem_of_setDefault (name : string) (params : list Param) :
  mkParam name "false" ∈ setDefault params
  ↔ mkParam name "false" ∈ params
    ∨ (name = trustedCABundleParamName ∧ absent trustedCABundleParamName params
       ∧ caBundleDefault params = "false").
Proof.
  rewrite elem_of_setDefault. split.
  - intros [H|[[_ H]|[[_ H]|[Habs H]]]]; try discriminate H.
    + left. apply list_elem_of_fmap in H as (p & Hp & Hin).
      unfold normalizeParam in Hp.
      destruct (_ && _); [discriminate Hp|]. by subst.
    + right. by injection H as -> ->.
  - intros [H|(-> & Habs & Hd)].
    + left. apply list_elem_of_fmap. exists (mkParam name "false").
      split; [|done]. symmetry. apply normalizeParam_fixed. by right.
    + right. right. right. by rewrite Hd.
Qed.

Lemma foundIn_cons (name : string) (p : Param) (l : list Param) :
  foundIn name (p :: l) = bool_decide (paramName p = name) || foundIn name l.
Proof.
  unfold foundIn. rewrite fmap_cons. apply eq_true_iff_eq.
  rewrite orb_true_iff, !bool_decide_eq_true, elem_of_cons.
  split; (intros [?|?]; [left|right]); done.
Qed.

Lemma isLegacyRBACEnabled_loop_cons (p : Param) (l : list Param) :
  isLegacyRBACEnabled_loop (p :: l) =
  if bool_decide (paramName p = legacyPipelineRbacParamName)
  then negb (bool_decide (paramValue p = "false"))
  else isLegacyRBACEnabled_loop l.
Proof. reflexivity. Qed.

Lemma isLegacyRBACEnabled_loop_app (l s : list Param) :
  isLegacyRBACEnabled_loop (l ++ s) =
  if foundIn legacyPipelineRbacParamName l then isLegacyRBACEnabled_loop l
  else isLegacyRBACEnabled_loop s.
Proof.
  induction l as [|p l IH]; [done|].
  rewrite <- app_comm_cons, foundIn_cons, !isLegacyRBACEnabled_loop_cons, IH.
  by destruct (bool_decide (paramName p = _)).
Qed.

Lemma isLegacyRBACEnabled_loop_normalize (l : list Param) :
  isLegacyRBACEnabled_loop (normalizeParam <$> l) = isLegacyRBACEnabled_loop l.
Proof.
  induction l as [|p l IH]; [done|].
  rewrite fmap_cons, !isLegacyRBACEnabled_loop_cons, normalizeParam_name, IH.
  destruct (bool_decide (paramName p = _)); [|done].
  f_equal. unfold normalizeParam.
  destruct (_ && malformed _) eqn:E; [|done].
  apply andb_true_iff in E as [_ E]. unfold malformed in E.
  apply andb_true_iff in E as [E _]. apply negb_true_iff in E.
  by rewrite E.
Qed.

Lemma isLegacyRBACEnabled_loop_absent (l : list Param) :
  foundIn legacyPipelineRbacParamName l = false → isLegacyRBACEnabled_loop l = true.
Proof.
  induction l as [|p l IH]; [done|].
  rewrite foundIn_cons, isLegacyRBACEnabled_loop_cons.
  destruct (bool_decide (paramName p = _)); [done|]. apply IH.
Qed.

(** X5. What defaulting does to the switches the reconciler reads.  It never
    changes whether RBAC creation is on, nor whether the legacy binding is on.
    It can turn the creation of the CA bundles off: this happens exactly when
    [createCABundleConfigMaps] is absent and the last [createRbacResource]
    entry has the value "false". *)
Theorem setDefault_switches (params : list Param) :
  (featureFlags (setDefault params) true true).2
    = (featureFlags params true true).2
  ∧ isLegacyRBACEnabled_loop (setDefault params) = isLegacyRBACEnabled_loop params
  ∧ (featureFlags (setDefault params) true true).1
    = (featureFlags params true true).1
      && negb (bool_decide (absent trustedCABundleParamName params
                            ∧ lastRbacValue params = Some "false")).
Proof.
  rewrite !featureFlags_spec. simpl. split; [|split].
  - f_equal. apply bool_decide_ext. rewrite false_elem_of_setDefault.
    split; [|by left]. intros [H|[H _]]; [done|discriminate H].
  - rewrite setDefault_eq, isLegacyRBACEnabled_loop_app.
    assert (Hf : foundIn legacyPipelineRbacParamName (normalizeParam <$> params)
                 = foundIn legacyPipelineRbacParamName params).
    { unfold foundIn. apply bool_decide_ext.
      replace (paramName <$> (normalizeParam <$> params)) with (paramName <$> params);
        [done|].
      induction params as [|p l IH]; [done|].
      by rewrite !fmap_cons, normalizeParam_name, IH. }
    rewrite Hf. destruct (foundIn legacyPipelineRbacParamName params) eqn:E.
    + apply isLegacyRBACEnabled_loop_normalize.
    + rewrite (isLegacyRBACEnabled_loop_absent params E).
      by destruct (foundIn rbacParamName params).
  - rewrite <- negb_orb. f_equal. apply eq_true_iff_eq.
    rewrite orb_true_iff, !bool_decide_eq_true, false_elem_of_setDefault.
    unfold caBundleDefault. split.
    + intros [H|(_ & Habs & Hd)]; [by left|right].
      split; [done|]. by case_bool_decide.
    + intros [H|[Habs Hl]]; [by left|right].
      split; [done|]. split; [done|]. by rewrite bool_decide_eq_true_2.
Qed.

(** * The role bindings of a namespace *)

Lemma sameSubject_refl (s : Subject) : sameSubject s s = true.
Proof. unfold sameSubject. by rewrite !bool_decide_eq_true_2. Qed.

Lemma hasSubject_snoc (subjects : list Subject) (s : Subject) :
  hasSubject (subjects ++ [s]) s = true.
Proof.
  induction subjects as [|v rest IH]; simpl.
  - by rewrite sameSubject_refl.
  - by destruct (sameSubject v s).
Qed.

Lemma hasOwnerRefernce_updateOwnerRefs (o : OwnerReference)
  (refs : list OwnerReference) :
  hasOwnerRefernce (updateOwnerRefs o refs) o = true.
Proof.
  destruct (list_first_mismatch o refs) as [Hm|(l1 & x & l2 & -> & Hl1 & Hx)].
  - destruct refs as [|ref rest]; [apply (hasOwnerRefernce_app_r o [])|].
    rewrite updateOwnerRefs_all_match by done.
    apply hasOwnerRefernce_Exists. inversion Hm; subst. by left.
  - rewrite updateOwnerRefs_first_mismatch by done.
    rewrite app_assoc. apply hasOwnerRefernce_app_r.
Qed.

Lemma length_updateOwnerRefs_eqb (o : OwnerReference) (refs : list OwnerReference) :
  (length (updateOwnerRefs o refs) =? 0)%nat = false.
Proof.
  pose proof (updateOwnerRefs_nonempty o refs).
  by destruct (updateOwnerRefs o refs).
Qed.

(** The binding [updateRoleBinding] sends to the server. *)
Lemma updateRoleBinding_eq (r : rbac) (rb : RoleBinding) (sa : ServiceAccount)
  (roleRef : RoleRef) (c : Cluster) :
  is_Some (roleBindings c !! (rbNamespace rb, rbName rb)) →
  let hasS := hasSubject (rbSubjects rb) (saSubject sa) in
  let hasO := hasOwnerRefernce (rbOwnerReferences rb) (ownerRef r) in
  let rb' := mkRoleBinding (rbName rb) (rbNamespace rb)
               (updateOwnerRefs (ownerRef r) (rbOwnerReferences rb)) roleRef
               (if hasS then rbSubjects rb else rbSubjects rb ++ [saSubject sa]) in
  updateRoleBinding r rb sa roleRef c
  = (None,
     if hasS && hasO then c
     else mkCluster (namespaces c) (serviceAccounts c) (roles c) (clusterRoles c)
            (<[(rbNamespace rb, rbName rb) := rb']> (roleBindings c))
            (clusterRoleBindings c) (configMaps c) (events c) (installerSets c)
            (sccs c)
            (calls c
             ++ (if hasO then []
                 else [CallUpdate KRoleBinding (rbNamespace rb) (rbName rb)])
             ++ (if hasS then []
                 else [CallUpdate KRoleBinding (rbNamespace rb) (rbName rb)]))).
Proof.
  intros [old Hold] hasS hasO rb'. unfold updateRoleBinding.
  fold hasS. destruct hasS eqn:ES; simpl; fold hasO; destruct hasO eqn:EO; simpl;
    rewrite ?length_updateOwnerRefs_eqb; simpl;
    unfold bind, ret, RoleBindings_Update, clientUpdate; simpl;
    rewrite ?Hold; simpl; rewrite ?lookup_insert_eq; simpl;
    rewrite ?length_updateOwnerRefs_eqb; simpl;
    unfold set_roleBindings, record; simpl;
    rewrite ?insert_insert_eq, <- ?app_assoc; reflexivity.
Qed.

Lemma updateRoleBinding_others (r : rbac) (rb : RoleBinding) (sa : ServiceAccount)
  (roleRef : RoleRef) (c : Cluster) :
  is_Some (roleBindings c !! (rbNamespace rb, rbName rb)) →
  (updateRoleBinding r rb sa roleRef c).1 = None
  ∧ (∀ k, k ≠ (rbNamespace rb, rbName rb) →
          roleBindings (updateRoleBinding r rb sa roleRef c).2 !! k
          = roleBindings c !! k).
Proof.
  intros Hrb. rewrite (updateRoleBinding_eq r rb sa roleRef c Hrb). simpl.
  split; [done|]. intros k Hk.
  destruct (hasSubject _ _ && hasOwnerRefernce _ _); [done|]. simpl.
  by rewrite lookup_insert_ne.
Qed.

(** X6. [updateRoleBinding] on a binding the cluster holds returns no error.  It
    issues one update when no owner reference matches [r.ownerRef] and one
    more when the service account is not among the subjects: two updates of
    the same object when both are missing, none when neither is.  When it
    writes, the stored binding keeps its earlier subjects in place, lists the
    service account, and has an owner reference that matches [r.ownerRef];
    no other role binding changes. *)
Theorem updateRoleBinding_writes (r : rbac) (rb : RoleBinding) (sa : ServiceAccount)
  (roleRef : RoleRef) (c : Cluster) :
  is_Some (roleBindings c !! (rbNamespace rb, rbName rb)) →
  let hasS := hasSubject (rbSubjects rb) (saSubject sa) in
  let hasO := hasOwnerRefernce (rbOwnerReferences rb) (ownerRef r) in
  let c' := (updateRoleBinding r rb sa roleRef c).2 in
  (updateRoleBinding r rb sa roleRef c).1 = None
  ∧ calls c'
    = calls c
      ++ replicate ((if hasO then 0 else 1) + (if hasS then 0 else 1))
           (CallUpdate KRoleBinding (rbNamespace rb) (rbName rb))
  ∧ (hasS && hasO = false →
     ∃ rb', roleBindings c' !! (rbNamespace rb, rbName rb) = Some rb'
       ∧ rbSubjects rb'
         = (if hasS then rbSubjects rb else rbSubjects rb ++ [saSubject sa])
       ∧ rbOwnerReferences rb'
         = updateOwnerRefs (ownerRef r) (rbOwnerReferences rb)
       ∧ hasSubject (rbSubjects rb') (saSubject sa) = true
       ∧ hasOwnerRefernce (rbOwnerReferences rb') (ownerRef r) = true)
  ∧ (∀ k, k ≠ (rbNamespace rb, rbName rb) →
          roleBindings c' !! k = roleBindings c !! k).
Proof.
  intros Hrb hasS hasO c'. unfold c'.
  rewrite (updateRoleBinding_eq r rb sa roleRef c Hrb).
  fold hasS hasO. simpl. split; [done|]. split; [|split].
  - destruct hasS, hasO; simpl; by rewrite ?app_nil_r.
  - intros Hw. rewrite Hw. simpl. eexists. split; [apply lookup_insert_eq|].
    simpl. split; [done|]. split; [done|].
    split; [|apply hasOwnerRefernce_updateOwnerRefs].
    destruct hasS eqn:E; [exact E|apply hasSubject_snoc].
  - intros k Hk. destruct (hasS && hasO); [done|]. simpl.
    by rewrite lookup_insert_ne.
Qed.

(** Witness: a foreign binding of namespace a is updated twice. *)
Lemma updateRoleBinding_writes_witness :
  let rb := foreignBinding PipelineRoleBinding
              (mkRoleRef GroupName "ClusterRole" "edit") in
  let c := foreignCluster PipelineRoleBinding
             (mkRoleRef GroupName "ClusterRole" "edit") in
  is_Some (roleBindings c !! (rbNamespace rb, rbName rb))
  ∧ calls (updateRoleBinding exampleRbac rb (pipelineServiceAccount exampleRbac "a")
             (mkRoleRef GroupName "ClusterRole" "edit") c).2
    = [CallUpdate KRoleBinding "a" PipelineRoleBinding;
       CallUpdate KRoleBinding "a" PipelineRoleBinding].
Proof.
  intros rb c.
  assert (H : is_Some (roleBindings c !! (rbNamespace rb, rbName rb)))
    by (eexists; vm_compute; reflexivity).
  split; [exact H|].
  exact (proj1 (proj2 (updateRoleBinding_writes exampleRbac rb
                         (pipelineServiceAccount exampleRbac "a")
                         (mkRoleRef GroupName "ClusterRole" "edit") c H))).
Defined.

Lemma createSCCRoleBinding_eq (r : rbac) (sa : ServiceAccount) (roleRef : RoleRef)
  (c : Cluster) :
  roleBindings c !! (saNamespace sa, pipelinesSCCRoleBinding) = None →
  createSCCRoleBinding r sa roleRef c
  = (None,
     set_roleBindings
       (insert (saNamespace sa, pipelinesSCCRoleBinding)
          (mkRoleBinding pipelinesSCCRoleBinding (saNamespace sa) [ownerRef r]
             roleRef [saSubject sa]))
       (record (CallCreate KRoleBinding (saNamespace sa) pipelinesSCCRoleBinding) c)).
Proof.
  intros Hnone. unfold createSCCRoleBinding, bind, RoleBindings_Create, clientCreate.
  simpl. by rewrite Hnone.
Qed.

(** The test [ensurePipelinesSCCRoleBinding] starts with. *)
Lemma ensurePipelinesSCCRoleBinding_missing_role (r : rbac) (sa : ServiceAccount)
  (roleRef : RoleRef) (c : Cluster) :
  ¬ roleExists roleRef (saNamespace sa) c →
  ∃ e, ensurePipelinesSCCRoleBinding r sa roleRef c = (Some e, c).
Proof.
  intros Hno. unfold ensurePipelinesSCCRoleBinding, roleExists in *.
  unfold bind at 1. case_bool_decide as Hk.
  - unfold bind at 1. unfold Roles_Get, clientGet.
    destruct (roles c !! _) eqn:E; [destruct Hno; left; eauto|].
    simpl. eauto.
  - case_bool_decide as Hk'.
    + unfold bind at 1. unfold ClusterRoles_Get, clientGet.
      destruct (clusterRoles c !! _) eqn:E; [destruct Hno; right; eauto|].
      simpl. eauto.
    + simpl. eauto.
Qed.

Lemma ensurePipelinesSCCRoleBinding_eq (r : rbac) (sa : ServiceAccount)
  (roleRef : RoleRef) (c : Cluster) :
  roleExists roleRef (saNamespace sa) c →
  ensurePipelinesSCCRoleBinding r sa roleRef c
  = match roleBindings c !! (saNamespace sa, pipelinesSCCRoleBinding) with
    | None => createSCCRoleBinding r sa roleRef c
    | Some old =>
        if bool_decide (sameRole (rbRoleRef old) roleRef) then
          updateRoleBinding r
            (mkRoleBinding pipelinesSCCRoleBinding (saNamespace sa)
               (rbOwnerReferences old) (rbRoleRef old) (rbSubjects old))
            sa roleRef c
        else
          (None,
           set_roleBindings
             (insert (saNamespace sa, pipelinesSCCRoleBinding)
                (mkRoleBinding pipelinesSCCRoleBinding (saNamespace sa) [ownerRef r]
                   roleRef [saSubject sa]))
             (record
                (CallCreate KRoleBinding (saNamespace sa) pipelinesSCCRoleBinding)
                (record
                   (CallDelete KRoleBinding (saNamespace sa) pipelinesSCCRoleBinding)
                   c)))
    end.
Proof.
  intros Hex. unfold ensurePipelinesSCCRoleBinding.
  unfold bind at 1.
  assert (Hcheck :
    (if bool_decide (rrKind roleRef = "Role")
     then bind (Roles_Get (saNamespace sa) (rrName roleRef))
            (fun '(_, err) => ret err)
     else if bool_decide (rrKind roleRef = "ClusterRole")
          then bind (ClusterRoles_Get (rrName roleRef)) (fun '(_, err) => ret err)
          else ret (Some (Errorf
            "incorrect value set for roleKind - %s, needs to be Role or ClusterRole"
            [rrKind roleRef]))) c = (None, c)).
  { destruct Hex as [[Hk [role Hrole]]|[Hk [role Hrole]]].
    - rewrite bool_decide_eq_true_2 by done.
      unfold bind, Roles_Get, clientGet. by rewrite Hrole.
    - rewrite bool_decide_eq_false_2 by (rewrite Hk; discriminate).
      rewrite bool_decide_eq_true_2 by done.
      unfold bind, ClusterRoles_Get, clientGet. by rewrite Hrole. }
  rewrite Hcheck. clear Hcheck.
  unfold bind at 1. unfold RoleBindings_Get, clientGet.
  destruct (roleBindings c !! _) as [old|] eqn:Hold; simpl; [|done].
  unfold sameRole.
  destruct (decide (rrKind (rbRoleRef old) = rrKind roleRef)) as [Hk|Hk];
    destruct (decide (rrName (rbRoleRef old) = rrName roleRef)) as [Hn|Hn].
  - rewrite !bool_decide_eq_true_2 by done. reflexivity.
  - rewrite (bool_decide_eq_true_2 _ Hk), (bool_decide_eq_false_2 _ Hn).
    rewrite bool_decide_eq_false_2 by tauto. simpl.
    unfold bind at 1. unfold RoleBindings_Delete, clientDelete. simpl.
    rewrite Hold. rewrite createSCCRoleBinding_eq by apply lookup_delete_eq.
    unfold set_roleBindings, record. simpl. by rewrite insert_delete_eq.
  - rewrite (bool_decide_eq_false_2 _ Hk).
    rewrite (bool_decide_eq_false_2 (_ ∧ _)) by tauto. simpl.
    unfold bind at 1. unfold RoleBindings_Delete, clientDelete. simpl.
    rewrite Hold. rewrite createSCCRoleBinding_eq by apply lookup_delete_eq.
    unfold set_roleBindings, record. simpl. by rewrite insert_delete_eq.
  - rewrite (bool_decide_eq_false_2 _ Hk).
    rewrite (bool_decide_eq_false_2 (_ ∧ _)) by tauto. simpl.
    unfold bind at 1. unfold RoleBindings_Delete, clientDelete. simpl.
    rewrite Hold. rewrite createSCCRoleBinding_eq by apply lookup_delete_eq.
    unfold set_roleBindings, record. simpl. by rewrite insert_delete_eq.
Qed.

(** X7. [ensurePipelinesSCCRoleBinding].  When the role it is to bind is not
    there, or the reference is neither to a Role nor to a ClusterRole, it
    fails and writes nothing.  When the role is there it returns no error and
    leaves in the namespace a pipelines-scc-rolebinding to that role which
    lists the service account and has an owner reference matching
    [r.ownerRef].  A binding that named another role is deleted and created
    anew: its other subjects and owner references are gone.  A binding that
    named the same role keeps its subjects in place.  No other role binding
    changes. *)
Theorem ensurePipelinesSCCRoleBinding_binds (r : rbac) (sa : ServiceAccount)
  (roleRef : RoleRef) (c : Cluster) :
  let key := (saNamespace sa, pipelinesSCCRoleBinding) in
  let c' := (ensurePipelinesSCCRoleBinding r sa roleRef c).2 in
  (¬ roleExists roleRef (saNamespace sa) c →
   (ensurePipelinesSCCRoleBinding r sa roleRef c).1 ≠ None ∧ c' = c)
  ∧ (roleExists roleRef (saNamespace sa) c →
     (ensurePipelinesSCCRoleBinding r sa roleRef c).1 = None
     ∧ (∃ rb', roleBindings c' !! key = Some rb'
          ∧ sameRole (rbRoleRef rb') roleRef
          ∧ hasSubject (rbSubjects rb') (saSubject sa) = true
          ∧ hasOwnerRefernce (rbOwnerReferences rb') (ownerRef r) = true
          ∧ (∀ old, roleBindings c !! key = Some old →
                    if bool_decide (sameRole (rbRoleRef old) roleRef)
                    then rbSubjects old `prefix_of` rbSubjects rb'
                    else rb' = mkRoleBinding pipelinesSCCRoleBinding (saNamespace sa)
                                 [ownerRef r] roleRef [saSubject sa]))
     ∧ (∀ k, k ≠ key → roleBindings c' !! k = roleBindings c !! k)).
Proof.
  intros key c'. split.
  - intros Hno. unfold c'.
    destruct (ensurePipelinesSCCRoleBinding_missing_role r sa roleRef c Hno)
      as [e ->]. by split.
  - intros Hex. unfold c'. rewrite (ensurePipelinesSCCRoleBinding_eq r sa roleRef c Hex).
    fold key. destruct (roleBindings c !! key) as [old|] eqn:Hold.
    + case_bool_decide as Hsame.
      * set (rb := mkRoleBinding _ _ _ _ _).
        assert (Hrb : is_Some (roleBindings c !! (rbNamespace rb, rbName rb)))
          by (simpl; fold key; eauto).
        destruct (updateRoleBinding_others r rb sa roleRef c Hrb)
          as (Hnone & Hframe).
        pose proof (updateRoleBinding_eq r rb sa roleRef c Hrb) as Heq.
        simpl in Heq.
        split; [exact Hnone|]. split; [|exact Hframe].
        destruct (hasSubject (rbSubjects rb) (saSubject sa)
                  && hasOwnerRefernce (rbOwnerReferences rb) (ownerRef r)) eqn:E.
        -- rewrite Heq. simpl in E. rewrite E. simpl. exists old.
           apply andb_true_iff in E as [ES EO].
           split; [done|]. split; [done|]. split; [done|]. split; [done|].
           intros ? [= <-]. by rewrite bool_decide_eq_true_2.
        -- rewrite Heq. simpl in E. rewrite E. simpl. fold key.
           eexists. split; [apply lookup_insert_eq|]. simpl.
           split; [done|].
           split; [destruct (hasSubject (rbSubjects old) _) eqn:ES;
                   [exact ES|apply hasSubject_snoc]|].
           split; [apply hasOwnerRefernce_updateOwnerRefs|].
           intros ? [= <-]. rewrite bool_decide_eq_true_2 by done.
           destruct (hasSubject (rbSubjects old) _); [done|].
           by apply prefix_app_r.
      * simpl. split; [done|]. split.
        -- eexists. split; [apply lookup_insert_eq|]. simpl.
           split; [done|]. split; [by rewrite sameSubject_refl|].
           split; [apply (hasOwnerRefernce_app_r (ownerRef r) [])|].
           intros ? [= <-]. by rewrite bool_decide_eq_false_2.
        -- intros k Hk. by rewrite lookup_insert_ne.
    + rewrite createSCCRoleBinding_eq by done. simpl. split; [done|]. split.
      * eexists. split; [apply lookup_insert_eq|]. simpl.
        split; [done|]. split; [by rewrite sameSubject_refl|].
        split; [apply (hasOwnerRefernce_app_r (ownerRef r) [])|].
        intros ? [=].
      * intros k Hk. by rewrite lookup_insert_ne.
Qed.

(** Witness: a foreign binding to another role is replaced. *)
Lemma ensurePipelinesSCCRoleBinding_binds_witness :
  let sa := pipelineServiceAccount exampleRbac "a" in
  let roleRef := mkRoleRef GroupName "ClusterRole" "edit" in
  let c := foreignCluster pipelinesSCCRoleBinding
             (mkRoleRef GroupName "Role" pipelinesSCCRole) in
  roleExists roleRef (saNamespace sa) c
  ∧ (ensurePipelinesSCCRoleBinding exampleRbac sa roleRef c).1 = None.
Proof.
  intros sa roleRef c.
  assert (H : roleExists roleRef (saNamespace sa) c).
  { right. split; [reflexivity|]. eexists. vm_compute. reflexivity. }
  split; [exact H|].
  exact (proj1 (proj2 (ensurePipelinesSCCRoleBinding_binds exampleRbac sa roleRef c)
                  H)).
Defined.

(** ** The legacy binding *)

Lemma createRoleBinding_eq (r : rbac) (sa : ServiceAccount) (c : Cluster) :
  roleBindings c !! (saNamespace sa, PipelineRoleBinding) = None →
  createRoleBinding r sa c
  = match clusterRoles c !! "edit" with
    | None => (Some (ErrNotFound KClusterRole "edit"), c)
    | Some _ =>
        (None,
         set_roleBindings
           (insert (saNamespace sa, PipelineRoleBinding)
              (mkRoleBinding PipelineRoleBinding (saNamespace sa) [ownerRef r]
                 (mkRoleRef GroupName "ClusterRole" "edit") [saSubject sa]))
           (record (CallCreate KRoleBinding (saNamespace sa) PipelineRoleBinding) c))
    end.
Proof.
  intros Hnone. unfold createRoleBinding. unfold bind at 1.
  unfold ClusterRoles_Get, clientGet.
  destruct (clusterRoles c !! "edit"); simpl; [|done].
  unfold bind, RoleBindings_Create, clientCreate. simpl. by rewrite Hnone.
Qed.

Lemma ensureRoleBindings_eq (r : rbac) (sa : ServiceAccount) (c : Cluster) :
  ensureRoleBindings r sa c
  = match roleBindings c !! (saNamespace sa, PipelineRoleBinding) with
    | Some old =>
        if isLegacyRBACEnabled r then
          updateRoleBinding r
            (mkRoleBinding PipelineRoleBinding (saNamespace sa)
               (rbOwnerReferences old) (rbRoleRef old) (rbSubjects old))
            sa (mkRoleRef GroupName "ClusterRole" "edit") c
        else
          (None,
           set_roleBindings (delete (saNamespace sa, PipelineRoleBinding))
             (record (CallDelete KRoleBinding (saNamespace sa) PipelineRoleBinding) c))
    | None =>
        if isLegacyRBACEnabled r then createRoleBinding r sa c else (None, c)
    end.
Proof.
  unfold ensureRoleBindings. unfold bind at 1.
  unfold RoleBindings_Get, clientGet.
  destruct (roleBindings c !! _) as [old|] eqn:Hold; simpl;
    destruct (isLegacyRBACEnabled r); simpl; try reflexivity.
  unfold RoleBindings_Delete, clientDelete. simpl. by rewrite Hold.
Qed.

(** X8. [ensureRoleBindings].  With [legacyPipelineRbac] set to "false" it
    returns no error and leaves no openshift-pipelines-edit binding in the
    namespace, deleting the one it finds and writing nothing when there is
    none.  Otherwise a missing binding is created for the service account
    alone, bound to the cluster role edit, provided that cluster role is
    there; without it the call fails and writes nothing.  A binding that is
    there keeps its subjects in place and afterwards lists the service
    account.  No other role binding changes. *)
Theorem ensureRoleBindings_legacy_switch (r : rbac) (sa : ServiceAccount) (c : Cluster) :
  let key := (saNamespace sa, PipelineRoleBinding) in
  let c' := (ensureRoleBindings r sa c).2 in
  (isLegacyRBACEnabled r = false →
   (ensureRoleBindings r sa c).1 = None
   ∧ roleBindings c' = delete key (roleBindings c)
   ∧ calls c'
     = calls c ++ (if bool_decide (is_Some (roleBindings c !! key))
                   then [CallDelete KRoleBinding (saNamespace sa) PipelineRoleBinding]
                   else []))
  ∧ (isLegacyRBACEnabled r = true →
     roleBindings c !! key = None → clusterRoles c !! "edit" = None →
     (ensureRoleBindings r sa c).1 = Some (ErrNotFound KClusterRole "edit")
     ∧ c' = c)
  ∧ (isLegacyRBACEnabled r = true →
     roleBindings c !! key = None → is_Some (clusterRoles c !! "edit") →
     (ensureRoleBindings r sa c).1 = None
     ∧ roleBindings c'
       = <[key := mkRoleBinding PipelineRoleBinding (saNamespace sa) [ownerRef r]
                    (mkRoleRef GroupName "ClusterRole" "edit") [saSubject sa]]>
           (roleBindings c))
  ∧ (isLegacyRBACEnabled r = true →
     ∀ old, roleBindings c !! key = Some old →
     (ensureRoleBindings r sa c).1 = None
     ∧ (∃ rb', roleBindings c' !! key = Some rb'
          ∧ rbSubjects old `prefix_of` rbSubjects rb'
          ∧ hasSubject (rbSubjects rb') (saSubject sa) = true)
     ∧ (∀ k, k ≠ key → roleBindings c' !! k = roleBindings c !! k)).
Proof.
  intros key c'. unfold c'. rewrite ensureRoleBindings_eq. fold key.
  split; [|split; [|split]].
  - intros ->. destruct (roleBindings c !! key) as [old|] eqn:Hold; simpl.
    + done.
    + rewrite app_nil_r. by rewrite delete_id.
  - intros -> Hnone Hno. rewrite Hnone, createRoleBinding_eq by done.
    by rewrite Hno.
  - intros -> Hnone [cr Hcr]. rewrite Hnone.
    rewrite createRoleBinding_eq by done. by rewrite Hcr.
  - intros -> old Hold. rewrite Hold.
    set (rb := mkRoleBinding _ _ _ _ _).
    assert (Hrb : is_Some (roleBindings c !! (rbNamespace rb, rbName rb)))
      by (simpl; fold key; eauto).
    pose proof (updateRoleBinding_eq r rb sa
                  (mkRoleRef GroupName "ClusterRole" "edit") c Hrb) as Heq.
    simpl in Heq. rewrite Heq. simpl. split; [done|].
    destruct (hasSubject (rbSubjects old) (saSubject sa)) eqn:ES; simpl;
      destruct (hasOwnerRefernce (rbOwnerReferences old) (ownerRef r)) eqn:EO;
      simpl; fold key.
    + split; [|done]. exists old. by rewrite Hold.
    + split; [|by intros; rewrite lookup_insert_ne].
      eexists. split; [apply lookup_insert_eq|]. done.
    + split; [|by intros; rewrite lookup_insert_ne].
      eexists. split; [apply lookup_insert_eq|]. simpl.
      split; [by apply prefix_app_r|apply hasSubject_snoc].
    + split; [|by intros; rewrite lookup_insert_ne].
      eexists. split; [apply lookup_insert_eq|]. simpl.
      split; [by apply prefix_app_r|apply hasSubject_snoc].
Qed.

(** Witness: with the legacy binding switched off, a foreign
    openshift-pipelines-edit binding is deleted. *)
Lemma ensureRoleBindings_legacy_switch_witness :
  let sa := pipelineServiceAccount legacyOffRbac "a" in
  let c := foreignCluster PipelineRoleBinding
             (mkRoleRef GroupName "ClusterRole" "edit") in
  isLegacyRBACEnabled legacyOffRbac = false
  ∧ roleBindings (ensureRoleBindings legacyOffRbac sa c).2
    = delete ("a", PipelineRoleBinding) (roleBindings c).
Proof.
  intros sa c.
  assert (H : isLegacyRBACEnabled legacyOffRbac = false) by reflexivity.
  split; [exact H|].
  exact (proj1 (proj2 (proj1 (ensureRoleBindings_legacy_switch legacyOffRbac sa c)
                         H))).
Defined.

(** * The cluster binding of the pipeline service accounts *)

Lemma bulkUpdateClusterRoleBinding_eq (r : rbac) (rb : ClusterRoleBinding)
  (subjectlist : list Subject) (c : Cluster) :
  is_Some (clusterRoleBindings c !! crbName rb) →
  let hasS := CompareSubjects (crbSubjects rb) subjectlist in
  let hasO := hasOwnerRefernce (crbOwnerReferences rb) (ownerRef r) in
  let rb' := mkClusterRoleBinding (crbName rb)
               (updateOwnerRefs (ownerRef r) (crbOwnerReferences rb)) (crbRoleRef rb)
               (if hasS then crbSubjects rb
                else mergeSubjects (crbSubjects rb) subjectlist) in
  bulkUpdateClusterRoleBinding r rb subjectlist c
  = (None,
     if hasS && hasO then c
     else mkCluster (namespaces c) (serviceAccounts c) (roles c) (clusterRoles c)
            (roleBindings c) (<[crbName rb := rb']> (clusterRoleBindings c))
            (configMaps c) (events c) (installerSets c) (sccs c)
            (calls c
             ++ (if hasO then [] else [CallUpdate KClusterRoleBinding "" (crbName rb)])
             ++ (if hasS then [] else [CallUpdate KClusterRoleBinding "" (crbName rb)]))).
Proof.
  intros [old Hold] hasS hasO rb'. unfold bulkUpdateClusterRoleBinding.
  fold hasS. destruct hasS eqn:ES; simpl; fold hasO; destruct hasO eqn:EO; simpl;
    rewrite ?length_updateOwnerRefs_eqb; simpl;
    unfold bind, ret, ClusterRoleBindings_Update, clientUpdate; simpl;
    unfold theName, clusterScoped;
    rewrite ?Hold; simpl; rewrite ?lookup_insert_eq; simpl;
    rewrite ?length_updateOwnerRefs_eqb; simpl;
    unfold set_clusterRoleBindings, record; simpl;
    rewrite ?insert_insert_eq, <- ?app_assoc; reflexivity.
Qed.

(** The subjects [handleClusterRoleBinding] builds. *)
Lemma foldl_subjects (acc : list Subject) (l : list NamespaceServiceAccount) :
  foldl (fun subjects nsSA => subjects ++ [saSubject (nsaServiceAccount nsSA)]) acc l
  = acc ++ ((saSubject ∘ nsaServiceAccount) <$> l).
Proof.
  revert acc. induction l as [|x l IH]; intros acc; simpl.
  - by rewrite app_nil_r.
  - rewrite IH. by rewrite <- app_assoc.
Qed.

Lemma handleClusterRoleBinding_eq (r : rbac)
  (namespacesToUpdate : list NamespaceServiceAccount) (c : Cluster) :
  let subjects := (saSubject ∘ nsaServiceAccount) <$> namespacesToUpdate in
  let c1 :=
    match clusterRoles c !! clusterInterceptors with
    | Some _ => c
    | None =>
        set_clusterRoles
          (insert clusterInterceptors
             (mkClusterRole clusterInterceptors [ownerRef r]
                [mkPolicyRule ["triggers.tekton.dev"] [] ["clusterinterceptors"]
                   ["get"; "list"; "watch"]]))
          (record (CallCreate KClusterRole "" clusterInterceptors) c)
    end in
  handleClusterRoleBinding r namespacesToUpdate c
  = match clusterRoleBindings c !! clusterInterceptors with
    | Some old =>
        bulkUpdateClusterRoleBinding r
          (mkClusterRoleBinding clusterInterceptors (crbOwnerReferences old)
             (crbRoleRef old) (crbSubjects old))
          subjects c1
    | None =>
        (None,
         set_clusterRoleBindings
           (insert clusterInterceptors
              (mkClusterRoleBinding clusterInterceptors [ownerRef r]
                 (mkRoleRef GroupName "ClusterRole" clusterInterceptors) subjects))
           (record (CallCreate KClusterRoleBinding "" clusterInterceptors) c1))
    end.
Proof.
  intros subjects c1. unfold handleClusterRoleBinding.
  rewrite foldl_subjects. simpl. fold subjects.
  assert (Htail : ∀ c1 : Cluster,
    is_Some (clusterRoles c1 !! clusterInterceptors) →
    bind (ClusterRoleBindings_Get clusterInterceptors)
      (fun '(viewCRB, err) =>
         match err, viewCRB with
         | None, Some viewCRB => bulkUpdateClusterRoleBinding r viewCRB subjects
         | None, None => ret (Some (Errorf "nil pointer dereference" []))
         | Some e, _ =>
             if IsNotFound err then bulkCreateClusterRoleBinding r subjects
             else ret err
         end) c1
    = match clusterRoleBindings c1 !! clusterInterceptors with
      | Some old =>
          bulkUpdateClusterRoleBinding r
            (mkClusterRoleBinding clusterInterceptors (crbOwnerReferences old)
               (crbRoleRef old) (crbSubjects old))
            subjects c1
      | None =>
          (None,
           set_clusterRoleBindings
             (insert clusterInterceptors
                (mkClusterRoleBinding clusterInterceptors [ownerRef r]
                   (mkRoleRef GroupName "ClusterRole" clusterInterceptors) subjects))
             (record (CallCreate KClusterRoleBinding "" clusterInterceptors) c1))
      end).
  { intros c2 [cr Hcr]. unfold bind at 1.
    unfold ClusterRoleBindings_Get, clientGet.
    destruct (clusterRoleBindings c2 !! clusterInterceptors) as [old|] eqn:Hold;
      simpl; [done|].
    unfold bulkCreateClusterRoleBinding. unfold bind at 1.
    unfold ClusterRoles_Get, clientGet. rewrite Hcr. simpl.
    unfold bind, ClusterRoleBindings_Create, clientCreate. simpl.
    unfold theName. by rewrite Hold. }
  unfold bind at 1. unfold ClusterRoles_Get at 1, clientGet. unfold c1.
  destruct (clusterRoles c !! clusterInterceptors) as [cr|] eqn:E; simpl.
  - unfold bind at 1. simpl. apply Htail. eauto.
  - unfold bind at 1. unfold createClusterRole, bind at 1.
    unfold ClusterRoles_Create, clientCreate. simpl. unfold theName.
    rewrite E. simpl. rewrite Htail by (simpl; rewrite lookup_insert_eq; eauto).
    done.
Qed.

Lemma mergeSubjects_covers (subjects x : list Subject) (s : Subject) :
  s ∈ x → subjectKey s ∈ subjectKey <$> mergeSubjects subjects x.
Proof.
  intros Hs. rewrite mergeSubjects_eq, fmap_app, elem_of_app.
  destruct (decide (subjectKey s ∈ subjectKey <$> subjects)) as [Hin|Hin];
    [by left|right].
  apply list_elem_of_fmap. exists s. split; [done|].
  unfold freshSubjects. by apply list_elem_of_filter.
Qed.

(** X9. [handleClusterRoleBinding], in a cluster whose clients fail only on a
    missing or a present object, returns no error.  Afterwards the cluster
    role of the cluster interceptors is there, untouched if it was there
    before.  The cluster binding is there, it has an owner reference that
    matches [r.ownerRef], and the key of every service account of the pass is
    the key of one of its subjects.  A binding that was there keeps its role
    reference and its subjects, in place, the new ones coming after them; a
    binding that was not is created with the subjects of the pass alone. *)
Theorem handleClusterRoleBinding_collects (r : rbac)
  (namespacesToUpdate : list NamespaceServiceAccount) (c : Cluster) :
  let subjects := (saSubject ∘ nsaServiceAccount) <$> namespacesToUpdate in
  let c' := (handleClusterRoleBinding r namespacesToUpdate c).2 in
  (handleClusterRoleBinding r namespacesToUpdate c).1 = None
  ∧ is_Some (clusterRoles c' !! clusterInterceptors)
  ∧ (is_Some (clusterRoles c !! clusterInterceptors) →
     clusterRoles c' = clusterRoles c)
  ∧ ∃ crb', clusterRoleBindings c' !! clusterInterceptors = Some crb'
      ∧ (∀ s, s ∈ subjects → subjectKey s ∈ subjectKey <$> crbSubjects crb')
      ∧ hasOwnerRefernce (crbOwnerReferences crb') (ownerRef r) = true
      ∧ match clusterRoleBindings c !! clusterInterceptors with
        | Some old =>
            crbSubjects old `prefix_of` crbSubjects crb'
            ∧ crbRoleRef crb' = crbRoleRef old
        | None =>
            crb' = mkClusterRoleBinding clusterInterceptors [ownerRef r]
                     (mkRoleRef GroupName "ClusterRole" clusterInterceptors) subjects
        end.
Proof.
  intros subjects c'. unfold c'. rewrite handleClusterRoleBinding_eq.
  fold subjects.
  set (c1 := match clusterRoles c !! clusterInterceptors with
             | Some _ => c | None => _ end).
  assert (Hcr : is_Some (clusterRoles c1 !! clusterInterceptors)).
  { unfold c1. destruct (clusterRoles c !! clusterInterceptors) eqn:E; [eauto|].
    simpl. rewrite lookup_insert_eq. eauto. }
  assert (Hkeep : is_Some (clusterRoles c !! clusterInterceptors) → c1 = c).
  { unfold c1. intros [cr ->]. done. }
  assert (Hcrb : clusterRoleBindings c1 = clusterRoleBindings c).
  { unfold c1. by destruct (clusterRoles c !! clusterInterceptors). }
  destruct (clusterRoleBindings c !! clusterInterceptors) as [old|] eqn:Hold.
  - set (rb := mkClusterRoleBinding _ _ _ _).
    assert (Hrb : is_Some (clusterRoleBindings c1 !! crbName rb))
      by (simpl; rewrite Hcrb; eauto).
    rewrite (bulkUpdateClusterRoleBinding_eq r rb subjects c1 Hrb). simpl.
    split; [done|].
    destruct (CompareSubjects (crbSubjects old) subjects) eqn:ES; simpl;
      destruct (hasOwnerRefernce (crbOwnerReferences old) (ownerRef r)) eqn:EO;
      simpl.
    all: split; [done|]. all: split; [by intros H; rewrite (Hkeep H)|].
    all: rewrite ?Hcrb, ?lookup_insert_eq, ?Hold.
    all: eexists; split; [reflexivity|]; simpl.
    all: rewrite ?hasOwnerRefernce_updateOwnerRefs.
    all: split; [|split; [done|split; [|done]]].
    all: try done.
    all: try (rewrite mergeSubjects_eq; by apply prefix_app_r).
    all: try (intros s Hs; by apply mergeSubjects_covers).
    all: intros s Hs; apply CompareSubjects_true in ES as [_ ES];
      apply elem_of_keySet; rewrite ES; apply elem_of_keySet;
      by apply list_elem_of_fmap_2.
  - simpl. split; [done|]. split; [done|].
    split; [by intros H; rewrite (Hkeep H)|].
    rewrite lookup_insert_eq. eexists. split; [done|]. simpl.
    split; [by intros s Hs; apply list_elem_of_fmap_2|].
    split; [apply (hasOwnerRefernce_app_r (ownerRef r) [])|done].
Qed.

(** Witness: after a first pass the cluster role is there, and a later call
    leaves the cluster roles as they are. *)
Lemma handleClusterRoleBinding_collects_witness :
  is_Some (clusterRoles firstPass.2 !! clusterInterceptors)
  ∧ clusterRoles (handleClusterRoleBinding exampleRbac [] firstPass.2).2
    = clusterRoles firstPass.2.
Proof.
  assert (H : is_Some (clusterRoles firstPass.2 !! clusterInterceptors))
    by (eexists; vm_compute; reflexivity).
  split; [exact H|].
  exact (proj1 (proj2 (proj2 (handleClusterRoleBinding_collects exampleRbac []
                                firstPass.2))) H).
Defined.

(** * The CA bundle config maps *)

Lemma ensureCABundle_eq (ns : Namespace) (name : string)
  (create : string → string → M (Result ConfigMap)) (fresh : ConfigMap) :
  (∀ c, configMaps c !! (nsName ns, name) = None →
        create name (nsName ns) c
        = ((Some fresh, None),
           set_configMaps (insert (nsName ns, name) fresh)
             (record (CallCreate KConfigMap (nsName ns) name) c))) →
  ∀ c,
  ensureCABundle ns name create c
  = (None,
     set_configMaps
       (insert (nsName ns, name)
          (from_option (disowned (nsName ns) name) fresh
             (configMaps c !! (nsName ns, name))))
       (record (upsert (configMaps c !! (nsName ns, name)) KConfigMap (nsName ns) name)
          c)).
Proof.
  intros Hcreate c. unfold ensureCABundle. unfold bind at 1.
  unfold ConfigMaps_Get, clientGet.
  destruct (configMaps c !! (nsName ns, name)) as [old|] eqn:Hold; simpl.
  - unfold bind, ret, ConfigMaps_Update, clientUpdate. simpl. by rewrite Hold.
  - unfold bind at 1. unfold bind at 1. by rewrite Hcreate.
Qed.

Lemma createCABundleConfigMaps_eq (ns : string) (c : Cluster) :
  configMaps c !! (ns, trustedCABundleConfigMap) = None →
  createCABundleConfigMaps trustedCABundleConfigMap ns c
  = ((Some (trustedCABundle ns), None),
     set_configMaps (insert (ns, trustedCABundleConfigMap) (trustedCABundle ns))
       (record (CallCreate KConfigMap ns trustedCABundleConfigMap) c)).
Proof.
  intros Hnone. unfold createCABundleConfigMaps, bind, ConfigMaps_Create, clientCreate.
  simpl. by rewrite Hnone.
Qed.

Lemma createServiceCABundleConfigMap_eq (ns : string) (c : Cluster) :
  configMaps c !! (ns, serviceCABundleConfigMap) = None →
  createServiceCABundleConfigMap serviceCABundleConfigMap ns c
  = ((Some (serviceCABundle ns), None),
     set_configMaps (insert (ns, serviceCABundleConfigMap) (serviceCABundle ns))
       (record (CallCreate KConfigMap ns serviceCABundleConfigMap) c)).
Proof.
  intros Hnone.
  unfold createServiceCABundleConfigMap, bind, ConfigMaps_Create, clientCreate.
  simpl. by rewrite Hnone.
Qed.

Lemma ensureCABundles_eq (ns : Namespace) (c : Cluster) :
  let trusted := (nsName ns, trustedCABundleConfigMap) in
  let service := (nsName ns, serviceCABundleConfigMap) in
  ensureCABundles ns c
  = (None,
     mkCluster (namespaces c) (serviceAccounts c) (roles c) (clusterRoles c)
       (roleBindings c) (clusterRoleBindings c)
       (<[service := from_option (disowned (nsName ns) serviceCABundleConfigMap)
                       (serviceCABundle (nsName ns)) (configMaps c !! service)]>
          (<[trusted := from_option (disowned (nsName ns) trustedCABundleConfigMap)
                          (trustedCABundle (nsName ns)) (configMaps c !! trusted)]>
             (configMaps c)))
       (events c) (installerSets c) (sccs c)
       (calls c
        ++ [upsert (configMaps c !! trusted) KConfigMap (nsName ns)
              trustedCABundleConfigMap;
            upsert (configMaps c !! service) KConfigMap (nsName ns)
              serviceCABundleConfigMap])).
Proof.
  intros trusted service. unfold ensureCABundles.
  unfold bind at 1.
  rewrite (ensureCABundle_eq ns trustedCABundleConfigMap createCABundleConfigMaps
             (trustedCABundle (nsName ns)))
    by (intros; by apply createCABundleConfigMaps_eq).
  unfold bind at 1.
  rewrite (ensureCABundle_eq ns serviceCABundleConfigMap
             createServiceCABundleConfigMap (serviceCABundle (nsName ns)))
    by (intros; by apply createServiceCABundleConfigMap_eq).
  fold trusted service. simpl.
  assert (Hne : trusted ≠ service)
    by (unfold trusted, service; intros [= ?]; discriminate).
  rewrite (lookup_insert_ne _ trusted service) by done.
  unfold ret, set_configMaps, record. simpl. by rewrite <- app_assoc.
Qed.

(** X10. [ensureCABundles] returns no error, and both CA bundle config maps of the
    namespace are there afterwards.  One that was missing is created with
    the labels and annotations that ask for the injection and without an
    owner; one that was there is written back with its labels and annotations
    as they were and with no owner reference left, whether or not it had one.
    So each call issues two writes.  No other config map changes, nor does any
    other object. *)
Theorem ensureCABundles_post (ns : Namespace) (c : Cluster) :
  let trusted := (nsName ns, trustedCABundleConfigMap) in
  let service := (nsName ns, serviceCABundleConfigMap) in
  let c' := (ensureCABundles ns c).2 in
  (ensureCABundles ns c).1 = None
  ∧ configMaps c' !! trusted
    = Some (from_option (disowned (nsName ns) trustedCABundleConfigMap)
              (trustedCABundle (nsName ns)) (configMaps c !! trusted))
  ∧ configMaps c' !! service
    = Some (from_option (disowned (nsName ns) serviceCABundleConfigMap)
              (serviceCABundle (nsName ns)) (configMaps c !! service))
  ∧ (∀ k, k ≠ trusted → k ≠ service → configMaps c' !! k = configMaps c !! k)
  ∧ calls c'
    = calls c
      ++ [upsert (configMaps c !! trusted) KConfigMap (nsName ns)
            trustedCABundleConfigMap;
          upsert (configMaps c !! service) KConfigMap (nsName ns)
            serviceCABundleConfigMap]
  ∧ sameRBAC c c'
  ∧ namespaces c' = namespaces c.
Proof.
  intros trusted service c'. unfold c'. rewrite ensureCABundles_eq.
  fold trusted service. simpl.
  assert (Hne : trusted ≠ service)
    by (unfold trusted, service; intros [= ?]; discriminate).
  split; [done|]. split; [|split; [|split; [|split]]].
  - rewrite lookup_insert_ne by done. by rewrite lookup_insert_eq.
  - by rewrite lookup_insert_eq.
  - intros k H1 H2. by rewrite !lookup_insert_ne.
  - done.
  - done.
Qed.

(** Witness: in namespace a of [freshCluster] both config maps are created,
    and a config map of another name stays as it is. *)
Lemma ensureCABundles_post_witness :
  let ns := exampleNamespace "a" [] [] in
  ("a", "other") ≠ (nsName ns, trustedCABundleConfigMap)
  ∧ ("a", "other") ≠ (nsName ns, serviceCABundleConfigMap)
  ∧ configMaps (ensureCABundles ns freshCluster).2 !! ("a", "other")
    = configMaps freshCluster !! ("a", "other").
Proof.
  intros ns.
  assert (H1 : ("a", "other") ≠ (nsName ns, trustedCABundleConfigMap)) by discriminate.
  assert (H2 : ("a", "other") ≠ (nsName ns, serviceCABundleConfigMap)) by discriminate.
  split; [exact H1|]. split; [exact H2|].
  exact (proj1 (proj2 (proj2 (proj2 (ensureCABundles_post ns freshCluster))))
           ("a", "other") H1 H2).
Defined.

(** * The namespaces a pass works on *)

Lemma getNamespacesToBeReconciled_loop_eq (r : rbac) (c : Cluster)
  (items : list Namespace) (result : NamespacesToReconcile) :
  getNamespacesToBeReconciled_loop r items result c
  = ((Some (mkNamespacesToReconcile
              (RBACNamespaces result
               ++ filter (fun ns => eligible ns ∧ needsRBAC r c ns) items)
              (CANamespaces result
               ++ filter (fun ns => eligible ns ∧ needsCA r ns) items)),
      None), c).
Proof.
  revert result. induction items as [|ns rest IH]; intros result.
  - simpl. rewrite !app_nil_r. by destruct result.
  - cbn [getNamespacesToBeReconciled_loop].
    destruct (nsRegex_MatchString (nsName ns)) eqn:Eig.
    { rewrite IH. rewrite !filter_cons_False; [done| |];
        intros [[? ?] _]; congruence. }
    destruct (nsDeletionTimestamp ns) as [t|] eqn:Edel.
    { simpl. rewrite IH. rewrite !filter_cons_False; [done| |];
        intros [[? ?] _]; congruence. }
    simpl negb. cbv iota.
    assert (Hel : eligible ns) by done.
    assert (Hstep : ∀ b : bool, (b = true ↔ needsRBAC r c ns) →
      getNamespacesToBeReconciled_loop r rest
        (if negb (bool_decide (mapIndex (nsLabels ns) namespaceTrustedConfigLabel
                               = version r))
         then appendCA (if b then appendRBAC result ns else result) ns
         else if b then appendRBAC result ns else result) c
      = ((Some (mkNamespacesToReconcile
                  (RBACNamespaces result
                   ++ filter (fun ns => eligible ns ∧ needsRBAC r c ns) (ns :: rest))
                  (CANamespaces result
                   ++ filter (fun ns => eligible ns ∧ needsCA r ns) (ns :: rest))),
          None), c)).
    { intros b Hb. rewrite IH. do 3 f_equal.
      assert (HR : filter (fun ns => eligible ns ∧ needsRBAC r c ns) (ns :: rest)
                   = (if b then [ns] else [])
                     ++ filter (fun ns => eligible ns ∧ needsRBAC r c ns) rest).
      { destruct b.
        - by rewrite filter_cons_True by (split; [done|by apply Hb]).
        - by rewrite filter_cons_False
            by (intros [_ Hn]; apply Hb in Hn; discriminate). }
      rewrite HR. unfold needsCA.
      case_bool_decide as Hca; simpl.
      - rewrite filter_cons_False by (intros [_ Hn]; by apply Hn).
        destruct b; simpl; by rewrite <- ?app_assoc.
      - rewrite filter_cons_True by done.
        destruct b; simpl; by rewrite <- ?app_assoc. }
    unfold bind at 1.
    destruct (decide (mapIndex (nsLabels ns) namespaceVersionLabel = version r))
      as [Hl|Hl].
    + rewrite (bool_decide_eq_true_2 _ Hl). simpl. unfold bind at 1.
      unfold RoleBindings_Get, clientGet.
      destruct (roleBindings c !! (nsName ns, pipelinesSCCRoleBinding))
        as [rb|] eqn:Hrb; simpl.
      * destruct (decide (rrKind (rbRoleRef rb) = "ClusterRole")) as [Hk|Hk].
        -- rewrite (bool_decide_eq_true_2 _ Hk). simpl. apply Hstep.
           unfold needsRBAC. rewrite Hrb.
           destruct (decide (mapIndex (nsAnnotations ns) NamespaceSCCAnnotation = ""))
             as [Ha|Ha].
           ++ rewrite (bool_decide_eq_true_2 _ Ha). simpl.
              split; [done|]. intros [?|[?|H]]; [done|done|].
              by destruct (H rb).
           ++ rewrite (bool_decide_eq_false_2 _ Ha). simpl.
              split; [by left|done].
        -- rewrite (bool_decide_eq_false_2 _ Hk). simpl. apply (Hstep true).
           split; [|done]. intros _. right. right. rewrite Hrb.
           by intros ? [= <-].
      * apply (Hstep true). split; [|done]. intros _. right. right. rewrite Hrb.
        by intros ? [=].
    + rewrite (bool_decide_eq_false_2 _ Hl). simpl. apply (Hstep true).
      split; [|done]. intros _. right. by left.
Qed.

(** X11. [getNamespacesToBeReconciled] reads and does not write, and in a cluster
    whose clients fail only on a missing object it returns no error.  The
    namespaces it selects are, in the order of the listing, those that have no
    reserved name and are not being deleted and, for the RBAC part, request a
    policy, or lack the label of the reconciler's version, or have no
    pipelines-scc-rolebinding to a cluster role; for the CA bundle part, lack
    the trusted-configmaps label of the reconciler's version. *)
Theorem getNamespacesToBeReconciled_selects (r : rbac) (c : Cluster) :
  getNamespacesToBeReconciled r c
  = ((Some (mkNamespacesToReconcile
              (filter (fun ns => eligible ns ∧ needsRBAC r c ns) (listed c))
              (filter (fun ns => eligible ns ∧ needsCA r ns) (listed c))),
      None), c).
Proof.
  unfold getNamespacesToBeReconciled, bind, Namespaces_List.
  by rewrite getNamespacesToBeReconciled_loop_eq.
Qed.

(** * A pass with the RBAC part switched off *)

Lemma sameRBAC_refl (c : Cluster) : sameRBAC c c.
Proof. by repeat split. Qed.

Lemma sameRBAC_trans (c1 c2 c3 : Cluster) :
  sameRBAC c1 c2 → sameRBAC c2 c3 → sameRBAC c1 c3.
Proof.
  unfold sameRBAC. intros (?&?&?&?&?&?&?) (?&?&?&?&?&?&?).
  repeat split; congruence.
Qed.

Lemma processCANamespaces_cons (r : rbac) (ns : Namespace) (rest : list Namespace)
  (c : Cluster) :
  processCANamespaces r (ns :: rest) c = processCANamespaces r rest (caStep r ns c).
Proof.
  cbn [processCANamespaces]. unfold ensureCABundlesInNamespace, caStep.
  unfold bind at 1. rewrite ensureCABundles_eq. cbv iota beta.
  unfold bind at 1. cbn [snd].
  by destruct (patchNamespaceTrustedConfigLabel r ns _).
Qed.

(** What one iteration changes: config maps of the namespace, and the
    trusted-configmaps label of the namespace if it is there. *)
Lemma caStep_spec (r : rbac) (ns : Namespace) (c : Cluster) :
  sameRBAC c (caStep r ns c)
  ∧ (∀ name, rbacLabelAt name (caStep r ns c) = rbacLabelAt name c)
  ∧ (∀ name, is_Some (namespaces c !! name) →
             is_Some (namespaces (caStep r ns c) !! name))
  ∧ (∀ k, is_Some (configMaps c !! k) → is_Some (configMaps (caStep r ns c) !! k))
  ∧ (∀ name, caLabelAt name c = Some (version r) →
             caLabelAt name (caStep r ns c) = Some (version r))
  ∧ (is_Some (namespaces c !! nsName ns) →
     caLabelAt (nsName ns) (caStep r ns c) = Some (version r)
     ∧ caBundlesIn (nsName ns) (caStep r ns c)).
Proof.
  unfold caStep. rewrite ensureCABundles_eq. cbn [snd].
  unfold patchNamespaceTrustedConfigLabel, bind, Namespaces_PatchLabel.
  cbn [namespaces record].
  assert (Hne : (nsName ns, trustedCABundleConfigMap)
                ≠ (nsName ns, serviceCABundleConfigMap))
    by (intros [= ?]; discriminate).
  assert (Hcm : ∀ k, is_Some (configMaps c !! k) →
    is_Some ((<[(nsName ns, serviceCABundleConfigMap) :=
                from_option (disowned (nsName ns) serviceCABundleConfigMap)
                  (serviceCABundle (nsName ns))
                  (configMaps c !! (nsName ns, serviceCABundleConfigMap))]>
               (<[(nsName ns, trustedCABundleConfigMap) :=
                  from_option (disowned (nsName ns) trustedCABundleConfigMap)
                    (trustedCABundle (nsName ns))
                    (configMaps c !! (nsName ns, trustedCABundleConfigMap))]>
                  (configMaps c))) !! k)).
  { intros k Hk.
    destruct (decide (k = (nsName ns, serviceCABundleConfigMap))) as [->|H1];
      [rewrite lookup_insert_eq; eauto|rewrite lookup_insert_ne by done].
    destruct (decide (k = (nsName ns, trustedCABundleConfigMap))) as [->|H2];
      [rewrite lookup_insert_eq; eauto|by rewrite lookup_insert_ne by done]. }
  destruct (namespaces c !! nsName ns) as [old|] eqn:Hold; cbn.
  - split; [by repeat split|]. split; [|split; [|split; [|split]]].
    + intros name. unfold rbacLabelAt. cbn.
      destruct (decide (name = nsName ns)) as [->|Hn].
      * rewrite lookup_insert_eq, Hold. cbn.
        by rewrite lookup_insert_ne by discriminate.
      * by rewrite lookup_insert_ne by done.
    + intros name Hname.
      destruct (decide (name = nsName ns)) as [->|Hn];
        [rewrite lookup_insert_eq; eauto|by rewrite lookup_insert_ne by done].
    + exact Hcm.
    + intros name. unfold caLabelAt. cbn.
      destruct (decide (name = nsName ns)) as [->|Hn].
      * intros _. rewrite lookup_insert_eq. cbn. by rewrite lookup_insert_eq.
      * by rewrite lookup_insert_ne by done.
    + intros _. split.
      * unfold caLabelAt. cbn. rewrite lookup_insert_eq. cbn.
        by rewrite lookup_insert_eq.
      * unfold caBundlesIn. cbn.
        rewrite lookup_insert_ne, !lookup_insert_eq by done. eauto.
  - split; [by repeat split|]. split; [done|]. split; [done|].
    split; [exact Hcm|]. split; [done|]. by intros [? ?].
Qed.

Lemma processCANamespaces_spec (r : rbac) (nss : list Namespace) (c : Cluster) :
  let c' := (processCANamespaces r nss c).2 in
  sameRBAC c c'
  ∧ (∀ name, rbacLabelAt name c' = rbacLabelAt name c)
  ∧ (∀ name, is_Some (namespaces c !! name) → is_Some (namespaces c' !! name))
  ∧ (∀ k, is_Some (configMaps c !! k) → is_Some (configMaps c' !! k))
  ∧ (∀ name, caLabelAt name c = Some (version r) →
             caLabelAt name c' = Some (version r))
  ∧ (∀ ns, ns ∈ nss → is_Some (namespaces c !! nsName ns) →
           caLabelAt (nsName ns) c' = Some (version r)
           ∧ caBundlesIn (nsName ns) c').
Proof.
  revert c. induction nss as [|ns rest IH]; intros c.
  - simpl. split; [apply sameRBAC_refl|].
    repeat (split; [done|]). intros ns Hns. by apply elem_of_nil in Hns.
  - rewrite processCANamespaces_cons.
    destruct (caStep_spec r ns c) as (S1 & S2 & S3 & S4 & S5 & S6).
    destruct (IH (caStep r ns c)) as (I1 & I2 & I3 & I4 & I5 & I6).
    cbv zeta. split; [by eapply sameRBAC_trans|].
    split; [intros name; by rewrite I2|].
    split; [intros name H; by apply I3, S3|].
    split; [intros k H; by apply I4, S4|].
    split; [intros name H; by apply I5, S5|].
    intros n Hn Hsome. apply elem_of_cons in Hn as [->|Hn].
    + destruct (S6 Hsome) as [Hl [Ht Hs]].
      split; [by apply I5|]. split; by apply I4.
    + apply I6; [done|]. by apply S3.
Qed.

(** The pass when [createRbacResource] is switched off: the prerequisites are
    skipped and only the CA bundle part runs. *)
Lemma createResources_rbac_off_eq (r : rbac) (c : Cluster) :
  mkParam rbacParamName "false" ∈ tcParams (tektonConfig r) →
  createResources r c
  = ((r, None),
     if bool_decide (mkParam trustedCABundleParamName "false"
                     ∈ tcParams (tektonConfig r))
     then c
     else (processCANamespaces r
             (filter (fun ns => eligible ns ∧ needsCA r ns) (listed c)) c).2).
Proof.
  intros Hoff. unfold createResources. rewrite featureFlags_spec. simpl.
  rewrite (bool_decide_eq_true_2 _ Hoff). simpl.
  case_bool_decide as Hca; simpl; [done|].
  unfold bind at 1. unfold ret at 1. unfold bind at 1.
  unfold reconcileNamespaces. unfold bind at 1.
  unfold getNamespacesToBeReconciled, bind at 1, Namespaces_List.
  rewrite getNamespacesToBeReconciled_loop_eq. simpl.
  destruct (filter (fun ns => eligible ns ∧ needsCA r ns) (listed c))
    as [|n rest].
  { by destruct (length (filter _ (listed c)) =? 0)%nat. }
  remember (processCANamespaces r) as loop eqn:Hloop.
  destruct (length (filter _ (listed c)) =? 0)%nat; simpl;
    unfold bind, ret; simpl; by destruct (loop (n :: rest) c).
Qed.

(** X12. A pass with [createRbacResource] set to "false" returns no error and
    leaves every service account, role, cluster role, role binding, cluster
    role binding, event and bookkeeping object as it was, as well as the
    reconcile-version label of every namespace: the prerequisites are not
    checked and the obsolete bookkeeping object is not removed.  With
    [createCABundleConfigMaps] set to "false" as well, nothing at all changes.
    Otherwise every listed namespace that is eligible and lacks the
    trusted-configmaps label of the reconciler's version has both CA bundle
    config maps afterwards and carries that label. *)
Theorem createResources_rbac_off (r : rbac) (c : Cluster) :
  mkParam rbacParamName "false" ∈ tcParams (tektonConfig r) →
  let c' := (createResources r c).2 in
  (createResources r c).1 = (r, None)
  ∧ sameRBAC c c'
  ∧ (∀ name, rbacLabelAt name c' = rbacLabelAt name c)
  ∧ (mkParam trustedCABundleParamName "false" ∈ tcParams (tektonConfig r) → c' = c)
  ∧ (mkParam trustedCABundleParamName "false" ∉ tcParams (tektonConfig r) →
     ∀ ns, ns ∈ listed c → eligible ns → needsCA r ns →
           caLabelAt (nsName ns) c' = Some (version r)
           ∧ caBundlesIn (nsName ns) c').
Proof.
  intros Hoff c'. unfold c'. rewrite (createResources_rbac_off_eq r c Hoff).
  cbn [fst snd]. split; [done|].
  case_bool_decide as Hca.
  - split; [apply sameRBAC_refl|]. split; [done|]. split; [done|]. done.
  - destruct (processCANamespaces_spec r
                (filter (fun ns => eligible ns ∧ needsCA r ns) (listed c)) c)
      as (I1 & I2 & _ & _ & _ & I6).
    split; [done|]. split; [done|]. split; [done|].
    intros _ ns Hns Hel Hneeds. apply I6.
    + by apply list_elem_of_filter.
    + apply elem_of_listed in Hns as (ns0 & Hns0 & _). eauto.
Qed.

(** Witness: a pass over [freshCluster] with the RBAC part switched off. *)
Lemma createResources_rbac_off_witness :
  mkParam rbacParamName "false" ∈ tcParams (tektonConfig rbacOffRbac)
  ∧ (createResources rbacOffRbac freshCluster).1 = (rbacOffRbac, None)
  ∧ sameRBAC freshCluster (createResources rbacOffRbac freshCluster).2.
Proof.
  assert (H : mkParam rbacParamName "false" ∈ tcParams (tektonConfig rbacOffRbac))
    by apply list_elem_of_here.
  split; [exact H|].
  split; [exact (proj1 (createResources_rbac_off rbacOffRbac freshCluster H))|].
  exact (proj1 (proj2 (createResources_rbac_off rbacOffRbac freshCluster H))).
Defined.

(** * The policy role of a namespace *)

Lemma ensureSCCRoleInNamespace_eq (r : rbac) (namespace scc : string) (c : Cluster) :
  ensureSCCRoleInNamespace r namespace scc c
  = (None,
     set_roles (insert (namespace, pipelinesSCCRole) (sccRole r namespace scc))
       (record (upsert (roles c !! (namespace, pipelinesSCCRole)) KRole namespace
                  pipelinesSCCRole) c)).
Proof.
  unfold ensureSCCRoleInNamespace, bind, Roles_Get, clientGet, Roles_Create,
    Roles_Update, clientCreate, clientUpdate.
  destruct (roles c !! (namespace, pipelinesSCCRole)) eqn:E; simpl;
    by rewrite E.
Qed.

(** X13. [handleSCCInNamespace] on a namespace that requests no policy
    returns no error and leaves no pipelines-scc-role in the namespace: a
    role found there is deleted, and nothing is written when there is none.
    Nothing else changes. *)
Theorem handleSCCInNamespace_unrequested (r : rbac) (ns : Namespace) (c : Cluster) :
  requestedSCC ns = "" →
  handleSCCInNamespace r ns c
  = (None,
     if roles c !! (nsName ns, pipelinesSCCRole) is Some _
     then set_roles (delete (nsName ns, pipelinesSCCRole))
            (record (CallDelete KRole (nsName ns) pipelinesSCCRole) c)
     else c)
  ∧ roles (handleSCCInNamespace r ns c).2 !! (nsName ns, pipelinesSCCRole) = None.
Proof.
  intros Hreq. unfold requestedSCC in Hreq.
  assert (Heq : handleSCCInNamespace r ns c
    = (None,
       if roles c !! (nsName ns, pipelinesSCCRole) is Some _
       then set_roles (delete (nsName ns, pipelinesSCCRole))
              (record (CallDelete KRole (nsName ns) pipelinesSCCRole) c)
       else c)).
  { unfold handleSCCInNamespace. rewrite (bool_decide_eq_true_2 _ Hreq).
    unfold bind at 1. unfold Roles_Get, clientGet.
    destruct (roles c !! (nsName ns, pipelinesSCCRole)) eqn:E; simpl; [|done].
    unfold bind, Roles_Delete, clientDelete. simpl. by rewrite E. }
  split; [exact Heq|]. rewrite Heq. simpl.
  destruct (roles c !! (nsName ns, pipelinesSCCRole)) eqn:E; simpl; [|done].
  apply lookup_delete_eq.
Qed.

Lemma handleSCCInNamespace_unrequested_witness :
  let ns := exampleNamespace "a" [] [] in
  requestedSCC ns = ""
  ∧ roles (handleSCCInNamespace exampleRbac ns freshCluster).2
      !! (nsName ns, pipelinesSCCRole) = None.
Proof.
  intros ns.
  assert (H : requestedSCC ns = "") by reflexivity.
  split; [exact H|].
  exact (proj2 (handleSCCInNamespace_unrequested exampleRbac ns freshCluster H)).
Defined.

(** X14. [handleSCCInNamespace] on a namespace that requests a policy.  When
    the policy is not on the cluster the call fails, and the one thing it
    writes is a Warning event in the namespace, owned by [r.ownerRef], with
    the reason RequestedSCCNotFound.  When the policy is on the cluster and
    within the ceiling, the call returns no error and the namespace's
    pipelines-scc-role is afterwards the role that grants the use of exactly
    that policy and is owned by [r.ownerRef], whatever rules and owners a
    role found there had; no other role changes. *)
Theorem handleSCCInNamespace_requested (r : rbac) (ns : Namespace) (c : Cluster) :
  requestedSCC ns ≠ "" →
  let c' := (handleSCCInNamespace r ns c).2 in
  (requestedSCC ns ∉ sccs c →
   is_Some (handleSCCInNamespace r ns c).1
   ∧ (∃ ev, c' = set_events (fun evs => evs ++ [ev])
                   (record (CallCreate KEvent (nsName ns) (evGenerateName ev)) c)
            ∧ evNamespace ev = nsName ns
            ∧ evType ev = "Warning"
            ∧ evReason ev = "RequestedSCCNotFound"
            ∧ evOwnerReferences ev = [ownerRef r]))
  ∧ (requestedSCC ns ∈ sccs c → withinCeiling r c (requestedSCC ns) →
     (handleSCCInNamespace r ns c).1 = None
     ∧ roles c'
       = <[(nsName ns, pipelinesSCCRole) := sccRole r (nsName ns) (requestedSCC ns)]>
           (roles c)
     ∧ calls c'
       = calls c ++ [upsert (roles c !! (nsName ns, pipelinesSCCRole)) KRole
                       (nsName ns) pipelinesSCCRole]).
Proof.
  intros Hreq c'. unfold c', requestedSCC in *. split.
  - intros Hmiss.
    assert (Heq : ∃ e ev,
      handleSCCInNamespace r ns c
      = (Some e,
         set_events (fun evs => evs ++ [ev])
           (record (CallCreate KEvent (nsName ns) (evGenerateName ev)) c))
      ∧ evNamespace ev = nsName ns
      ∧ evType ev = "Warning"
      ∧ evReason ev = "RequestedSCCNotFound"
      ∧ evOwnerReferences ev = [ownerRef r]).
    { unfold handleSCCInNamespace.
      rewrite (bool_decide_eq_false_2 _ Hreq).
      unfold bind at 1. unfold VerifySCCExists at 1.
      rewrite (bool_decide_eq_false_2 _ Hmiss).
      unfold bind, createSCCFailureEventInNamespace, bind, Events_Create, ret.
      simpl.
      eexists _, (mkEvent "pipelines-scc-failure-" (nsName ns) [ownerRef r]
                    "RequestedSCCNotFound" "Warning" "SCCNotUpdated" _
                    (orName (ownerRef r))).
      split; [reflexivity|]. done. }
    destruct Heq as (e & ev & -> & Hev). simpl. split; [eauto|].
    exists ev. by split.
  - intros Hin Hok.
    assert (Heq : handleSCCInNamespace r ns c
      = ensureSCCRoleInNamespace r (nsName ns)
          (mapIndex (nsAnnotations ns) NamespaceSCCAnnotation) c).
    { unfold handleSCCInNamespace.
      rewrite (bool_decide_eq_false_2 _ Hreq).
      unfold bind at 1. unfold VerifySCCExists at 1.
      rewrite (bool_decide_eq_true_2 _ Hin).
      destruct (decide (sccMaxAllowed (tektonConfig r) = "")) as [Hmax|Hmax].
      - by rewrite (bool_decide_eq_true_2 _ Hmax).
      - destruct Hok as [Hmax'|(i & j & Hi & Hj & Hle)]; [done|].
        rewrite (bool_decide_eq_false_2 _ Hmax). simpl.
        unfold bind at 1. unfold bind at 1.
        unfold GetSCCRestrictiveList, SCCAMoreRestrictiveThanB.
        rewrite Hi, Hj.
        replace (i <=? j)%nat with true by (symmetry; by apply Nat.leb_le).
        done. }
    rewrite Heq, ensureSCCRoleInNamespace_eq. done.
Qed.

(** Witness: namespace b of [freshCluster] requests the policy privileged,
    which is on the cluster; there is no ceiling. *)
Lemma handleSCCInNamespace_requested_witness :
  requestedSCC privilegedNamespace ≠ ""
  ∧ requestedSCC privilegedNamespace ∈ sccs freshCluster
  ∧ withinCeiling exampleRbac freshCluster (requestedSCC privilegedNamespace)
  ∧ (handleSCCInNamespace exampleRbac privilegedNamespace freshCluster).1 = None.
Proof.
  assert (H1 : requestedSCC privilegedNamespace ≠ "") by (vm_compute; discriminate).
  assert (H2 : requestedSCC privilegedNamespace ∈ sccs freshCluster).
  { change (requestedSCC privilegedNamespace) with "privileged".
    change (sccs freshCluster) with exampleSCCs.
    unfold exampleSCCs. apply list_elem_of_further, list_elem_of_further,
      list_elem_of_here. }
  assert (H3 : withinCeiling exampleRbac freshCluster
                 (requestedSCC privilegedNamespace)) by (by left).
  split; [exact H1|]. split; [exact H2|]. split; [exact H3|].
  exact (proj1 (proj2 (handleSCCInNamespace_requested exampleRbac privilegedNamespace
                         freshCluster H1) H2 H3)).
Defined.
